(** * LeetCode company-wise problem index: normalizer, index builder, queries

    A shallow embedding of [services/normalizer.js] and
    [services/dataService.js] with the properties of their specification.

    Conventions of the embedding.
    - A JavaScript string is a [string]: a sequence of code units, each in
      the range U+0000..U+00FF.  Inside the text functions it is handled as
      a [list ascii].
    - A JavaScript number that holds a frequency or a limit is an integer
      of [Z].
    - A [Map] is an association list in insertion order, except where only
      [get], [set] and [has] are used on it ([titleMap], a [gmap]); a [Set]
      and an object used as a set of keys are [gset]s.
    - A function that can throw returns a [result]. *)

From stdpp Require Import gmap strings list sorting.
From Stdlib Require Import Ascii String ZArith Lia.

Open Scope string_scope.
Open Scope list_scope.

(** ** Results of functions that can throw *)

Inductive result (A : Type) : Type :=
| Ok (a : A)
| Err (e : string).
Arguments Ok {A} a.
Arguments Err {A} e.

Definition bind {A B} (r : result A) (k : A -> result B) : result B :=
  match r with
  | Ok a => k a
  | Err e => Err e
  end.

Notation "'let*' x ':=' r 'in' k" := (bind r (fun x => k))
  (at level 10, x name, r at level 100, k at level 200).

(** [for (const x of l) { acc = f acc x }] where the body can throw. *)
Fixpoint foldM {A B} (f : A -> B -> result A) (acc : A) (l : list B) : result A :=
  match l with
  | [] => Ok acc
  | x :: r => let* acc' := f acc x in foldM f acc' r
  end.

(** ** Characters *)

Module Char.

Definition code (c : ascii) : nat := nat_of_ascii c.

Definition between (lo hi : nat) (c : ascii) : bool :=
  Nat.leb lo (code c) && Nat.leb (code c) hi.

(** The class [\s] of a regular expression, which is also what
    [String.prototype.trim] removes: TAB, LF, VT, FF, CR, SP, NBSP. *)
Definition is_space (c : ascii) : bool :=
  between 9 13 c || Nat.eqb (code c) 32 || Nat.eqb (code c) 160.

(** The class [\w]: [A-Za-z0-9_]. *)
Definition is_word (c : ascii) : bool :=
  between 65 90 c || between 97 122 c || between 48 57 c || Nat.eqb (code c) 95.

Definition hyphen : ascii := "-"%char.
Definition space : ascii := " "%char.

Definition is_hyphen (c : ascii) : bool := Nat.eqb (code c) 45.

(** One code unit of [String.prototype.toLowerCase]: A-Z, and the
    capitals U+00C0..U+00DE except the multiplication sign U+00D7. *)
Definition toLowerCase (c : ascii) : ascii :=
  if between 65 90 c || (between 192 222 c && negb (Nat.eqb (code c) 215))
  then ascii_of_nat (code c + 32)
  else c.

(** The class [[^\w\s-]]: what [titleToSlug] removes. *)
Definition is_special (c : ascii) : bool :=
  negb (is_word c || is_space c || is_hyphen c).

End Char.

(** ** Text functions on code-unit lists *)

Module Text.

Definition toLowerCase (l : list ascii) : list ascii := map Char.toLowerCase l.

Fixpoint trimStart (l : list ascii) : list ascii :=
  match l with
  | [] => []
  | c :: r => if Char.is_space c then trimStart r else l
  end.

Definition trimEnd (l : list ascii) : list ascii := rev (trimStart (rev l)).

(** [s.trim()] *)
Definition trim (l : list ascii) : list ascii := trimEnd (trimStart l).

(** [s.replace(/[^\w\s-]/g, '')] *)
Definition removeSpecial (l : list ascii) : list ascii :=
  List.filter (fun c => negb (Char.is_special c)) l.

(** [s.replace(/C+/g, sep)] for a character class [C]: every maximal run
    of characters of the class becomes one [sep].  [inrun] tells that the
    character before [l] was in the class. *)
Fixpoint replaceRuns (cls : ascii -> bool) (sep : ascii) (inrun : bool)
    (l : list ascii) : list ascii :=
  match l with
  | [] => []
  | c :: r =>
      if cls c
      then (if inrun then replaceRuns cls sep true r
            else sep :: replaceRuns cls sep true r)
      else c :: replaceRuns cls sep false r
  end.

(** [s.replace(/^-/, '')] *)
Definition dropLeadingHyphen (l : list ascii) : list ascii :=
  match l with
  | c :: r => if Char.is_hyphen c then r else l
  | [] => []
  end.

(** [s.replace(/-$/, '')] *)
Fixpoint dropTrailingHyphen (l : list ascii) : list ascii :=
  match l with
  | [] => []
  | [c] => if Char.is_hyphen c then [] else [c]
  | c :: r => c :: dropTrailingHyphen r
  end.

(** [s.replace(/^-|-$/g, '')]: the scan first tries [^-] at the start,
    then goes on after that match and removes a hyphen at the end. *)
Definition trimHyphens (l : list ascii) : list ascii :=
  dropTrailingHyphen (dropLeadingHyphen l).

(** [s.includes(q)] at the level of lists. *)
Fixpoint startsWith (q s : list ascii) : bool :=
  match q, s with
  | [], _ => true
  | _ :: _, [] => false
  | a :: q', b :: s' => bool_decide (a = b) && startsWith q' s'
  end.

Fixpoint includes (s q : list ascii) : bool :=
  startsWith q s ||
  match s with
  | [] => false
  | _ :: r => includes r q
  end.

End Text.

(** ** [class Normalizer] *)

Module Normalizer.

Definition chars (s : string) : list ascii := list_ascii_of_string s.
Definition str (l : list ascii) : string := string_of_list_ascii l.

(** [normalizeTitle(title)] *)
Definition normalizeTitle (title : string) : string :=
  if bool_decide (title = EmptyString) then EmptyString
  else str (Text.replaceRuns Char.is_space Char.space false
              (Text.trim (Text.toLowerCase (chars title)))).

(** The chain of [titleToSlug] on code-unit lists. *)
Definition slugChain (l : list ascii) : list ascii :=
  Text.trimHyphens
    (Text.replaceRuns Char.is_hyphen Char.hyphen false
       (Text.replaceRuns Char.is_space Char.hyphen false
          (Text.removeSpecial
             (Text.trim (Text.toLowerCase l))))).

(** [titleToSlug(title)] *)
Definition titleToSlug (title : string) : string :=
  if bool_decide (title = EmptyString) then EmptyString
  else str (slugChain (chars title)).

(** [normalizeSlug(slug)] *)
Definition normalizeSlug (slug : string) : string :=
  if bool_decide (slug = EmptyString) then EmptyString
  else str (Text.trimHyphens
              (Text.replaceRuns Char.is_hyphen Char.hyphen false
                 (Text.replaceRuns Char.is_space Char.hyphen false
                    (Text.trim (Text.toLowerCase (chars slug)))))).

(** [s.toLowerCase()], [s.trim()] and [s.includes(q)] on strings. *)
Definition toLowerCase (s : string) : string := str (Text.toLowerCase (chars s)).
Definition trim (s : string) : string := str (Text.trim (chars s)).
Definition includes (s q : string) : bool := Text.includes (chars s) (chars q).

End Normalizer.

(** ** Objects used as lookup tables

    [obj[k]] on an object literal finds the literal's own entries and, for
    the names below, the members inherited from [Object.prototype]; every
    inherited member is an object or a function, hence truthy. *)

Module JsObject.

Definition prototypeMembers : list string :=
  [ "constructor"; "__proto__"; "hasOwnProperty"; "isPrototypeOf";
    "propertyIsEnumerable"; "toLocaleString"; "toString"; "valueOf";
    "__defineGetter__"; "__defineSetter__"; "__lookupGetter__";
    "__lookupSetter__" ].

Inductive lookup (V : Type) : Type :=
| Own (v : V)               (* an entry of the literal *)
| Inherited (k : string)    (* the member [k] of [Object.prototype] *)
| Undefined.
Arguments Own {V} v.
Arguments Inherited {V} k.
Arguments Undefined {V}.

Fixpoint assoc {V} (k : string) (own : list (string * V)) : option V :=
  match own with
  | [] => None
  | (k', v) :: r => if bool_decide (k' = k) then Some v else assoc k r
  end.

Definition get {V} (own : list (string * V)) (k : string) : lookup V :=
  match assoc k own with
  | Some v => Own v
  | None => if bool_decide (k ∈ prototypeMembers) then Inherited k else Undefined
  end.

End JsObject.

(** ** A [Map] with string keys, in insertion order *)

Module JsMap.

Definition t (V : Type) : Type := list (string * V).

Definition get {V} (k : string) (m : t V) : option V := JsObject.assoc k m.

Definition has {V} (k : string) (m : t V) : bool :=
  match get k m with Some _ => true | None => false end.

(** [m.set(k, v)]: a new key goes last, a known key keeps its place. *)
Fixpoint set {V} (k : string) (v : V) (m : t V) : t V :=
  match m with
  | [] => [(k, v)]
  | (k', v') :: r =>
      if bool_decide (k' = k) then (k', v) :: r else (k', v') :: set k v r
  end.

(** In-place change of the value that [m.get(k)] returns. *)
Fixpoint alter {V} (f : V -> V) (k : string) (m : t V) : t V :=
  match m with
  | [] => []
  | (k', v') :: r =>
      if bool_decide (k' = k) then (k', f v') :: r else (k', v') :: alter f k r
  end.

Definition size {V} (m : t V) : nat := List.length m.

End JsMap.

(** ** The parser's output, as [buildProblemIndex] reads it *)

Module Parsed.

(** The [title] of a record.  The parser only emits strings;
    [TitleNotString] is a truthy value of another type (a number, say),
    on which [toLowerCase] is not a function. *)
Inductive jsTitle : Type :=
| TitleString (s : string)
| TitleNotString.

(** [frequency] is an integer, or [None] when the field is absent. *)
Record RawRecord : Type := {
  title : jsTitle;
  frequency : option Z
}.

(** [Object.entries] order: company, then window label, then records. *)
Definition TimeRanges : Type := list (string * list RawRecord).
Definition ParsedData : Type := list (string * TimeRanges).

End Parsed.

(** ** [class DataService] *)

Module DataService.

Import Parsed.

Record CompanyEntry : Type := {
  name : string;
  frequency : Z;
  timeRanges : gset string;          (* the keys of the object *)
  last_seen : option string          (* absent until first assigned *)
}.

Record ProblemData : Type := {
  problem : string;
  slug : string;
  companies : list CompanyEntry
}.

Record State : Type := {
  problemMap : JsMap.t ProblemData;
  titleMap : gmap string string;
  lastUpdated : option string;
  totalProblems : nat;
  totalCompanies : nat
}.

(** [constructor()] *)
Definition initial : State :=
  {| problemMap := []; titleMap := ∅; lastUpdated := None;
     totalProblems := 0; totalCompanies := 0 |}.

(** *** Methods as state transformers that can throw *)

Definition M (A : Type) : Type := State -> result A * State.

Definition ret {A} (a : A) : M A := fun st => (Ok a, st).
Definition throw {A} (e : string) : M A := fun st => (Err e, st).
Definition seq {A B} (m : M A) (k : A -> M B) : M B :=
  fun st =>
    match m st with
    | (Ok a, st') => k a st'
    | (Err e, st') => (Err e, st')
    end.
Definition lift {A} (r : result A) : M A := fun st => (r, st).
Definition modify (f : State -> State) : M unit := fun st => (Ok tt, f st).
(** [try { m } catch (error) { h error }] *)
Definition tryCatch {A} (m : M A) (h : string -> M A) : M A :=
  fun st =>
    match m st with
    | (Ok a, st') => (Ok a, st')
    | (Err e, st') => h e st'
    end.

Definition set_problemMap (v : JsMap.t ProblemData) (st : State) : State :=
  {| problemMap := v; titleMap := titleMap st; lastUpdated := lastUpdated st;
     totalProblems := totalProblems st; totalCompanies := totalCompanies st |}.
Definition set_titleMap (v : gmap string string) (st : State) : State :=
  {| problemMap := problemMap st; titleMap := v; lastUpdated := lastUpdated st;
     totalProblems := totalProblems st; totalCompanies := totalCompanies st |}.
Definition set_lastUpdated (v : option string) (st : State) : State :=
  {| problemMap := problemMap st; titleMap := titleMap st; lastUpdated := v;
     totalProblems := totalProblems st; totalCompanies := totalCompanies st |}.
Definition set_totalProblems (v : nat) (st : State) : State :=
  {| problemMap := problemMap st; titleMap := titleMap st;
     lastUpdated := lastUpdated st;
     totalProblems := v; totalCompanies := totalCompanies st |}.
Definition set_totalCompanies (v : nat) (st : State) : State :=
  {| problemMap := problemMap st; titleMap := titleMap st;
     lastUpdated := lastUpdated st;
     totalProblems := totalProblems st; totalCompanies := v |}.

(** *** [getShortestRange(ranges)] *)

Definition order : list string := ["30-days"; "60-days"; "90-days"; "all-time"].

Fixpoint firstIncluded (ranges : gset string) (l : list string) : option string :=
  match l with
  | [] => None
  | range :: r =>
      if bool_decide (range ∈ ranges) then Some range else firstIncluded ranges r
  end.

Definition getShortestRange (ranges : gset string) : string :=
  match firstIncluded ranges order with
  | Some range => range
  | None => "all-time"
  end.

(** *** [buildProblemIndex(parsedData)] *)

(** [Normalizer.titleToSlug(problem.title)] and
    [Normalizer.normalizeTitle(problem.title)]: a truthy value without
    [toLowerCase] raises a [TypeError]. *)
Definition titleString (t : jsTitle) : result string :=
  match t with
  | TitleString s => Ok s
  | TitleNotString => Err "TypeError: title.toLowerCase is not a function"
  end.

(** [obj[timeRange] = true] followed by [Object.keys(obj)]: the
    assignment to [__proto__] of a value that is not an object adds no
    key. *)
Definition setKey (timeRange : string) (keys : gset string) : gset string :=
  if bool_decide (timeRange = "__proto__") then keys else {[timeRange]} ∪ keys.

Definition newCompanyEntry (companyName : string) : CompanyEntry :=
  {| name := companyName; frequency := 0; timeRanges := ∅; last_seen := None |}.

(** [if (problem.frequency) { ... Math.max(...) }]: absent and 0 are
    falsy. *)
Definition updateFrequency (current : Z) (f : option Z) : Z :=
  match f with
  | Some z => if (z =? 0)%Z then current else Z.max current z
  | None => current
  end.

(** The three updates of the entry: lines 164-172. *)
Definition updateCompanyEntry (timeRange : string) (f : option Z)
    (c : CompanyEntry) : CompanyEntry :=
  let ranges := setKey timeRange (timeRanges c) in
  {| name := name c;
     frequency := updateFrequency (frequency c) f;
     timeRanges := ranges;
     last_seen := Some (getShortestRange ranges) |}.

Definition hasName (companyName : string) (c : CompanyEntry) : bool :=
  bool_decide (name c = companyName).

(** In-place change of the entry that [companies.find(...)] returns. *)
Fixpoint alterFirst (p : CompanyEntry -> bool) (f : CompanyEntry -> CompanyEntry)
    (l : list CompanyEntry) : list CompanyEntry :=
  match l with
  | [] => []
  | c :: r => if p c then f c :: r else c :: alterFirst p f r
  end.

(** Lines 152-172 on the [companies] array of one problem. *)
Definition foldCompany (companyName timeRange : string) (f : option Z)
    (l : list CompanyEntry) : list CompanyEntry :=
  let l' :=
    match List.find (hasName companyName) l with
    | Some _ => l
    | None => l ++ [newCompanyEntry companyName]
    end in
  alterFirst (hasName companyName) (updateCompanyEntry timeRange f) l'.

Definition withCompanies (f : list CompanyEntry -> list CompanyEntry)
    (p : ProblemData) : ProblemData :=
  {| problem := problem p; slug := slug p; companies := f (companies p) |}.

(** The local maps of [buildProblemIndex]. *)
Record Locals : Type := {
  l_problemMap : JsMap.t ProblemData;
  l_titleMap : gmap string string;
  l_companiesSet : gset string
}.

Definition emptyLocals : Locals :=
  {| l_problemMap := []; l_titleMap := ∅; l_companiesSet := ∅ |}.

(** The body of the innermost loop: lines 135-172. *)
Definition processRecord (companyName timeRange : string) (acc : Locals)
    (r : RawRecord) : result Locals :=
  let* t := titleString (title r) in
  let slug := Normalizer.titleToSlug t in
  let normalizedTitle := Normalizer.normalizeTitle t in
  let known := JsMap.has slug (l_problemMap acc) in
  let pm :=
    if known then l_problemMap acc
    else JsMap.set slug {| problem := t; slug := slug; companies := [] |}
           (l_problemMap acc) in
  let tm :=
    if known then l_titleMap acc
    else <[normalizedTitle := slug]> (l_titleMap acc) in
  Ok {| l_problemMap :=
          JsMap.alter (withCompanies (foldCompany companyName timeRange (Parsed.frequency r)))
            slug pm;
        l_titleMap := tm;
        l_companiesSet := l_companiesSet acc |}.

Definition processTimeRange (companyName : string) (acc : Locals)
    (e : string * list RawRecord) : result Locals :=
  foldM (processRecord companyName (fst e)) acc (snd e).

Definition processCompany (acc : Locals) (e : string * TimeRanges) : result Locals :=
  let acc' :=
    {| l_problemMap := l_problemMap acc; l_titleMap := l_titleMap acc;
       l_companiesSet := {[fst e]} ∪ l_companiesSet acc |} in
  foldM (processTimeRange (fst e)) acc' (snd e).

(** [(a, b) => b.frequency - a.frequency] *)
Definition byFrequency (a b : CompanyEntry) : Z := (frequency b - frequency a)%Z.

(** [Array.prototype.sort(compare)]: the sort is stable, so with a
    consistent comparator its result is the one of a stable insertion
    sort. *)
Fixpoint insertSorted {A} (compare : A -> A -> Z) (x : A) (l : list A) : list A :=
  match l with
  | [] => [x]
  | y :: r =>
      if (compare x y <=? 0)%Z then x :: y :: r
      else y :: insertSorted compare x r
  end.

Definition sort {A} (compare : A -> A -> Z) (l : list A) : list A :=
  foldr (insertSorted compare) [] l.

Definition sortCompanies (m : JsMap.t ProblemData) : JsMap.t ProblemData :=
  map (fun e => (fst e, withCompanies (sort byFrequency) (snd e))) m.

(** Lines 125-180: everything before the assignments to [this]. *)
Definition buildLocals (parsedData : ParsedData) : result Locals :=
  let* acc := foldM processCompany emptyLocals parsedData in
  Ok {| l_problemMap := sortCompanies (l_problemMap acc);
        l_titleMap := l_titleMap acc;
        l_companiesSet := l_companiesSet acc |}.

Definition buildProblemIndex (parsedData : ParsedData) : M unit :=
  seq (lift (buildLocals parsedData)) (fun acc =>
  seq (modify (set_problemMap (l_problemMap acc))) (fun _ =>
  seq (modify (set_titleMap (l_titleMap acc))) (fun _ =>
  seq (modify (set_totalProblems (JsMap.size (l_problemMap acc)))) (fun _ =>
  modify (set_totalCompanies (size (l_companiesSet acc))))))).

(** *** [updateData()]

    The two collaborators are parameters: [fetchRepository] is the
    outcome of the download, [parseAllCSVs] the parser, [now] the clock. *)
Section UpdateData.
Context {RepoData : Type}.
Variable fetchRepository : result RepoData.
Variable parseAllCSVs : RepoData -> result ParsedData.
Variable now : string.

Definition updateData : M unit :=
  tryCatch
    (seq (lift fetchRepository) (fun repoData =>
     seq (lift (parseAllCSVs repoData)) (fun parsedData =>
     seq (buildProblemIndex parsedData) (fun _ =>
     modify (set_lastUpdated (Some now))))))
    (fun error => throw error).
End UpdateData.

(** *** [filterByTimeRange(problemData, timeRange)] *)

(** A company of a windowed answer: [{name, frequency, last_seen}]. *)
Module View.
Record Company : Type := {
  name : string;
  frequency : Z;
  last_seen : option string
}.
End View.

Inductive Answer : Type :=
| FullClone (problemData : ProblemData)
| Filtered (problem slug : string) (companies : list View.Company).

Definition rangeMap : list (string * string) :=
  [("30", "30-days"); ("60", "60-days"); ("90", "90-days"); ("all", "all-time")].

Definition rangeHierarchy : list (string * list string) :=
  [("30-days", ["30-days"]);
   ("60-days", ["30-days"; "60-days"]);
   ("90-days", ["30-days"; "60-days"; "90-days"]);
   ("all-time", ["30-days"; "60-days"; "90-days"; "all-time"])].

(** The value of [rangeMap[timeRange] || timeRange]: a string, or a
    member of [Object.prototype], whose string form names no property. *)
Inductive jsKey : Type :=
| KeyString (s : string)
| KeyMember (k : string).

Definition targetRange (timeRange : string) : jsKey :=
  match JsObject.get rangeMap timeRange with
  | JsObject.Own v => KeyString v
  | JsObject.Inherited k => KeyMember k
  | JsObject.Undefined => KeyString timeRange
  end.

(** What [getIncludedRanges] returns: an array of labels, or a member of
    [Object.prototype], which is truthy and is returned as it is. *)
Inductive Included : Type :=
| Ranges (l : list string)
| NotAnArray (k : string).

(** [getIncludedRanges(targetRange)] *)
Definition getIncludedRanges (targetRange : jsKey) : Included :=
  match targetRange with
  | KeyString s =>
      match JsObject.get rangeHierarchy s with
      | JsObject.Own l => Ranges l
      | JsObject.Inherited k => NotAnArray k
      | JsObject.Undefined => Ranges ["30-days"; "60-days"; "90-days"; "all-time"]
      end
  | KeyMember _ => Ranges ["30-days"; "60-days"; "90-days"; "all-time"]
  end.

(** [includedRanges.some(range => company.timeRanges[range])] *)
Definition someIncluded (includedRanges : Included) (company : CompanyEntry)
    : result bool :=
  match includedRanges with
  | Ranges l => Ok (existsb (fun range => bool_decide (range ∈ timeRanges company)) l)
  | NotAnArray _ => Err "TypeError: includedRanges.some is not a function"
  end.

(** [array.filter(p)] for a predicate that can throw. *)
Fixpoint filterM {A} (p : A -> result bool) (l : list A) : result (list A) :=
  match l with
  | [] => Ok []
  | x :: r =>
      let* b := p x in
      let* r' := filterM p r in
      Ok (if b then x :: r' else r')
  end.

Definition view (company : CompanyEntry) : View.Company :=
  {| View.name := name company;
     View.frequency := frequency company;
     View.last_seen := last_seen company |}.

(** [timeRange] is [None] for [null] and [undefined]; the empty string is
    falsy as well. *)
Definition filterByTimeRange (problemData : ProblemData) (timeRange : option string)
    : result Answer :=
  match timeRange with
  | None => Ok (FullClone problemData)
  | Some tr =>
      if bool_decide (tr = EmptyString) then Ok (FullClone problemData)
      else
        let includedRanges := getIncludedRanges (targetRange tr) in
        let* kept := filterM (someIncluded includedRanges) (companies problemData) in
        Ok (Filtered (problem problemData) (slug problemData) (map view kept))
  end.

(** [queryBySlug(slug, timeRange)]; [Ok None] is [null]. *)
Definition queryBySlug (st : State) (slug : string) (timeRange : option string)
    : result (option Answer) :=
  match JsMap.get (Normalizer.normalizeSlug slug) (problemMap st) with
  | None => Ok None
  | Some problemData =>
      let* a := filterByTimeRange problemData timeRange in Ok (Some a)
  end.

(** [queryByTitle(title, timeRange)]; the empty slug is falsy. *)
Definition queryByTitle (st : State) (title : string) (timeRange : option string)
    : result (option Answer) :=
  match titleMap st !! Normalizer.normalizeTitle title with
  | None => Ok None
  | Some slug =>
      if bool_decide (slug = EmptyString) then Ok None else queryBySlug st slug timeRange
  end.

(** *** [searchProblems(query, limit = 10)] *)

Module Hit.
Record t : Type := {
  problem : string;
  slug : string;
  companyCount : nat
}.
End Hit.

Definition hit (data : ProblemData) : Hit.t :=
  {| Hit.problem := problem data;
     Hit.slug := slug data;
     Hit.companyCount := List.length (companies data) |}.

(** The condition of line 270. *)
Definition matches (normalizedQuery : string) (e : string * ProblemData) : bool :=
  Normalizer.includes (Normalizer.toLowerCase (problem (snd e))) normalizedQuery
  || Normalizer.includes (fst e) normalizedQuery.

(** The loop of lines 269-280; [results] is the array built so far. *)
Fixpoint searchLoop (normalizedQuery : string) (limit : Z)
    (entries : list (string * ProblemData)) (results : list Hit.t) : list Hit.t :=
  match entries with
  | [] => results
  | e :: rest =>
      if matches normalizedQuery e then
        let results' := results ++ [hit (snd e)] in
        if (Z.of_nat (List.length results') >=? limit)%Z then results'
        else searchLoop normalizedQuery limit rest results'
      else searchLoop normalizedQuery limit rest results
  end.

(** [limit] is [None] when the argument is left out. *)
Definition searchProblems (st : State) (query : string) (limit : option Z)
    : list Hit.t :=
  let limit := default 10%Z limit in
  let normalizedQuery := Normalizer.trim (Normalizer.toLowerCase query) in
  searchLoop normalizedQuery limit (problemMap st) [].

(** [getStatus()] *)
Definition getStatus (st : State) : option string * nat * nat :=
  (lastUpdated st, totalProblems st, totalCompanies st).

End DataService.

(** * Vocabulary of the specification *)

(** ** Titles that are variants of each other *)

Module Title.

(** One difference between two titles: the case of one character, one
    character that [titleToSlug] removes (neither a word character, nor
    white space, nor a hyphen), one white space at either end, or the
    length of a run of white space. *)
Inductive differ1 : list ascii -> list ascii -> Prop :=
| differ_case l c c' r :
    Char.toLowerCase c = Char.toLowerCase c' ->
    differ1 (l ++ c :: r) (l ++ c' :: r)
| differ_special l c r :
    Char.is_special c = true ->
    differ1 (l ++ c :: r) (l ++ r)
| differ_leading c t :
    Char.is_space c = true ->
    differ1 (c :: t) t
| differ_trailing c t :
    Char.is_space c = true ->
    differ1 (t ++ [c]) t
| differ_run_l l c1 c2 r :
    Char.is_space c1 = true -> Char.is_space c2 = true ->
    differ1 (l ++ c1 :: c2 :: r) (l ++ c2 :: r)
| differ_run_r l c1 c2 r :
    Char.is_space c1 = true -> Char.is_space c2 = true ->
    differ1 (l ++ c1 :: c2 :: r) (l ++ c1 :: r).

(** Any number of such differences, in either direction. *)
Inductive variants : list ascii -> list ascii -> Prop :=
| variants_refl t : variants t t
| variants_step t1 t2 : differ1 t1 t2 -> variants t1 t2
| variants_sym t1 t2 : variants t1 t2 -> variants t2 t1
| variants_trans t1 t2 t3 : variants t1 t2 -> variants t2 t3 -> variants t1 t3.

(** The slug read off a title in one pass: the words of the title, joined
    by single hyphens.  The phase tells what has been read so far. *)
Inductive phase : Type :=
| Start      (* nothing written yet *)
| InWord     (* the last character was written *)
| Pending.   (* a separator was read after a written character *)

Definition afterSeparator (ph : phase) : phase :=
  match ph with
  | Start => Start
  | _ => Pending
  end.

Definition is_separator (c : ascii) : bool := Char.is_space c || Char.is_hyphen c.

Fixpoint words (ph : phase) (l : list ascii) : list ascii :=
  match l with
  | [] => []
  | c :: r =>
      if Char.is_special c then words ph r
      else if is_separator c then words (afterSeparator ph) r
      else match ph with
           | Pending => Char.hyphen :: c :: words InWord r
           | _ => c :: words InWord r
           end
  end.

(** A list of word characters and hyphens without two hyphens in a row;
    [prev] tells that a hyphen may not come first. *)
Fixpoint hyphenated (prev : bool) (l : list ascii) : bool :=
  match l with
  | [] => true
  | c :: r =>
      if Char.is_hyphen c then negb prev && hyphenated true r
      else Char.is_word c && hyphenated false r
  end.

End Title.

(** ** Recency windows *)

Module Recency.
Import DataService.

(** [windowsIncludedFor] of a request token: lines 232-235 of
    [filterByTimeRange]. *)
Definition windowsIncludedFor (requested : string) : Included :=
  getIncludedRanges (targetRange requested).

(** The windows seen for a company intersect a list of windows. *)
Definition intersects (seen : gset string) (windows : list string) : Prop :=
  seen ∩ list_to_set windows ≠ ∅.

#[global] Instance intersects_dec seen windows : Decision (intersects seen windows).
Proof. unfold intersects. apply _. Defined.

(** The request tokens with an entry in one of the two tables. *)
Definition recognized : list string :=
  ["30"; "60"; "90"; "all"; "30-days"; "60-days"; "90-days"; "all-time"].

End Recency.

(** ** Search *)

Module Matching.
Import DataService.

(** [q] occurs in [s]. *)
Definition isSubstring (q s : string) : Prop :=
  exists a b, Normalizer.chars s = a ++ Normalizer.chars q ++ b.

(** The query is empty or made of white space only. *)
Definition blank (query : string) : Prop :=
  Forall (fun c => Char.is_space c = true) (Normalizer.chars query).

(** The condition of the specification for a problem to be a match: the
    comparison-normalized query occurs in the comparison-normalized
    display title or in the identity key. *)
Definition matchesSpec (query : string) (e : string * ProblemData) : bool :=
  Normalizer.includes (Normalizer.normalizeTitle (problem (snd e)))
                      (Normalizer.normalizeTitle query)
  || Normalizer.includes (fst e) (Normalizer.normalizeTitle query).

End Matching.

(** ** The records behind an index *)

Module Build.
Import Parsed DataService.

(** The records of the parser's output in the order of the three loops,
    each with its company and its window label. *)
Definition records (parsedData : ParsedData) : list (string * string * RawRecord) :=
  flat_map (fun c => flat_map (fun w => map (fun r => (fst c, fst w, r)) (snd w)) (snd c))
           parsedData.

Definition companyOf (t : string * string * RawRecord) : string := fst (fst t).
Definition windowOf (t : string * string * RawRecord) : string := snd (fst t).

(** The identity key of a record. *)
Definition slugOf (r : RawRecord) : option string :=
  match title r with
  | TitleString s => Some (Normalizer.titleToSlug s)
  | TitleNotString => None
  end.

(** The record belongs to the problem [slug]; to the pair of the problem
    and [company]. *)
Definition isFor (slug : string) (t : string * string * RawRecord) : bool :=
  bool_decide (slugOf (snd t) = Some slug).

Definition isPair (slug company : string) (t : string * string * RawRecord) : bool :=
  isFor slug t && bool_decide (companyOf t = company).

(** The frequencies reported for a pair, in the order of the records. *)
Definition reported (hist : list (string * string * RawRecord))
    (slug company : string) : list Z :=
  flat_map (fun t => if isPair slug company t
                     then match Parsed.frequency (snd t) with
                          | Some z => [z]
                          | None => []
                          end
                     else [])
           hist.

(** The maximum of the frequencies above 0; 0 when there is none. *)
Definition maxPositive (l : list Z) : Z :=
  foldr Z.max 0%Z (List.filter (fun z => (0 <? z)%Z) l).

Definition addNew (seen : list string) (company : string) : list string :=
  if bool_decide (company ∈ seen) then seen else seen ++ [company].

(** The companies of a problem in the order in which they were first
    seen. *)
Definition discovery (hist : list (string * string * RawRecord)) (slug : string)
    : list string :=
  foldl addNew [] (map companyOf (List.filter (isFor slug) hist)).

(** What one record does to the local [problemMap]. *)
Definition recordStep (pm : JsMap.t ProblemData) (t : string * string * RawRecord)
    : result (JsMap.t ProblemData) :=
  let* acc := processRecord (companyOf t) (windowOf t)
                {| l_problemMap := pm; l_titleMap := ∅; l_companiesSet := ∅ |}
                (snd t) in
  Ok (l_problemMap acc).

(** The local [problemMap] agrees with the records folded in so far: one
    entry per identity key, and in an entry the companies in the order of
    their discovery, each with the maximum of its frequencies. *)
Definition consistent (hist : list (string * string * RawRecord))
    (pm : JsMap.t ProblemData) : Prop :=
  NoDup (map fst pm) /\
  (forall k, k ∉ map fst pm -> discovery hist k = []) /\
  (forall k p, (k, p) ∈ pm ->
     slug p = k /\
     map name (companies p) = discovery hist k /\
     forall c, c ∈ companies p ->
       frequency c = maxPositive (reported hist k (name c))).

(** Descending by frequency. *)
Definition descending (l : list CompanyEntry) : Prop :=
  StronglySorted (fun a b => (frequency b <= frequency a)%Z) l.

(** The companies of [l] with frequency [f], in the order of [l]. *)
Definition tied (f : Z) (l : list CompanyEntry) : list CompanyEntry :=
  List.filter (fun c => bool_decide (frequency c = f)) l.

End Build.

(** ** Sample data *)

Module Sample.
Import Parsed DataService.

Definition rec (t : string) (f : Z) : RawRecord :=
  {| title := TitleString t; Parsed.frequency := Some f |}.

(** The scenario of the specification. *)
Definition acmeBeta : ParsedData :=
  [ ("Acme", [("30-days", [rec "Two Sum" 5])]);
    ("Beta", [("90-days", [rec "two   sum" 2])]) ].

Definition built (d : ParsedData) : State := snd (buildProblemIndex d initial).

(** The entry of the built index and its two companies. *)
Definition acme : CompanyEntry :=
  {| name := "Acme"; DataService.frequency := 5;
     timeRanges := {["30-days"]}; last_seen := Some "30-days" |}.

Definition beta : CompanyEntry :=
  {| name := "Beta"; DataService.frequency := 2;
     timeRanges := {["90-days"]}; last_seen := Some "90-days" |}.

Definition twoSum : ProblemData :=
  {| problem := "Two Sum"; slug := "two-sum"; companies := [acme; beta] |}.

(** Four companies for one problem, two frequencies, and records without
    a frequency or with frequency 0. *)
Definition ranked : ParsedData :=
  [ ("Acme", [("30-days", [rec "Two Sum" 1]);
              ("90-days", [rec "two sum!" 2; rec "TWO  SUM" 0]);
              ("all-time", [{| title := TitleString "Two Sum?";
                               Parsed.frequency := None |}])]);
    ("Beta", [("90-days", [rec "two   sum" 9])]);
    ("Gamma", [("all-time", [rec "Two Sum" 9; rec "3Sum" 4])]);
    ("Delta", [("30-days", [rec "(Two Sum)" 2])]) ].

Definition company (n : string) (f : Z) (windows : gset string) (seen : string)
    : CompanyEntry :=
  {| name := n; DataService.frequency := f;
     timeRanges := windows; last_seen := Some seen |}.

Definition rankedTwoSum : ProblemData :=
  {| problem := "Two Sum"; slug := "two-sum";
     companies :=
       [ company "Beta" 9 {["90-days"]} "90-days";
         company "Gamma" 9 {["all-time"]} "all-time";
         company "Acme" 2 {["30-days"; "90-days"; "all-time"]} "30-days";
         company "Delta" 2 {["30-days"]} "30-days" ] |}.

(** A record whose title is not a string. *)
Definition malformed : ParsedData :=
  [ ("Acme", [("30-days", [rec "Two Sum" 5;
                           {| title := TitleNotString; Parsed.frequency := Some 1%Z |}])]) ].

(** A company with one file, under the fetcher's label [180-days]. *)
Definition sixMonths : ParsedData :=
  [ ("Acme", [("180-days", [rec "Two Sum" 5])]) ].

Definition sixMonthsEntry : ProblemData :=
  {| problem := "Two Sum"; slug := "two-sum";
     companies := [company "Acme" 5 {["180-days"]} "all-time"] |}.

(** The states after a build of the samples. *)
Definition acmeBetaState : State := built acmeBeta.
Definition rankedState : State := built ranked.
Definition sixMonthsState : State := built sixMonths.

(** A rebuild whose parser hands over the malformed sample. *)
Definition failedRebuild : result unit * State :=
  updateData (Ok tt) (fun _ : unit => Ok malformed) "2026-01-01T02:00:00.000Z"
             acmeBetaState.

Definition twoSumHit : Hit.t :=
  {| Hit.problem := "Two Sum"; Hit.slug := "two-sum"; Hit.companyCount := 2 |}.
End Sample.

(** * The rest of the code *)

(** ** [class Normalizer]: matching *)

Module Lookup.

(** [matchesQuery(title, query)] *)
Definition matchesQuery (title query : string) : bool :=
  Normalizer.includes (Normalizer.normalizeTitle title) (Normalizer.normalizeTitle query).

(** [findBestMatch(input, titleMap, problemMap)]; [None] is [null]. *)
Definition findBestMatch {V} (input : string) (titleMap : gmap string string)
    (problemMap : JsMap.t V) : option string :=
  let slug := Normalizer.normalizeSlug input in
  if JsMap.has slug problemMap then Some slug
  else
    let normalizedTitle := Normalizer.normalizeTitle input in
    match titleMap !! normalizedTitle with
    | Some found => Some found
    | None =>
        let slug := Normalizer.titleToSlug input in
        if JsMap.has slug problemMap then Some slug else None
    end.

End Lookup.

(** ** The lookups for any value of the argument

    [DataService.queryBySlug] and [DataService.queryByTitle] above take
    the slug and the title as strings.  The router hands over
    [req.query.slug] and [req.query.title] as they are: a string, or an
    array or an object of the query parser. *)

Module Query.
Import DataService.

(** A value handed over as slug or title: a string; a falsy value that is
    not a string ([undefined], [null], [0], [NaN], [false]); a truthy
    value without a method [toLowerCase] (an array, an object of the
    query parser, a number, [true]). *)
Inductive Value : Type :=
| VString (s : string)
| VFalsy
| VTruthy.

(** [Normalizer.normalizeSlug(slug)] *)
Definition normalizeSlug (slug : Value) : result string :=
  match slug with
  | VString s => Ok (Normalizer.normalizeSlug s)
  | VFalsy => Ok EmptyString
  | VTruthy => Err "TypeError: slug.toLowerCase is not a function"
  end.

(** [Normalizer.normalizeTitle(title)] *)
Definition normalizeTitle (title : Value) : result string :=
  match title with
  | VString s => Ok (Normalizer.normalizeTitle s)
  | VFalsy => Ok EmptyString
  | VTruthy => Err "TypeError: title.toLowerCase is not a function"
  end.

(** [queryBySlug(slug, timeRange)]; [Ok None] is [null]. *)
Definition queryBySlug (st : State) (slug : Value) (timeRange : option string)
    : result (option Answer) :=
  let* normalizedSlug := normalizeSlug slug in
  match JsMap.get normalizedSlug (problemMap st) with
  | None => Ok None
  | Some problemData =>
      let* a := filterByTimeRange problemData timeRange in Ok (Some a)
  end.

(** [queryByTitle(title, timeRange)]; the empty slug is falsy. *)
Definition queryByTitle (st : State) (title : Value) (timeRange : option string)
    : result (option Answer) :=
  let* normalizedTitle := normalizeTitle title in
  match titleMap st !! normalizedTitle with
  | None => Ok None
  | Some slug =>
      if bool_decide (slug = EmptyString) then Ok None
      else queryBySlug st (VString slug) timeRange
  end.

End Query.

(** ** The shape of an identity key *)

Module Slug.

(** A lower-case word character or a hyphen. *)
Definition keyChar (c : ascii) : Prop :=
  c = Char.hyphen \/ (Char.is_word c = true /\ Char.toLowerCase c = c).

(** Words of lower-case word characters joined by single hyphens. *)
Definition shaped (l : list ascii) : Prop :=
  Forall keyChar l /\
  head l <> Some Char.hyphen /\
  last l <> Some Char.hyphen /\
  (forall a b, l <> a ++ [Char.hyphen; Char.hyphen] ++ b).

End Slug.

(** ** What an index holds *)

Module Index.
Import Parsed DataService.

(** The identity keys of the records in the order in which they were first
    seen. *)
Definition slugOrder (hist : list (string * string * RawRecord)) : list string :=
  foldl Build.addNew [] (omap (fun t => Build.slugOf (snd t)) hist).

(** The title of the record, when the record belongs to the problem. *)
Definition titleFor (slug : string) (t : string * string * RawRecord) : option string :=
  match title (snd t) with
  | TitleString s =>
      if bool_decide (Normalizer.titleToSlug s = slug) then Some s else None
  | TitleNotString => None
  end.

(** The title of the first record of the problem. *)
Definition firstTitle (hist : list (string * string * RawRecord)) (slug : string)
    : option string :=
  head (omap (titleFor slug) hist).

(** The window labels of the records of a pair, [__proto__] apart. *)
Definition seenWindows (hist : list (string * string * RawRecord))
    (slug company : string) : gset string :=
  list_to_set
    (List.filter (fun w => negb (bool_decide (w = "__proto__")))
       (map Build.windowOf (List.filter (Build.isPair slug company) hist))).

(** The local [problemMap] describes the records folded in so far: the
    keys in the order of their discovery, the first title of each problem,
    and for each company its windows and the tightest of them. *)
Definition described (hist : list (string * string * RawRecord))
    (pm : JsMap.t ProblemData) : Prop :=
  map fst pm = slugOrder hist /\
  (forall k p, (k, p) ∈ pm ->
     firstTitle hist k = Some (problem p) /\
     forall c, c ∈ companies p ->
       timeRanges c = seenWindows hist k (name c) /\
       last_seen c = Some (getShortestRange (timeRanges c))).

(** The local [titleMap] goes with the local [problemMap]: the comparison
    form of every display title leads to the key of its problem, and every
    entry is the comparison form of the display title of the problem it
    leads to. *)
Definition titled (pm : JsMap.t ProblemData) (tm : gmap string string) : Prop :=
  (forall k p, (k, p) ∈ pm -> tm !! Normalizer.normalizeTitle (problem p) = Some k) /\
  (forall nt s, tm !! nt = Some s ->
     exists p, (s, p) ∈ pm /\ nt = Normalizer.normalizeTitle (problem p)).

(** [w] comes before [r] in the fixed order of the windows. *)
Definition tighter (w r : string) : Prop :=
  exists a b, order = a ++ [r] ++ b /\ w ∈ a.

End Index.

(** ** The states of the service *)

Module Service.
Import Parsed DataService.

(** The states that the service can be in: the one of the constructor,
    and the one after [updateData], whatever the download, the parser and
    the clock, and whether it returns or throws. *)
Inductive reachable : State -> Prop :=
| reach_initial : reachable initial
| reach_update (RepoData : Type) (fetchRepository : result RepoData)
    (parseAllCSVs : RepoData -> result ParsedData) (now : string)
    (st st' : State) (outcome : result unit) :
    reachable st ->
    updateData fetchRepository parseAllCSVs now st = (outcome, st') ->
    reachable st'.

End Service.

(** ** [class CSVParser]

    A row of [Papa.parse] is the list of its cells under their headers, in
    the order of [Object.entries].  [Papa.parse] itself and the builtin
    [parseInt] are parameters. *)

Module CSVParser.
Import Parsed.

Section Parser.

(** A number or a boolean, as [dynamicTyping] makes them. *)
Variable Other : Type.

Inductive cell : Type :=
| CellString (s : string)
| CellNull
| CellOther (v : Other).

Definition Row : Type := list (string * cell).

(** [parseInt(value, 10)]; [None] is [NaN]. *)
Variable parseInt : cell -> option Z.

(** [Papa.parse(csvContent, {...}).data], or the error it throws. *)
Variable papaParse : string -> result (list Row).

Definition titleKeys : list string :=
  ["title"; "problem"; "problem title"; "question"; "question title"; "name"].

Definition freqKeys : list string := ["frequency"; "freq"; "count"; "occurrences"].

(** [row[key] && typeof row[key] === 'string'], for a key that is not a
    member of [Object.prototype]. *)
Definition titleUnder (row : Row) (key : string) : option string :=
  match JsObject.assoc key row with
  | Some (CellString s) => if bool_decide (s = EmptyString) then None else Some s
  | _ => None
  end.

Fixpoint firstTitleUnder (row : Row) (keys : list string) : option string :=
  match keys with
  | [] => None
  | key :: rest =>
      match titleUnder row key with
      | Some s => Some s
      | None => firstTitleUnder row rest
      end
  end.

(** [typeof value === 'string' && value.trim().length > 0] *)
Definition nonBlankString (value : cell) : option string :=
  match value with
  | CellString s =>
      if bool_decide (Normalizer.trim s = EmptyString) then None else Some s
  | _ => None
  end.

Fixpoint firstNonBlank (entries : Row) : option string :=
  match entries with
  | [] => None
  | (_, value) :: rest =>
      match nonBlankString value with
      | Some s => Some s
      | None => firstNonBlank rest
      end
  end.

(** [extractTitle(row)]; [None] is [null]. *)
Definition extractTitle (row : Row) : option string :=
  match firstTitleUnder row titleKeys with
  | Some s => Some s
  | None => firstNonBlank row
  end.

(** The body of the loop of [extractFrequency] for one key. *)
Definition frequencyUnder (row : Row) (key : string) : option Z :=
  match JsObject.assoc key row with
  | None => None
  | Some CellNull => None
  | Some value => parseInt value
  end.

Fixpoint firstFrequencyUnder (row : Row) (keys : list string) : option Z :=
  match keys with
  | [] => None
  | key :: rest =>
      match frequencyUnder row key with
      | Some freq => Some freq
      | None => firstFrequencyUnder row rest
      end
  end.

(** [extractFrequency(row)] *)
Definition extractFrequency (row : Row) : Z :=
  match firstFrequencyUnder row freqKeys with
  | Some freq => freq
  | None => 1%Z
  end.

(** [title.toLowerCase().trim()] *)
Definition dedupKey (title : string) : string :=
  Normalizer.trim (Normalizer.toLowerCase title).

(** The loop of [extractProblems]; [seen] is the set of the keys so far. *)
Fixpoint extractFrom (rows : list Row) (seen : gset string) : list RawRecord :=
  match rows with
  | [] => []
  | row :: rest =>
      match extractTitle row with
      | None => extractFrom rest seen
      | Some title =>
          if bool_decide (title = EmptyString) then extractFrom rest seen
          else if bool_decide (dedupKey title ∈ seen) then extractFrom rest seen
          else
            {| title := TitleString (Normalizer.trim title);
               frequency := Some (extractFrequency row) |}
            :: extractFrom rest ({[dedupKey title]} ∪ seen)
      end
  end.

(** [extractProblems(rows)] *)
Definition extractProblems (rows : list Row) : list RawRecord := extractFrom rows ∅.

(** [parseCSV(csvContent)]: an error of the parser gives no row. *)
Definition parseCSV (csvContent : string) : list Row :=
  match papaParse csvContent with
  | Ok rows => rows
  | Err _ => []
  end.

(** [obj[key] = value] on a fresh object adds the key unless the key is
    [__proto__], which sets the prototype instead. *)
Definition ownKey {V} (e : string * V) : bool :=
  negb (bool_decide (fst e = "__proto__")).

(** [parseAllCSVs(repoData)]; [repoData] is given by its entries. *)
Definition parseAllCSVs (repoData : list (string * list (string * string)))
    : ParsedData :=
  map (fun c =>
         (fst c,
          map (fun w => (fst w, extractProblems (parseCSV (snd w))))
              (List.filter ownKey (snd c))))
      (List.filter ownKey repoData).

End Parser.

Arguments CellString {Other} s.
Arguments CellNull {Other}.
Arguments CellOther {Other} v.

(** The title of an extracted record. *)
Definition titleOf (r : RawRecord) : string :=
  match title r with
  | TitleString s => s
  | TitleNotString => EmptyString
  end.

End CSVParser.

(** ** [class GitHubFetcher]

    The download and the opening of the archive are a parameter: the
    entries of the archive, or the message of the error.  The object
    [repoData] is the list of its own entries in the order of their
    insertion ([Object.entries] lists the names that are array indices
    before the others; nothing below depends on the order).

    A directory with the name of a member of [Object.prototype] gets no
    entry of its own: [repoData[companyName]] is the member, and the
    content is written onto it.  For [__proto__] the member is
    [Object.prototype] itself, and the content is from then on what every
    object without an own property of the label's name has under it. *)

Module GitHubFetcher.

(** An entry of the archive; [getData] is [entry.getData().toString('utf8')],
    or the message of the error that [getData] throws. *)
Record ZipEntry : Type := {
  isDirectory : bool;
  entryName : string;
  getData : result string
}.

Definition fileMapping : list (string * string) :=
  [ ("1. Thirty Days.csv", "30-days");
    ("2. Three Months.csv", "90-days");
    ("3. Six Months.csv", "180-days");
    ("4. More Than Six Months.csv", "all-time");
    ("5. All.csv", "all-time");
    ("Thirty Days.csv", "30-days");
    ("Three Months.csv", "90-days");
    ("Six Months.csv", "180-days");
    ("More Than Six Months.csv", "all-time");
    ("All.csv", "all-time") ].

(** [s.split(sep)] for a separator of one character. *)
Fixpoint splitOn (sep : ascii) (l : list ascii) : list (list ascii) :=
  match l with
  | [] => [[]]
  | c :: r =>
      if bool_decide (c = sep) then [] :: splitOn sep r
      else match splitOn sep r with
           | part :: parts => (c :: part) :: parts
           | [] => [[c]]
           end
  end.

Definition split (s : string) : list string :=
  map Normalizer.str (splitOn "/"%char (Normalizer.chars s)).

(** [s.endsWith(suffix)] *)
Definition endsWith (s suffix : string) : bool :=
  Text.startsWith (rev (Normalizer.chars suffix)) (rev (Normalizer.chars s)).

(** The local [repoData], and the assignments that land on a member of
    [Object.prototype]: member, label, content. *)
Record Loaded : Type := {
  repoData : JsMap.t (JsMap.t string);
  prototypeWrites : list (string * string * string)
}.

Definition nothingLoaded : Loaded := {| repoData := []; prototypeWrites := [] |}.

(** What an object without an own property [name] has under [name] after
    the assignments onto [Object.prototype]: the content of the last one
    under that label. *)
Fixpoint inherited (writes : list (string * string * string)) (name : string)
    : option string :=
  match writes with
  | [] => None
  | (member, label, content) :: rest =>
      match inherited rest name with
      | Some later => Some later
      | None =>
          if bool_decide (member = "__proto__" /\ label = name)
          then Some content else None
      end
  end.

(** The message of the [TypeError] of an assignment to a property of a
    string; the body of a class is strict code. *)
Definition cannotCreateProperty (key value : string) : string :=
  String.append "Cannot create property '"
    (String.append key (String.append "' on string '" (String.append value "'"))).

(** The body of the loop over the entries.  [this.fileMapping[fileName]]
    reads an entry of the table only: a name that ends in [.csv] is no
    member of [Object.prototype] and no label. *)
Definition loadEntry (acc : Loaded) (entry : ZipEntry) : result Loaded :=
  if isDirectory entry then Ok acc
  else if negb (endsWith (entryName entry) ".csv") then Ok acc
  else
    let parts := split (entryName entry) in
    if (List.length parts <? 3)%nat then Ok acc
    else
      let companyName := nth (List.length parts - 2) parts EmptyString in
      let fileName := nth (List.length parts - 1) parts EmptyString in
      match JsObject.assoc fileName fileMapping with
      | None => Ok acc
      | Some timeRange =>
          if bool_decide (companyName ∈ JsObject.prototypeMembers) then
            let* content := getData entry in
            Ok {| repoData := repoData acc;
                  prototypeWrites :=
                    prototypeWrites acc ++ [(companyName, timeRange, content)] |}
          else if JsMap.has companyName (repoData acc) then
            let* content := getData entry in
            Ok {| repoData :=
                    JsMap.alter (JsMap.set timeRange content) companyName (repoData acc);
                  prototypeWrites := prototypeWrites acc |}
          else
            match inherited (prototypeWrites acc) companyName with
            | Some (String c value) =>
                let* content := getData entry in
                Err (cannotCreateProperty timeRange (String c value))
            | _ =>
                let* content := getData entry in
                Ok {| repoData :=
                        JsMap.alter (JsMap.set timeRange content) companyName
                          (JsMap.set companyName [] (repoData acc));
                      prototypeWrites := prototypeWrites acc |}
            end
      end.

Definition load (entries : list ZipEntry) : result Loaded :=
  foldM loadEntry nothingLoaded entries.

(** [fetchRepository()]: every error is thrown again with the prefix. *)
Definition fetchRepository (download : result (list ZipEntry))
    : result (JsMap.t (JsMap.t string)) :=
  let attempt :=
    let* entries := download in
    let* loaded := load entries in
    if (JsMap.size (repoData loaded) =? 0)%nat
    then Err "No company data found in repository. Check file structure."
    else Ok (repoData loaded) in
  match attempt with
  | Ok data => Ok data
  | Err message => Err (String.append "GitHub fetch failed: " message)
  end.

(** The labels of the table. *)
Definition labels : list string := ["30-days"; "90-days"; "180-days"; "all-time"].

(** The directory and the label under which an entry is kept, if it is:
    a file whose name ends in [.csv], at least two directories deep, with
    a file name of the table. *)
Definition target (entry : ZipEntry) : option (string * string) :=
  if isDirectory entry then None
  else if negb (endsWith (entryName entry) ".csv") then None
  else
    let parts := split (entryName entry) in
    if (List.length parts <? 3)%nat then None
    else
      match JsObject.assoc (nth (List.length parts - 1) parts EmptyString) fileMapping with
      | None => None
      | Some timeRange => Some (nth (List.length parts - 2) parts EmptyString, timeRange)
      end.

(** The content of the last entry of the archive that is kept for the
    directory under the label. *)
Fixpoint written (entries : list ZipEntry) (companyName timeRange : string)
    : option (result string) :=
  match entries with
  | [] => None
  | entry :: rest =>
      match written rest companyName timeRange with
      | Some content => Some content
      | None =>
          if bool_decide (target entry = Some (companyName, timeRange))
          then Some (getData entry) else None
      end
  end.

(** Every entry that is kept can be read. *)
Definition readable (entries : list ZipEntry) : Prop :=
  forall entry, entry ∈ entries -> target entry <> None ->
    exists content, getData entry = Ok content.

(** No entry is kept for a directory [__proto__], so that
    [Object.prototype] is left with its standard members. *)
Definition pristine (entries : list ZipEntry) : Prop :=
  forall entry timeRange, entry ∈ entries ->
    target entry <> Some ("__proto__", timeRange).

(** What every state of [repoData] satisfies: no name twice, no member of
    [Object.prototype] as a name, and under every name at least one label,
    no label twice, every label one of the four. *)
Definition wellFormed (data : JsMap.t (JsMap.t string)) : Prop :=
  NoDup (map fst data) /\
  forall companyName files, (companyName, files) ∈ data ->
    (companyName ∉ JsObject.prototypeMembers) /\
    files <> [] /\
    NoDup (map fst files) /\
    forall timeRange, timeRange ∈ map fst files -> timeRange ∈ labels.

End GitHubFetcher.

Module Archive.

(** An archive of one company with the two files that stand for
    [all-time], and a file that is not in the table. *)
Definition sample : list GitHubFetcher.ZipEntry :=
  [ {| GitHubFetcher.isDirectory := true;
       GitHubFetcher.entryName := "repo-main/Acme/";
       GitHubFetcher.getData := Ok EmptyString |};
    {| GitHubFetcher.isDirectory := false;
       GitHubFetcher.entryName := "repo-main/Acme/4. More Than Six Months.csv";
       GitHubFetcher.getData := Ok "older" |};
    {| GitHubFetcher.isDirectory := false;
       GitHubFetcher.entryName := "repo-main/Acme/5. All.csv";
       GitHubFetcher.getData := Ok "all" |};
    {| GitHubFetcher.isDirectory := false;
       GitHubFetcher.entryName := "repo-main/README.csv";
       GitHubFetcher.getData := Ok "readme" |} ].

(** A parser that reads every file as one row, and the rebuild of the
    empty service from the archive with it. *)
Definition parseInt (value : CSVParser.cell unit) : option Z := None.

Definition papaParse (csvContent : string) : result (list (CSVParser.Row unit)) :=
  Ok [[("title", CSVParser.CellString "Two Sum")]].

Definition rebuild : result unit * DataService.State :=
  DataService.updateData (GitHubFetcher.fetchRepository (Ok sample))
    (fun r => Ok (CSVParser.parseAllCSVs unit parseInt papaParse r))
    "2026-01-01T02:00:00.000Z" DataService.initial.

Definition twoSum : DataService.ProblemData :=
  {| DataService.problem := "Two Sum"; DataService.slug := "two-sum";
     DataService.companies := [Sample.company "Acme" 1 {["all-time"]} "all-time"] |}.

End Archive.

(** ** [class Logger] *)

Module Logger.

Inductive Method : Type := ERROR | WARN | INFO | DEBUG.

Definition LOG_LEVELS : list (string * Z) :=
  [("ERROR", 0%Z); ("WARN", 1%Z); ("INFO", 2%Z); ("DEBUG", 3%Z)].

Definition methodName (m : Method) : string :=
  match m with
  | ERROR => "ERROR"
  | WARN => "WARN"
  | INFO => "INFO"
  | DEBUG => "DEBUG"
  end.

(** [LOG_LEVELS.ERROR] and the like. *)
Definition methodLevel (m : Method) : Z :=
  match m with
  | ERROR => 0%Z
  | WARN => 1%Z
  | INFO => 2%Z
  | DEBUG => 3%Z
  end.

(** [LOG_LEVELS[process.env.LOG_LEVEL || 'INFO']]; the variable is [None]
    when it is not set. *)
Definition level (LOG_LEVEL : option string) : JsObject.lookup Z :=
  JsObject.get LOG_LEVELS
    (match LOG_LEVEL with
     | Some s => if bool_decide (s = EmptyString) then "INFO" else s
     | None => "INFO"
     end).

(** [this.level >= LOG_LEVELS.X]: [undefined] and the members of
    [Object.prototype] compare as [NaN]. *)
Definition enabled (LOG_LEVEL : option string) (m : Method) : bool :=
  match level LOG_LEVEL with
  | JsObject.Own n => (n >=? methodLevel m)%Z
  | _ => false
  end.

(** [args.join(' ')] *)
Fixpoint join (args : list string) : string :=
  match args with
  | [] => EmptyString
  | [a] => a
  | a :: rest => String.append a (String.append " " (join rest))
  end.

(** [formatMessage(level, ...args)] at the time [timestamp]. *)
Definition formatMessage (timestamp : string) (levelName : string)
    (args : list string) : string :=
  String.append "["
    (String.append timestamp
       (String.append "] ["
          (String.append levelName (String.append "] " (join args))))).

Inductive Console : Type := ConsoleError | ConsoleWarn | ConsoleLog.

Definition console (m : Method) : Console :=
  match m with
  | ERROR => ConsoleError
  | WARN => ConsoleWarn
  | INFO | DEBUG => ConsoleLog
  end.

(** [error(...args)], [warn(...args)], [info(...args)], [debug(...args)]:
    the line written, if any, and where. *)
Definition log (LOG_LEVEL : option string) (timestamp : string) (m : Method)
    (args : list string) : option (Console * string) :=
  if enabled LOG_LEVEL m
  then Some (console m, formatMessage timestamp (methodName m) args)
  else None.

End Logger.

(** * Properties *)

(** ** Sample runs *)

Example titleToSlug_two_sum : Normalizer.titleToSlug "Two Sum" = "two-sum".
Proof. vm_compute. reflexivity. Qed.

Example titleToSlug_spaces : Normalizer.titleToSlug "  two   sum " = "two-sum".
Proof. vm_compute. reflexivity. Qed.

Example titleToSlug_punct :
  Normalizer.titleToSlug ". - 3Sum (Closest)! -" = "3sum-closest".
Proof. vm_compute. reflexivity. Qed.

Example normalizeTitle_two_sum : Normalizer.normalizeTitle " Two   SUM" = "two sum".
Proof. vm_compute. reflexivity. Qed.


Example sample_build :
  DataService.problemMap (Sample.built Sample.acmeBeta) =
  [("two-sum",
    {| DataService.problem := "Two Sum"; DataService.slug := "two-sum";
       DataService.companies :=
         [ {| DataService.name := "Acme"; DataService.frequency := 5;
              DataService.timeRanges := {["30-days"]};
              DataService.last_seen := Some "30-days" |};
           {| DataService.name := "Beta"; DataService.frequency := 2;
              DataService.timeRanges := {["90-days"]};
              DataService.last_seen := Some "90-days" |} ] |})].
Proof. vm_compute. reflexivity. Qed.

Example sample_query_30 :
  DataService.queryBySlug (Sample.built Sample.acmeBeta) "two-sum" (Some "30") =
  Ok (Some (DataService.Filtered "Two Sum" "two-sum"
    [ {| DataService.View.name := "Acme"; DataService.View.frequency := 5;
         DataService.View.last_seen := Some "30-days" |} ])).
Proof. vm_compute. reflexivity. Qed.

Example sample_search :
  DataService.searchProblems (Sample.built Sample.acmeBeta) "sum" (Some 10%Z) =
  [ {| DataService.Hit.problem := "Two Sum"; DataService.Hit.slug := "two-sum";
       DataService.Hit.companyCount := 2 |} ].
Proof. vm_compute. reflexivity. Qed.

(** ** Characters and their classes *)

Ltac each_char c :=
  destruct c as [[] [] [] [] [] [] [] []]; vm_compute;
  first [reflexivity | discriminate | congruence | tauto].

Lemma is_hyphen_eq c : Char.is_hyphen c = true -> c = Char.hyphen.
Proof. each_char c. Qed.

Lemma lower_special c :
  Char.is_special c = true -> Char.is_special (Char.toLowerCase c) = true.
Proof. each_char c. Qed.

Lemma lower_space c :
  Char.is_space c = true -> Char.is_space (Char.toLowerCase c) = true.
Proof. each_char c. Qed.

Lemma space_not_special c : Char.is_space c = true -> Char.is_special c = false.
Proof. each_char c. Qed.

Lemma space_separator c : Char.is_space c = true -> Title.is_separator c = true.
Proof. unfold Title.is_separator. intros ->. reflexivity. Qed.

Lemma hyphen_separator c : Char.is_hyphen c = true -> Title.is_separator c = true.
Proof. unfold Title.is_separator. intros ->. apply orb_true_r. Qed.

Lemma separator_not_special c :
  Title.is_separator c = true -> Char.is_special c = false.
Proof. each_char c. Qed.

Lemma word_not_special c : Char.is_word c = true -> Char.is_special c = false.
Proof. each_char c. Qed.

Lemma word_not_separator c : Char.is_word c = true -> Title.is_separator c = false.
Proof. each_char c. Qed.

Lemma word_not_hyphen c : Char.is_word c = true -> Char.is_hyphen c = false.
Proof. each_char c. Qed.

Lemma plain_is_word c :
  Char.is_special c = false -> Title.is_separator c = false -> Char.is_word c = true.
Proof. each_char c. Qed.

(** ** [titleToSlug] reads the words of a title *)

Lemma afterSeparator_idem ph :
  Title.afterSeparator (Title.afterSeparator ph) = Title.afterSeparator ph.
Proof. destruct ph; reflexivity. Qed.

Lemma words_special_cons ph c r :
  Char.is_special c = true -> Title.words ph (c :: r) = Title.words ph r.
Proof. intros H. simpl. rewrite H. reflexivity. Qed.

Lemma words_separator_cons ph c r :
  Title.is_separator c = true ->
  Title.words ph (c :: r) = Title.words (Title.afterSeparator ph) r.
Proof.
  intros H. simpl. rewrite (separator_not_special _ H), H. reflexivity.
Qed.

Lemma words_word_cons ph c r :
  Char.is_word c = true ->
  Title.words ph (c :: r) =
  match ph with
  | Title.Pending => Char.hyphen :: c :: Title.words Title.InWord r
  | _ => c :: Title.words Title.InWord r
  end.
Proof.
  intros H. simpl.
  rewrite (word_not_special _ H), (word_not_separator _ H). reflexivity.
Qed.

(** What is read after a common prefix depends on the rest only. *)
Lemma words_prefix x y :
  (forall ph, Title.words ph x = Title.words ph y) ->
  forall a ph, Title.words ph (a ++ x) = Title.words ph (a ++ y).
Proof.
  intros Hxy a. induction a as [|c a IH]; intros ph; simpl.
  - apply Hxy.
  - destruct (Char.is_special c); [apply IH|].
    destruct (Title.is_separator c); [apply IH|].
    destruct ph; rewrite IH; reflexivity.
Qed.

Lemma words_spaces ws :
  Forall (fun c => Char.is_space c = true) ws ->
  forall ph, Title.words ph ws = [].
Proof.
  induction 1 as [|c ws Hc _ IH]; intros ph; [reflexivity|].
  rewrite words_separator_cons by (apply space_separator; exact Hc).
  apply IH.
Qed.

Lemma words_app_spaces a ws ph :
  Forall (fun c => Char.is_space c = true) ws ->
  Title.words ph (a ++ ws) = Title.words ph a.
Proof.
  intros Hws. rewrite <- (app_nil_r a) at 2.
  apply words_prefix. intros ph'. rewrite words_spaces by exact Hws. reflexivity.
Qed.

Lemma words_two_separators ph c1 c2 r :
  Title.is_separator c1 = true -> Title.is_separator c2 = true ->
  Title.words ph (c1 :: c2 :: r) = Title.words ph (c2 :: r) /\
  Title.words ph (c1 :: c2 :: r) = Title.words ph (c1 :: r).
Proof.
  intros H1 H2.
  rewrite !(words_separator_cons _ c1) by exact H1.
  rewrite !(words_separator_cons _ c2) by exact H2.
  rewrite afterSeparator_idem. split; reflexivity.
Qed.

Lemma trimStart_split l :
  exists ws, l = ws ++ Text.trimStart l /\
             Forall (fun c => Char.is_space c = true) ws.
Proof.
  induction l as [|c l [ws [Hl Hws]]]; simpl.
  - exists []. split; [reflexivity | constructor].
  - destruct (Char.is_space c) eqn:Hc.
    + exists (c :: ws). split; [simpl; f_equal; exact Hl | constructor; assumption].
    + exists []. split; [reflexivity | constructor].
Qed.

Lemma trimEnd_split l :
  exists ws, l = Text.trimEnd l ++ ws /\
             Forall (fun c => Char.is_space c = true) ws.
Proof.
  destruct (trimStart_split (rev l)) as [ws [Hl Hws]].
  exists (rev ws). split.
  - unfold Text.trimEnd. rewrite <- rev_app_distr, <- Hl, rev_involutive. reflexivity.
  - apply Forall_rev. exact Hws.
Qed.

Lemma words_trimStart l :
  Title.words Title.Start (Text.trimStart l) = Title.words Title.Start l.
Proof.
  induction l as [|c l IH]; [reflexivity|]. simpl Text.trimStart.
  destruct (Char.is_space c) eqn:Hc; [|reflexivity].
  rewrite (words_separator_cons _ c) by (apply space_separator; exact Hc).
  exact IH.
Qed.

Lemma words_trimEnd ph l :
  Title.words ph (Text.trimEnd l) = Title.words ph l.
Proof.
  destruct (trimEnd_split l) as [ws [Hl Hws]].
  rewrite Hl at 2. symmetry. apply words_app_spaces. exact Hws.
Qed.

Lemma words_trim l :
  Title.words Title.Start (Text.trim l) = Title.words Title.Start l.
Proof. unfold Text.trim. rewrite words_trimEnd. apply words_trimStart. Qed.

Lemma words_removeSpecial l :
  forall ph, Title.words ph (Text.removeSpecial l) = Title.words ph l.
Proof.
  induction l as [|c l IH]; intros ph; [reflexivity|].
  unfold Text.removeSpecial in *. simpl.
  destruct (Char.is_special c) eqn:Hc; simpl; [apply IH|].
  rewrite Hc. destruct (Title.is_separator c); [apply IH|].
  destruct ph; rewrite IH; reflexivity.
Qed.

Lemma words_replaceRuns cls sep :
  (forall c, cls c = true -> Title.is_separator c = true) ->
  Title.is_separator sep = true ->
  forall l ph,
    Title.words ph (Text.replaceRuns cls sep false l) = Title.words ph l /\
    Title.words (Title.afterSeparator ph) (Text.replaceRuns cls sep true l) =
    Title.words (Title.afterSeparator ph) l.
Proof.
  intros Hcls Hsep l. induction l as [|c l IH]; intros ph; [split; reflexivity|].
  simpl Text.replaceRuns. destruct (cls c) eqn:Hc.
  - pose proof (Hcls _ Hc) as Hs.
    rewrite (words_separator_cons _ sep) by exact Hsep.
    rewrite !(words_separator_cons _ c) by exact Hs.
    rewrite afterSeparator_idem. split; apply IH.
  - assert (forall ph', Title.words ph' (c :: Text.replaceRuns cls sep false l) =
                        Title.words ph' (c :: l)) as Hstep.
    { intros ph'. simpl.
      destruct (Char.is_special c); [apply IH|].
      destruct (Title.is_separator c); [apply IH|].
      destruct ph'; rewrite (proj1 (IH _)); reflexivity. }
    split; apply Hstep.
Qed.

Lemma words_dropLeadingHyphen l :
  Title.words Title.Start (Text.dropLeadingHyphen l) = Title.words Title.Start l.
Proof.
  destruct l as [|c l]; [reflexivity|]. simpl Text.dropLeadingHyphen.
  destruct (Char.is_hyphen c) eqn:Hc; [|reflexivity].
  rewrite (words_separator_cons _ c) by (apply hyphen_separator; exact Hc).
  reflexivity.
Qed.

Lemma dropTrailingHyphen_cons c r :
  Text.dropTrailingHyphen (c :: r) =
  match r with
  | [] => if Char.is_hyphen c then [] else [c]
  | _ :: _ => c :: Text.dropTrailingHyphen r
  end.
Proof. destruct r; reflexivity. Qed.

Lemma words_dropTrailingHyphen l :
  forall ph, Title.words ph (Text.dropTrailingHyphen l) = Title.words ph l.
Proof.
  induction l as [|c l IH]; intros ph; [reflexivity|].
  rewrite dropTrailingHyphen_cons. destruct l as [|c' l'].
  - destruct (Char.is_hyphen c) eqn:Hc; [|reflexivity].
    rewrite (words_separator_cons _ c) by (apply hyphen_separator; exact Hc).
    reflexivity.
  - apply (words_prefix _ _ IH [c]).
Qed.

Lemma words_slugChain l :
  Title.words Title.Start (Normalizer.slugChain l) =
  Title.words Title.Start (Text.toLowerCase l).
Proof.
  unfold Normalizer.slugChain, Text.trimHyphens.
  rewrite words_dropTrailingHyphen, words_dropLeadingHyphen.
  rewrite (proj1 (words_replaceRuns Char.is_hyphen Char.hyphen
                    hyphen_separator eq_refl _ _)).
  rewrite (proj1 (words_replaceRuns Char.is_space Char.hyphen
                    space_separator eq_refl _ _)).
  rewrite words_removeSpecial. apply words_trim.
Qed.

(** ** The shape of what [titleToSlug] returns *)

Lemma removeSpecial_plain l :
  Forall (fun c => Char.is_special c = false) (Text.removeSpecial l).
Proof.
  unfold Text.removeSpecial. apply List.Forall_forall. intros c Hc.
  apply List.filter_In in Hc. destruct Hc as [_ Hc].
  apply negb_true_iff. exact Hc.
Qed.

Lemma replaceRuns_space_shape l :
  Forall (fun c => Char.is_special c = false) l ->
  forall b,
    Forall (fun c => Char.is_word c || Char.is_hyphen c = true)
           (Text.replaceRuns Char.is_space Char.hyphen b l).
Proof.
  induction 1 as [|c l Hc _ IH]; intros b; simpl; [constructor|].
  destruct (Char.is_space c) eqn:Hs.
  - destruct b; [apply IH|]. constructor; [reflexivity | apply IH].
  - constructor; [|apply IH].
    destruct (Char.is_hyphen c) eqn:Hh; [apply orb_true_r|].
    rewrite plain_is_word; [reflexivity | exact Hc |].
    unfold Title.is_separator. rewrite Hs, Hh. reflexivity.
Qed.

Lemma replaceRuns_hyphen_shape l :
  Forall (fun c => Char.is_word c || Char.is_hyphen c = true) l ->
  forall b,
    Title.hyphenated b (Text.replaceRuns Char.is_hyphen Char.hyphen b l) = true.
Proof.
  induction 1 as [|c l Hc _ IH]; intros b; simpl; [reflexivity|].
  destruct (Char.is_hyphen c) eqn:Hh.
  - destruct b; [apply IH|]. simpl. apply IH.
  - simpl. rewrite Hh. rewrite orb_false_r in Hc. rewrite Hc. apply IH.
Qed.

Lemma hyphenated_weaken l : Title.hyphenated true l = true -> Title.hyphenated false l = true.
Proof.
  destruct l as [|c l]; [reflexivity|]. simpl.
  destruct (Char.is_hyphen c); [discriminate | tauto].
Qed.

Lemma dropLeadingHyphen_shape l :
  Title.hyphenated false l = true ->
  Title.hyphenated true (Text.dropLeadingHyphen l) = true.
Proof.
  destruct l as [|c l]; [reflexivity|]. simpl.
  destruct (Char.is_hyphen c) eqn:Hh; simpl; [tauto|].
  rewrite Hh. tauto.
Qed.

Lemma dropTrailingHyphen_word c r :
  Char.is_hyphen c = false ->
  Text.dropTrailingHyphen (c :: r) = c :: Text.dropTrailingHyphen r.
Proof. intros H. rewrite dropTrailingHyphen_cons. destruct r; [rewrite H|]; reflexivity. Qed.

(** On a hyphenated list without its last hyphen, reading the words gives
    the list back. *)
Lemma words_hyphenated l :
  (Title.hyphenated true l = true ->
     Title.words Title.Start (Text.dropTrailingHyphen l) = Text.dropTrailingHyphen l /\
     Title.words Title.Pending (Text.dropTrailingHyphen l) =
       match l with
       | [] => []
       | _ :: _ => Char.hyphen :: Text.dropTrailingHyphen l
       end) /\
  (Title.hyphenated false l = true ->
     Title.words Title.InWord (Text.dropTrailingHyphen l) = Text.dropTrailingHyphen l).
Proof.
  induction l as [|c l [IH1 IH2]]; [split; [split|]; reflexivity|].
  assert (Char.is_word c = true -> Title.hyphenated false l = true ->
          forall ph, Title.words ph (Text.dropTrailingHyphen (c :: l)) =
                     match ph with
                     | Title.Pending => Char.hyphen :: Text.dropTrailingHyphen (c :: l)
                     | _ => Text.dropTrailingHyphen (c :: l)
                     end) as Hword.
  { intros Hw Hl ph.
    rewrite dropTrailingHyphen_word by (apply word_not_hyphen; exact Hw).
    rewrite words_word_cons by exact Hw. rewrite (IH2 Hl).
    destruct ph; reflexivity. }
  simpl Title.hyphenated. split.
  - destruct (Char.is_hyphen c) eqn:Hh; [discriminate|].
    intros H. apply andb_true_iff in H. destruct H as [Hw Hl].
    split; [apply (Hword Hw Hl Title.Start) | apply (Hword Hw Hl Title.Pending)].
  - destruct (Char.is_hyphen c) eqn:Hh.
    + intros Hl.
      rewrite dropTrailingHyphen_cons. destruct l as [|c' l']; [rewrite Hh; reflexivity|].
      rewrite words_separator_cons by (apply hyphen_separator; exact Hh).
      simpl Title.afterSeparator. rewrite (proj2 (IH1 Hl)).
      rewrite (is_hyphen_eq _ Hh). reflexivity.
    + intros H. apply andb_true_iff in H. destruct H as [Hw Hl].
      apply (Hword Hw Hl Title.InWord).
Qed.

(** [titleToSlug] returns the words of the lower-cased title, joined by
    single hyphens. *)
Lemma slugChain_words l :
  Normalizer.slugChain l = Title.words Title.Start (Text.toLowerCase l).
Proof.
  rewrite <- words_slugChain.
  unfold Normalizer.slugChain, Text.trimHyphens. symmetry.
  apply words_hyphenated, dropLeadingHyphen_shape, replaceRuns_hyphen_shape,
    replaceRuns_space_shape, removeSpecial_plain.
Qed.

Lemma titleToSlug_chain t :
  Normalizer.titleToSlug t = Normalizer.str (Normalizer.slugChain (Normalizer.chars t)).
Proof.
  unfold Normalizer.titleToSlug. case_bool_decide as Ht; [|reflexivity].
  subst t. reflexivity.
Qed.

Lemma words_differ1 t1 t2 :
  Title.differ1 t1 t2 ->
  Title.words Title.Start (Text.toLowerCase t1) =
  Title.words Title.Start (Text.toLowerCase t2).
Proof.
  unfold Text.toLowerCase.
  destruct 1 as [l c c' r Hc | l c r Hc | c t Hc | c t Hc
                | l c1 c2 r H1 H2 | l c1 c2 r H1 H2];
    rewrite ?map_app; simpl map.
  - rewrite Hc. reflexivity.
  - apply words_prefix. intros ph.
    apply words_special_cons, lower_special, Hc.
  - rewrite words_separator_cons by (apply space_separator, lower_space, Hc).
    reflexivity.
  - apply words_app_spaces. constructor; [apply lower_space, Hc | constructor].
  - apply words_prefix. intros ph.
    apply words_two_separators; apply space_separator, lower_space; assumption.
  - apply words_prefix. intros ph.
    apply words_two_separators; apply space_separator, lower_space; assumption.
Qed.

Lemma slugChain_variants t1 t2 :
  Title.variants t1 t2 -> Normalizer.slugChain t1 = Normalizer.slugChain t2.
Proof.
  induction 1 as [t | t1 t2 H | t1 t2 _ IH | t1 t2 t3 _ IH1 _ IH2].
  - reflexivity.
  - rewrite !slugChain_words. apply words_differ1. exact H.
  - symmetry. exact IH.
  - rewrite IH1. exact IH2.
Qed.

(** C4 (amended): two titles that differ only in case, in characters that
    are neither word characters (letters, digits, underscore) nor white
    space nor hyphens, in white space at either end, or in the length of
    runs of white space inside, have the same identity key. *)
Theorem titleToSlug_variants (t1 t2 : string) :
  Title.variants (Normalizer.chars t1) (Normalizer.chars t2) ->
  Normalizer.titleToSlug t1 = Normalizer.titleToSlug t2.
Proof.
  intros H. rewrite !titleToSlug_chain. f_equal. apply slugChain_variants. exact H.
Qed.

(** C4 as stated fails for the two punctuation characters that
    [titleToSlug] keeps: a hyphen and an underscore. *)
Lemma titleToSlug_punctuation_kept :
  Normalizer.titleToSlug "two-sum" <> Normalizer.titleToSlug "twosum" /\
  Normalizer.titleToSlug "two_sum" <> Normalizer.titleToSlug "twosum".
Proof. split; vm_compute; discriminate. Qed.


(** ** Recency windows *)

Lemma assoc_not_in {V} (k : string) (own : list (string * V)) :
  k ∉ map fst own -> JsObject.assoc k own = None.
Proof.
  induction own as [|[k' v] own IH]; intros H; [reflexivity|]. simpl.
  rewrite bool_decide_eq_false_2 by (intros ->; apply H; left).
  apply IH. intros Hin. apply H. right. exact Hin.
Qed.

(** C8: the cumulative hierarchy of windows.  [30-days] includes itself
    only, [60-days] and [90-days] include themselves and the tighter
    windows, and [all] or a token without an entry in the tables includes
    the four windows in the fixed order, without an error. *)
Theorem windowsIncludedFor_hierarchy :
  Recency.windowsIncludedFor "30-days" = DataService.Ranges ["30-days"] /\
  Recency.windowsIncludedFor "60-days" = DataService.Ranges ["30-days"; "60-days"] /\
  Recency.windowsIncludedFor "90-days" =
    DataService.Ranges ["30-days"; "60-days"; "90-days"] /\
  Recency.windowsIncludedFor "all" =
    DataService.Ranges ["30-days"; "60-days"; "90-days"; "all-time"] /\
  (forall token : string,
     token ∉ Recency.recognized ->
     Recency.windowsIncludedFor token =
       DataService.Ranges ["30-days"; "60-days"; "90-days"; "all-time"]).
Proof.
  repeat (split; [vm_compute; reflexivity|]).
  intros token H.
  unfold Recency.windowsIncludedFor, DataService.targetRange, JsObject.get.
  rewrite assoc_not_in
    by (intros Hin; apply H; revert Hin; vm_compute map;
        unfold Recency.recognized; rewrite !elem_of_cons; tauto).
  case_bool_decide as Hm; [reflexivity|].
  unfold DataService.getIncludedRanges, JsObject.get.
  rewrite assoc_not_in
    by (intros Hin; apply H; revert Hin; vm_compute map;
        unfold Recency.recognized; rewrite !elem_of_cons; tauto).
  rewrite bool_decide_eq_false_2 by exact Hm. reflexivity.
Qed.

(** The numeric tokens of the service stand for the named windows. *)
Lemma windowsIncludedFor_numeric :
  Recency.windowsIncludedFor "30" = Recency.windowsIncludedFor "30-days" /\
  Recency.windowsIncludedFor "60" = Recency.windowsIncludedFor "60-days" /\
  Recency.windowsIncludedFor "90" = Recency.windowsIncludedFor "90-days" /\
  Recency.windowsIncludedFor "all-time" = Recency.windowsIncludedFor "all".
Proof. repeat split; vm_compute; reflexivity. Qed.

(** Whatever the token, the lookup made by [filterByTimeRange] yields a
    list of windows, all of them among the four of the fixed order. *)
Lemma windowsIncludedFor_ranges (token : string) :
  exists windows,
    Recency.windowsIncludedFor token = DataService.Ranges windows /\
    windows ⊆ DataService.order.
Proof.
  assert (forall l : list string,
            bool_decide (l ⊆ DataService.order) = true ->
            exists windows, DataService.Ranges l = DataService.Ranges windows /\
                            windows ⊆ DataService.order) as Hsub.
  { intros l Hl. exists l. split; [reflexivity|].
    apply bool_decide_eq_true in Hl. exact Hl. }
  unfold Recency.windowsIncludedFor, DataService.targetRange, JsObject.get.
  destruct (JsObject.assoc token DataService.rangeMap) as [v|] eqn:Hv.
  - simpl in Hv.
    repeat (case_bool_decide;
            [injection Hv as <-; apply Hsub; vm_compute; reflexivity|]).
    discriminate.
  - case_bool_decide as Hm; [apply Hsub; vm_compute; reflexivity|].
    unfold DataService.getIncludedRanges, JsObject.get.
    destruct (JsObject.assoc token DataService.rangeHierarchy) as [l|] eqn:Hl.
    + simpl in Hl.
      repeat (case_bool_decide;
              [injection Hl as <-; apply Hsub; vm_compute; reflexivity|]).
      discriminate.
    + rewrite bool_decide_eq_false_2 by exact Hm.
      apply Hsub; vm_compute; reflexivity.
Qed.

(** ** Windowed lookups *)

Lemma filterM_total {A} (p : A -> result bool) (q : A -> bool) (l : list A) :
  (forall x, p x = Ok (q x)) -> DataService.filterM p l = Ok (List.filter q l).
Proof.
  intros H. induction l as [|x l IH]; [reflexivity|].
  simpl. rewrite H, IH. simpl. reflexivity.
Qed.


Lemma some_intersects (seen : gset string) (windows : list string) :
  existsb (fun range => bool_decide (range ∈ seen)) windows =
  bool_decide (Recency.intersects seen windows).
Proof.
  unfold Recency.intersects.
  destruct (existsb _ windows) eqn:He; symmetry.
  - apply bool_decide_eq_true. apply existsb_exists in He.
    destruct He as [w [Hw Hs]]. apply bool_decide_eq_true in Hs.
    apply list_elem_of_In in Hw.
    intros Hempty. assert (w ∈ seen ∩ list_to_set windows) as Hin by set_solver.
    rewrite Hempty in Hin. set_solver.
  - apply bool_decide_eq_false. intros Hne. apply set_choose_L in Hne.
    destruct Hne as [w Hw]. apply elem_of_intersection in Hw. destruct Hw as [Hs Hw].
    apply elem_of_list_to_set in Hw.
    assert (existsb (fun range => bool_decide (range ∈ seen)) windows = true) as Ht.
    { apply existsb_exists. exists w. split; [apply list_elem_of_In; exact Hw|].
      apply bool_decide_eq_true. exact Hs. }
    congruence.
Qed.


(** Without a window the whole entry is returned. *)
Lemma filterByTimeRange_none (problemData : DataService.ProblemData) :
  DataService.filterByTimeRange problemData None = Ok (DataService.FullClone problemData).
Proof. reflexivity. Qed.

(** ** The label [180-days] *)

(** A company seen under [180-days] only has [all-time] as [last_seen] and
    is in no windowed answer, whatever the token. *)
Lemma six_months_only (W : string) (windows : list string) :
  DataService.getShortestRange {["180-days"]} = "all-time" /\
  (Recency.windowsIncludedFor W = DataService.Ranges windows ->
   ~ Recency.intersects {["180-days"]} windows).
Proof.
  split; [vm_compute; reflexivity|].
  intros Hw. destruct (windowsIncludedFor_ranges W) as [windows' [Hw' Hsub]].
  rewrite Hw in Hw'. injection Hw' as <-.
  unfold Recency.intersects. intros Hne. apply Hne.
  apply set_eq. intros w. split; [|set_solver].
  intros Hin. apply elem_of_intersection in Hin. destruct Hin as [H1 H2].
  apply elem_of_singleton in H1. subst w.
  apply elem_of_list_to_set in H2. apply Hsub in H2.
  unfold DataService.order in H2. rewrite !elem_of_cons in H2.
  rewrite elem_of_nil in H2.
  destruct H2 as [H2|[H2|[H2|[H2|[]]]]]; discriminate.
Qed.

(** C5, at the input where the code departs from it: the company is seen
    under [180-days] only; its [last_seen] is [all-time], and the queries
    for the broadest window ([all]) and for [180] leave it out.  Only the
    lookup without a window returns it. *)
Theorem six_months_left_out_of_all :
  DataService.problemMap Sample.sixMonthsState = [("two-sum", Sample.sixMonthsEntry)] /\
  DataService.queryBySlug Sample.sixMonthsState "two-sum" (Some "all") =
    Ok (Some (DataService.Filtered "Two Sum" "two-sum" [])) /\
  DataService.queryBySlug Sample.sixMonthsState "two-sum" (Some "180") =
    Ok (Some (DataService.Filtered "Two Sum" "two-sum" [])) /\
  DataService.queryBySlug Sample.sixMonthsState "two-sum" None =
    Ok (Some (DataService.FullClone Sample.sixMonthsEntry)).
Proof. repeat split; vm_compute; reflexivity. Qed.


(** ** Rebuilds *)

(** [buildProblemIndex] fails exactly when the loops fail, and then before
    any assignment to the state. *)
Lemma buildProblemIndex_outcome (parsedData : Parsed.ParsedData) (st : DataService.State) :
  match DataService.buildLocals parsedData with
  | Ok acc =>
      DataService.buildProblemIndex parsedData st =
      (Ok tt,
       {| DataService.problemMap := DataService.l_problemMap acc;
          DataService.titleMap := DataService.l_titleMap acc;
          DataService.lastUpdated := DataService.lastUpdated st;
          DataService.totalProblems := JsMap.size (DataService.l_problemMap acc);
          DataService.totalCompanies := size (DataService.l_companiesSet acc) |})
  | Err e => DataService.buildProblemIndex parsedData st = (Err e, st)
  end.
Proof.
  unfold DataService.buildProblemIndex, DataService.seq, DataService.lift.
  destruct (DataService.buildLocals parsedData); reflexivity.
Qed.

(** C1 (amended): on a mapping without companies [buildProblemIndex] does
    not fail; it returns and installs an empty snapshot, with no problem
    and no company, in place of the one before: afterwards no lookup finds
    a problem and no search has a match, whatever the state was. *)
Theorem buildProblemIndex_empty (st : DataService.State) :
  DataService.buildProblemIndex [] st =
    (Ok tt,
     {| DataService.problemMap := [];
        DataService.titleMap := ∅;
        DataService.lastUpdated := DataService.lastUpdated st;
        DataService.totalProblems := 0;
        DataService.totalCompanies := 0 |}) /\
  (forall slug timeRange,
     DataService.queryBySlug (snd (DataService.buildProblemIndex [] st)) slug timeRange =
     Ok None) /\
  (forall title timeRange,
     DataService.queryByTitle (snd (DataService.buildProblemIndex [] st)) title timeRange =
     Ok None) /\
  (forall query limit,
     DataService.searchProblems (snd (DataService.buildProblemIndex [] st)) query limit =
     []).
Proof.
  assert (DataService.buildLocals [] = Ok DataService.emptyLocals) as Hl by reflexivity.
  pose proof (buildProblemIndex_outcome [] st) as Ho. rewrite Hl in Ho.
  rewrite Ho. simpl. split; [reflexivity|]. split; [|split].
  - intros slug timeRange. reflexivity.
  - intros title timeRange. unfold DataService.queryByTitle. simpl.
    rewrite lookup_empty. reflexivity.
  - intros query limit. reflexivity.
Qed.

(** C1 as stated fails: after a build of the sample data, a build of the
    empty mapping succeeds and the snapshot with one problem is gone. *)
Lemma empty_build_replaces_snapshot :
  DataService.totalProblems Sample.acmeBetaState = 1 /\
  fst (DataService.buildProblemIndex [] Sample.acmeBetaState) = Ok tt /\
  DataService.getStatus (snd (DataService.buildProblemIndex [] Sample.acmeBetaState)) =
    (None, 0, 0).
Proof. repeat split; vm_compute; reflexivity. Qed.

(** A failed rebuild failed in one of its three stages. *)
Lemma updateData_failure_stage {RepoData : Type}
    (fetchRepository : result RepoData)
    (parseAllCSVs : RepoData -> result Parsed.ParsedData)
    (now : string) (st st' : DataService.State) (e : string) :
  DataService.updateData fetchRepository parseAllCSVs now st = (Err e, st') ->
  fetchRepository = Err e \/
  (exists repoData, fetchRepository = Ok repoData /\ parseAllCSVs repoData = Err e) \/
  (exists repoData parsedData,
     fetchRepository = Ok repoData /\ parseAllCSVs repoData = Ok parsedData /\
     DataService.buildLocals parsedData = Err e).
Proof.
  unfold DataService.updateData, DataService.tryCatch, DataService.seq at 1 2 3,
    DataService.lift, DataService.throw.
  destruct fetchRepository as [repoData|e1]; [|intros [= -> _]; left; reflexivity].
  destruct (parseAllCSVs repoData) as [parsedData|e2] eqn:Hp;
    [|intros [= -> _]; right; left; exists repoData; split; [reflexivity | exact Hp]].
  pose proof (buildProblemIndex_outcome parsedData st) as Hb.
  destruct (DataService.buildLocals parsedData) as [acc|e3] eqn:Hl; rewrite Hb.
  - discriminate.
  - intros [= -> _]. right; right. exists repoData, parsedData.
    repeat split; [exact Hp | exact Hl].
Qed.

(** C2: a rebuild that fails, in the fetch, in the parse or in the build,
    leaves the state as it was: problem index, title lookup and counts, so
    that [getStatus] answers as before. *)
Theorem updateData_failure_keeps_snapshot {RepoData : Type}
    (fetchRepository : result RepoData)
    (parseAllCSVs : RepoData -> result Parsed.ParsedData)
    (now : string) (st st' : DataService.State) (e : string) :
  DataService.updateData fetchRepository parseAllCSVs now st = (Err e, st') ->
  st' = st /\ DataService.getStatus st' = DataService.getStatus st.
Proof.
  unfold DataService.updateData, DataService.tryCatch, DataService.seq at 1 2 3,
    DataService.lift, DataService.throw.
  assert (forall x, x = st -> x = st /\ DataService.getStatus x = DataService.getStatus st)
    as Hsame by (intros x ->; split; reflexivity).
  destruct fetchRepository as [repoData|e1]; [|intros [= _ <-]; apply Hsame; reflexivity].
  destruct (parseAllCSVs repoData) as [parsedData|e2];
    [|intros [= _ <-]; apply Hsame; reflexivity].
  pose proof (buildProblemIndex_outcome parsedData st) as Hb.
  destruct (DataService.buildLocals parsedData) as [acc|e3]; rewrite Hb.
  - discriminate.
  - intros [= _ <-]. apply Hsame; reflexivity.
Qed.

(** A rebuild whose three stages succeed installs the new snapshot and the
    time of the rebuild. *)
Lemma updateData_success {RepoData : Type}
    (fetchRepository : result RepoData)
    (parseAllCSVs : RepoData -> result Parsed.ParsedData)
    (now : string) (st : DataService.State) repoData parsedData acc :
  fetchRepository = Ok repoData ->
  parseAllCSVs repoData = Ok parsedData ->
  DataService.buildLocals parsedData = Ok acc ->
  DataService.updateData fetchRepository parseAllCSVs now st =
  (Ok tt,
   {| DataService.problemMap := DataService.l_problemMap acc;
      DataService.titleMap := DataService.l_titleMap acc;
      DataService.lastUpdated := Some now;
      DataService.totalProblems := JsMap.size (DataService.l_problemMap acc);
      DataService.totalCompanies := size (DataService.l_companiesSet acc) |}).
Proof.
  intros Hf Hp Hb.
  unfold DataService.updateData, DataService.tryCatch, DataService.seq at 1 2 3,
    DataService.lift.
  rewrite Hf, Hp.
  pose proof (buildProblemIndex_outcome parsedData st) as Ho. rewrite Hb in Ho.
  rewrite Ho. reflexivity.
Qed.


(** ** Search *)

Lemma chars_str l : Normalizer.chars (Normalizer.str l) = l.
Proof. apply list_ascii_of_string_of_list_ascii. Qed.

Lemma startsWith_spec q s :
  Text.startsWith q s = true <-> exists b, s = q ++ b.
Proof.
  revert s. induction q as [|a q IH]; intros s; simpl.
  - split; [intros _; exists s; reflexivity | reflexivity].
  - destruct s as [|c s].
    + split; [discriminate | intros [b Hb]; discriminate].
    + rewrite andb_true_iff, bool_decide_eq_true, IH. split.
      * intros [-> [b ->]]. exists b. reflexivity.
      * intros [b [= -> ->]]. split; [reflexivity | exists b; reflexivity].
Qed.

Lemma includes_spec s q :
  Text.includes s q = true <-> exists a b, s = a ++ q ++ b.
Proof.
  induction s as [|c s IH]; simpl; rewrite orb_true_iff, startsWith_spec.
  - split.
    + intros [[b Hb] | H]; [exists [], b; exact Hb | discriminate].
    + intros [a [b H]]. left. destruct a; [exists b; exact H | discriminate].
  - rewrite IH. split.
    + intros [[b Hb] | [a [b Hab]]].
      * exists [], b. exact Hb.
      * exists (c :: a), b. simpl. rewrite Hab. reflexivity.
    + intros [a [b H]]. destruct a as [|c' a].
      * left. exists b. exact H.
      * right. injection H as _ H. exists a, b. exact H.
Qed.

Lemma includes_isSubstring s q :
  Normalizer.includes s q = true <-> Matching.isSubstring q s.
Proof. apply includes_spec. Qed.

Lemma matches_spec nq e :
  DataService.matches nq e = true <->
  Matching.isSubstring nq (Normalizer.toLowerCase (DataService.problem (snd e))) \/
  Matching.isSubstring nq (fst e).
Proof.
  unfold DataService.matches. rewrite orb_true_iff, !includes_isSubstring. reflexivity.
Qed.

(** The loop collects the matches in the order of the index until the
    array holds [limit] of them. *)
Lemma searchLoop_take nq limit entries :
  (1 <= limit)%Z ->
  forall results,
    (Z.of_nat (List.length results) < limit)%Z ->
    DataService.searchLoop nq limit entries results =
    take (Z.to_nat limit)
         (results ++ map (fun e => DataService.hit (snd e))
                         (List.filter (DataService.matches nq) entries)).
Proof.
  intros Hlimit. induction entries as [|e entries IH]; intros results Hlen; simpl.
  - rewrite app_nil_r. symmetry. apply take_ge. lia.
  - destruct (DataService.matches nq e); [|apply IH; exact Hlen].
    rewrite List.length_app. simpl List.length.
    destruct (Z.geb_spec (Z.of_nat (List.length results + 1)) limit) as [Hge|Hlt].
    + simpl map. symmetry. rewrite cons_middle, app_assoc.
      apply take_app_length'. rewrite List.length_app. simpl. lia.
    + rewrite IH by (rewrite List.length_app; simpl; lia).
      rewrite <- app_assoc. reflexivity.
Qed.

Lemma searchProblems_take (st : DataService.State) (query : string) (limit : Z) :
  (1 <= limit)%Z ->
  DataService.searchProblems st query (Some limit) =
  take (Z.to_nat limit)
       (map (fun e => DataService.hit (snd e))
            (List.filter
               (DataService.matches (Normalizer.trim (Normalizer.toLowerCase query)))
               (DataService.problemMap st))).
Proof.
  intros Hlimit. unfold DataService.searchProblems. simpl default.
  rewrite searchLoop_take by (simpl; lia). reflexivity.
Qed.

Lemma filter_none {A} (p : A -> bool) (l : list A) :
  (forall x, x ∈ l -> p x = false) -> List.filter p l = [].
Proof.
  induction l as [|x l IH]; intros H; [reflexivity|]. simpl.
  rewrite (H x) by apply list_elem_of_here.
  apply IH. intros y Hy. apply H. apply list_elem_of_further. exact Hy.
Qed.

Lemma filter_all {A} (p : A -> bool) (l : list A) :
  (forall x, p x = true) -> List.filter p l = l.
Proof.
  intros H. induction l as [|x l IH]; [reflexivity|]. simpl. rewrite H, IH. reflexivity.
Qed.

(** C6 (amended): for a limit of at least 1, [searchProblems] lower-cases
    and trims the query (runs of white space inside are kept), scans the
    index in its order, takes a problem exactly when the query so prepared
    occurs in the lower-cased display title or in the identity key, stops
    at [limit] matches, and returns the empty list when nothing matches. *)
Theorem searchProblems_matches (st : DataService.State) (query : string) (limit : Z) :
  (1 <= limit)%Z ->
  let nq := Normalizer.trim (Normalizer.toLowerCase query) in
  DataService.searchProblems st query (Some limit) =
    take (Z.to_nat limit)
         (map (fun e => DataService.hit (snd e))
              (List.filter (DataService.matches nq) (DataService.problemMap st))) /\
  (forall e,
     DataService.matches nq e = true <->
     Matching.isSubstring nq (Normalizer.toLowerCase (DataService.problem (snd e))) \/
     Matching.isSubstring nq (fst e)) /\
  ((forall e, e ∈ DataService.problemMap st -> DataService.matches nq e = false) ->
   DataService.searchProblems st query (Some limit) = []).
Proof.
  intros Hlimit nq. split; [|split].
  - apply searchProblems_take. exact Hlimit.
  - intros e. apply matches_spec.
  - intros Hnone. rewrite searchProblems_take by exact Hlimit.
    fold nq. rewrite filter_none by exact Hnone. apply take_nil.
Qed.

(** C6 as stated fails: the query is not comparison-normalized.  With two
    spaces inside, the normalized query occurs in the normalized title,
    and the search finds nothing. *)
Lemma searchProblems_query_not_collapsed :
  (exists e, e ∈ DataService.problemMap Sample.acmeBetaState /\
             Matching.matchesSpec "two  sum" e = true) /\
  DataService.searchProblems Sample.acmeBetaState "two  sum" (Some 10%Z) = [].
Proof.
  split.
  - eexists. split; [apply list_elem_of_here | vm_compute; reflexivity].
  - vm_compute. reflexivity.
Qed.

(** ** Blank queries *)

Lemma trim_spaces l :
  Forall (fun c => Char.is_space c = true) l -> Text.trim l = [].
Proof.
  intros H. unfold Text.trim.
  assert (Text.trimStart l = []) as ->.
  { induction H as [|c l Hc _ IH]; [reflexivity|]. simpl. rewrite Hc. exact IH. }
  reflexivity.
Qed.

Lemma blank_query query :
  Matching.blank query -> Normalizer.trim (Normalizer.toLowerCase query) = EmptyString.
Proof.
  intros H. unfold Normalizer.trim, Normalizer.toLowerCase.
  rewrite chars_str, trim_spaces; [reflexivity|].
  unfold Text.toLowerCase. apply Forall_map.
  eapply Forall_impl; [exact H|]. intros c Hc. apply lower_space. exact Hc.
Qed.

Lemma matches_empty e : DataService.matches EmptyString e = true.
Proof.
  unfold DataService.matches, Normalizer.includes. simpl Normalizer.chars at 2.
  destruct (Normalizer.chars _); reflexivity.
Qed.

(** For a limit of at least 1, a blank query is answered with the first
    [min limit totalProblems] problems of the index, in its order. *)
Lemma searchProblems_blank (st : DataService.State) (query : string) (limit : Z) :
  Matching.blank query ->
  (1 <= limit)%Z ->
  DataService.searchProblems st query (Some limit) =
  take (Z.to_nat limit `min` JsMap.size (DataService.problemMap st))
       (map (fun e => DataService.hit (snd e)) (DataService.problemMap st)).
Proof.
  intros Hq Hlimit. rewrite searchProblems_take by exact Hlimit.
  rewrite blank_query by exact Hq.
  rewrite filter_all by apply matches_empty.
  unfold JsMap.size.
  destruct (Nat.le_ge_cases (Z.to_nat limit) (List.length (DataService.problemMap st)))
    as [Hle|Hge].
  - rewrite Nat.min_l by exact Hle. reflexivity.
  - rewrite Nat.min_r by exact Hge.
    rewrite !take_ge by (rewrite length_map; lia). reflexivity.
Qed.

(** With a limit below 1 the loop stops after its first match: a blank
    query is answered with the first problem of the index. *)
Lemma searchProblems_blank_low_limit (st : DataService.State) (query : string)
    (limit : Z) e rest :
  Matching.blank query ->
  (limit <= 0)%Z ->
  DataService.problemMap st = e :: rest ->
  DataService.searchProblems st query (Some limit) = [DataService.hit (snd e)].
Proof.
  intros Hq Hlimit Hmap. unfold DataService.searchProblems. simpl default.
  rewrite blank_query by exact Hq. rewrite Hmap. simpl.
  rewrite matches_empty.
  destruct (Z.geb_spec (Z.of_nat 1) limit) as [_|Hlt]; [reflexivity | lia].
Qed.

(** C10, at the input where the code departs from it: the index holds one
    problem, the query is one space, and the limit is 0 or -1.  The claim
    gives the first [min limit 1] problems, none; the search returns one. *)
Theorem searchProblems_blank_limit_zero :
  DataService.totalProblems Sample.acmeBetaState = 1 /\
  DataService.searchProblems Sample.acmeBetaState " " (Some 0%Z) = [Sample.twoSumHit] /\
  DataService.searchProblems Sample.acmeBetaState " " (Some (-1)%Z) = [Sample.twoSumHit].
Proof. repeat split; vm_compute; reflexivity. Qed.

(** ** Loops that can throw *)

Lemma foldM_app {A B} (f : A -> B -> result A) (l1 l2 : list B) (acc : A) :
  foldM f acc (l1 ++ l2) = bind (foldM f acc l1) (fun a => foldM f a l2).
Proof.
  revert acc. induction l1 as [|x l1 IH]; intros acc; [reflexivity|].
  simpl. destruct (f acc x) as [a|e]; simpl; [apply IH | reflexivity].
Qed.

(** An invariant over the list of the elements folded in so far. *)
Lemma foldM_history {A B} (f : A -> B -> result A) (I : list B -> A -> Prop) :
  (forall h a x a', I h a -> f a x = Ok a' -> I (h ++ [x]) a') ->
  forall l h a a', I h a -> foldM f a l = Ok a' -> I (h ++ l) a'.
Proof.
  intros Hstep l. induction l as [|x l IH]; intros h a a' Hi Hf; simpl in Hf.
  - injection Hf as <-. rewrite app_nil_r. exact Hi.
  - destruct (f a x) as [a1|e] eqn:Hx; simpl in Hf; [|discriminate].
    rewrite cons_middle, app_assoc. eapply IH; [|exact Hf].
    eapply Hstep; [exact Hi | exact Hx].
Qed.

(** ** The records of a pair *)

Lemma maxPositive_nonneg l : (0 <= Build.maxPositive l)%Z.
Proof.
  unfold Build.maxPositive. induction (List.filter _ l) as [|z l' IH]; simpl; lia.
Qed.

Lemma foldr_max_snoc l z : foldr Z.max 0%Z (l ++ [z]) = Z.max (foldr Z.max 0%Z l) (Z.max z 0).
Proof. induction l as [|y l IH]; simpl; [lia|]. rewrite IH. lia. Qed.

Lemma maxPositive_snoc l z :
  Build.maxPositive (l ++ [z]) = Z.max (Build.maxPositive l) z.
Proof.
  pose proof (maxPositive_nonneg l) as Hl. unfold Build.maxPositive in *.
  rewrite List.filter_app. simpl. destruct (Z.ltb_spec 0 z).
  - rewrite foldr_max_snoc. lia.
  - rewrite app_nil_r. lia.
Qed.

Lemma updateFrequency_maxPositive l f :
  DataService.updateFrequency (Build.maxPositive l) f =
  Build.maxPositive (l ++ match f with Some z => [z] | None => [] end).
Proof.
  pose proof (maxPositive_nonneg l) as Hl.
  destruct f as [z|]; simpl; [|rewrite app_nil_r; reflexivity].
  rewrite maxPositive_snoc. destruct (Z.eqb_spec z 0); lia.
Qed.

Lemma maxPositive_perm l1 l2 :
  l1 ≡ₚ l2 -> Build.maxPositive l1 = Build.maxPositive l2.
Proof.
  unfold Build.maxPositive.
  induction 1 as [|z l1 l2 _ IH|y z l|l1 l2 l3 _ IH1 _ IH2]; simpl.
  - reflexivity.
  - destruct (0 <? z)%Z; simpl; rewrite IH; reflexivity.
  - destruct (0 <? z)%Z, (0 <? y)%Z; simpl; lia.
  - rewrite IH1. exact IH2.
Qed.

Lemma reported_snoc hist t slug company :
  Build.reported (hist ++ [t]) slug company =
  Build.reported hist slug company ++
  (if Build.isPair slug company t
   then match Parsed.frequency (snd t) with Some z => [z] | None => [] end
   else []).
Proof. unfold Build.reported. rewrite flat_map_app. simpl. rewrite app_nil_r. reflexivity. Qed.

Lemma discovery_snoc hist t slug :
  Build.discovery (hist ++ [t]) slug =
  if Build.isFor slug t
  then Build.addNew (Build.discovery hist slug) (Build.companyOf t)
  else Build.discovery hist slug.
Proof.
  unfold Build.discovery. rewrite List.filter_app. simpl.
  destruct (Build.isFor slug t).
  - rewrite map_app, foldl_app. reflexivity.
  - rewrite app_nil_r. reflexivity.
Qed.

Lemma addNew_elem seen company n :
  n ∈ Build.addNew seen company <-> n ∈ seen \/ n = company.
Proof.
  unfold Build.addNew. case_bool_decide as Hc.
  - split; [tauto | intros [H | ->]; assumption].
  - rewrite elem_of_app, list_elem_of_singleton. reflexivity.
Qed.

Lemma addNew_NoDup seen company : NoDup seen -> NoDup (Build.addNew seen company).
Proof.
  intros H. unfold Build.addNew. case_bool_decide as Hc; [exact H|].
  apply NoDup_app. split; [exact H|]. split.
  - intros x Hx Hx'. apply list_elem_of_singleton in Hx'. subst x. exact (Hc Hx).
  - apply NoDup_singleton.
Qed.

Lemma discovery_NoDup hist slug : NoDup (Build.discovery hist slug).
Proof.
  induction hist as [|t hist IH] using rev_ind; [apply NoDup_nil_2|].
  rewrite discovery_snoc. destruct (Build.isFor slug t); [|exact IH].
  apply addNew_NoDup. exact IH.
Qed.

(** A company with a record for the problem has been discovered. *)
Lemma reported_undiscovered hist slug company :
  company ∉ Build.discovery hist slug -> Build.reported hist slug company = [].
Proof.
  induction hist as [|t hist IH] using rev_ind; intros H; [reflexivity|].
  rewrite reported_snoc. rewrite discovery_snoc in H.
  unfold Build.isPair. destruct (Build.isFor slug t); simpl.
  - rewrite addNew_elem in H.
    rewrite bool_decide_eq_false_2 by (intros Heq; apply H; right; congruence).
    rewrite IH by tauto. reflexivity.
  - rewrite IH by exact H. reflexivity.
Qed.


(** ** Maps in insertion order *)

Lemma get_None {V} (k : string) (m : JsMap.t V) :
  JsMap.get k m = None <-> k ∉ map fst m.
Proof.
  unfold JsMap.get. induction m as [|[k' v] m IH]; simpl.
  - split; [intros _; apply not_elem_of_nil | reflexivity].
  - rewrite not_elem_of_cons. case_bool_decide as Hk.
    + split; [discriminate | intros [Hne _]; congruence].
    + rewrite IH. split; [intros H; split; [congruence | exact H] | tauto].
Qed.

Lemma has_true {V} (k : string) (m : JsMap.t V) :
  JsMap.has k m = true <-> k ∈ map fst m.
Proof.
  unfold JsMap.has. destruct (JsMap.get k m) as [v|] eqn:Hg.
  - split; [intros _ | reflexivity].
    destruct (decide (k ∈ map fst m)) as [Hin|Hin]; [exact Hin|].
    apply get_None in Hin. congruence.
  - split; [discriminate|]. intros Hin. apply get_None in Hg. contradiction.
Qed.

Lemma set_absent {V} (k : string) (v : V) (m : JsMap.t V) :
  k ∉ map fst m -> JsMap.set k v m = m ++ [(k, v)].
Proof.
  induction m as [|[k' v'] m IH]; simpl; intros H; [reflexivity|].
  apply not_elem_of_cons in H. destruct H as [Hne Hin].
  rewrite bool_decide_eq_false_2 by congruence. rewrite IH by exact Hin. reflexivity.
Qed.

Lemma alter_keys {V} (f : V -> V) (k : string) (m : JsMap.t V) :
  map fst (JsMap.alter f k m) = map fst m.
Proof.
  induction m as [|[k' v'] m IH]; simpl; [reflexivity|].
  case_bool_decide; simpl; [reflexivity | rewrite IH; reflexivity].
Qed.

Lemma alter_elem {V} (f : V -> V) (k : string) (m : JsMap.t V) k' v' :
  NoDup (map fst m) ->
  (k', v') ∈ JsMap.alter f k m ->
  (k' <> k /\ (k', v') ∈ m) \/ (k' = k /\ exists v, (k, v) ∈ m /\ v' = f v).
Proof.
  induction m as [|[k0 v0] m IH]; simpl; intros Hnd Hin.
  - apply elem_of_nil in Hin. contradiction.
  - apply NoDup_cons in Hnd. destruct Hnd as [Hk0 Hnd].
    case_bool_decide as Hk.
    + subst k0. apply elem_of_cons in Hin. destruct Hin as [[= -> ->] | Hin].
      * right. split; [reflexivity|]. exists v0. split; [apply list_elem_of_here | reflexivity].
      * left. split; [|apply list_elem_of_further; exact Hin].
        intros ->. apply Hk0. apply (list_elem_of_fmap_2 fst _ _ Hin).
    + apply elem_of_cons in Hin. destruct Hin as [[= -> ->] | Hin].
      * left. split; [exact Hk | apply list_elem_of_here].
      * destruct (IH Hnd Hin) as [[Hne H] | [-> [v [H ->]]]].
        -- left. split; [exact Hne | apply list_elem_of_further; exact H].
        -- right. split; [reflexivity|]. exists v.
           split; [apply list_elem_of_further; exact H | reflexivity].
Qed.

(** ** The companies of one problem *)

Lemma find_hasName_None company (l : list DataService.CompanyEntry) :
  List.find (DataService.hasName company) l = None <->
  company ∉ map DataService.name l.
Proof.
  induction l as [|c l IH]; simpl.
  - split; [intros _; apply not_elem_of_nil | reflexivity].
  - rewrite not_elem_of_cons. unfold DataService.hasName at 1. case_bool_decide as Hc.
    + split; [discriminate | intros [Hne _]; congruence].
    + rewrite IH. split; [intros H; split; [congruence | exact H] | tauto].
Qed.

Lemma updateCompanyEntry_name w f c :
  DataService.name (DataService.updateCompanyEntry w f c) = DataService.name c.
Proof. reflexivity. Qed.

Lemma alterFirst_names p u (l : list DataService.CompanyEntry) :
  (forall c, DataService.name (u c) = DataService.name c) ->
  map DataService.name (DataService.alterFirst p u l) = map DataService.name l.
Proof.
  intros Hu. induction l as [|c l IH]; simpl; [reflexivity|].
  destruct (p c); simpl; [rewrite Hu | rewrite IH]; reflexivity.
Qed.

Lemma alterFirst_absent company u (l : list DataService.CompanyEntry) x :
  company ∉ map DataService.name l ->
  DataService.alterFirst (DataService.hasName company) u (l ++ [x]) =
  l ++ [if DataService.hasName company x then u x else x].
Proof.
  induction l as [|c l IH]; simpl; intros H.
  - destruct (DataService.hasName company x); reflexivity.
  - apply not_elem_of_cons in H. destruct H as [Hne Hin].
    unfold DataService.hasName at 1.
    rewrite bool_decide_eq_false_2 by congruence. rewrite IH by exact Hin. reflexivity.
Qed.

Lemma alterFirst_elem company u (l : list DataService.CompanyEntry) c' :
  NoDup (map DataService.name l) ->
  c' ∈ DataService.alterFirst (DataService.hasName company) u l ->
  (c' ∈ l /\ DataService.name c' <> company) \/
  (exists c, c ∈ l /\ DataService.name c = company /\ c' = u c).
Proof.
  induction l as [|c l IH]; simpl; intros Hnd Hin.
  - apply elem_of_nil in Hin. contradiction.
  - apply NoDup_cons in Hnd. destruct Hnd as [Hc Hnd].
    unfold DataService.hasName at 1 in Hin. case_bool_decide as Hn.
    + apply elem_of_cons in Hin. destruct Hin as [-> | Hin].
      * right. exists c. split; [apply list_elem_of_here | split; [exact Hn | reflexivity]].
      * left. split; [apply list_elem_of_further; exact Hin|].
        intros Heq. apply Hc. rewrite Hn, <- Heq.
        apply (list_elem_of_fmap_2 DataService.name _ _ Hin).
    + apply elem_of_cons in Hin. destruct Hin as [-> | Hin].
      * left. split; [apply list_elem_of_here | exact Hn].
      * destruct (IH Hnd Hin) as [[H Hne] | [c0 [H [Hn0 ->]]]].
        -- left. split; [apply list_elem_of_further; exact H | exact Hne].
        -- right. exists c0.
           split; [apply list_elem_of_further; exact H | split; [exact Hn0 | reflexivity]].
Qed.

Lemma foldCompany_names company w f (l : list DataService.CompanyEntry) :
  map DataService.name (DataService.foldCompany company w f l) =
  Build.addNew (map DataService.name l) company.
Proof.
  unfold DataService.foldCompany, Build.addNew.
  rewrite alterFirst_names by apply updateCompanyEntry_name.
  destruct (List.find _ l) as [c|] eqn:Hf.
  - rewrite bool_decide_eq_true_2; [reflexivity|].
    destruct (decide (company ∈ map DataService.name l)) as [Hin|Hin]; [exact Hin|].
    apply find_hasName_None in Hin. congruence.
  - apply find_hasName_None in Hf. rewrite bool_decide_eq_false_2 by exact Hf.
    rewrite map_app. reflexivity.
Qed.

(** After a record of [company], an entry of the list is an old entry of
    another company, or the update of the entry of [company], which is
    fresh when the company was not in the list. *)
Lemma foldCompany_elem company w f (l : list DataService.CompanyEntry) c' :
  NoDup (map DataService.name l) ->
  c' ∈ DataService.foldCompany company w f l ->
  (c' ∈ l /\ DataService.name c' <> company) \/
  (exists c,
     (c ∈ l \/ ((company ∉ map DataService.name l) /\
                c = DataService.newCompanyEntry company)) /\
     DataService.name c = company /\
     c' = DataService.updateCompanyEntry w f c).
Proof.
  intros Hnd. unfold DataService.foldCompany.
  destruct (List.find _ l) as [c|] eqn:Hf.
  - intros Hin. destruct (alterFirst_elem _ _ _ _ Hnd Hin) as [H | [c0 [H [Hn ->]]]].
    + left. exact H.
    + right. exists c0. split; [left; exact H | split; [exact Hn | reflexivity]].
  - apply find_hasName_None in Hf. rewrite alterFirst_absent by exact Hf.
    unfold DataService.hasName. simpl DataService.name.
    rewrite bool_decide_eq_true_2 by reflexivity.
    intros Hin. apply elem_of_app in Hin. destruct Hin as [Hin | Hin].
    + left. split; [exact Hin|]. intros Heq. apply Hf. rewrite <- Heq.
      apply (list_elem_of_fmap_2 DataService.name _ _ Hin).
    + apply list_elem_of_singleton in Hin. right.
      exists (DataService.newCompanyEntry company).
      split; [right; split; [exact Hf | reflexivity] | split; [reflexivity | exact Hin]].
Qed.


(** ** The index agrees with the records *)

Lemma recordStep_string pm company w r s :
  Parsed.title r = Parsed.TitleString s ->
  Build.recordStep pm (company, w, r) =
  Ok (JsMap.alter
        (DataService.withCompanies
           (DataService.foldCompany company w (Parsed.frequency r)))
        (Normalizer.titleToSlug s)
        (if JsMap.has (Normalizer.titleToSlug s) pm then pm
         else JsMap.set (Normalizer.titleToSlug s)
                {| DataService.problem := s;
                   DataService.slug := Normalizer.titleToSlug s;
                   DataService.companies := [] |} pm)).
Proof.
  intros Ht. unfold Build.recordStep, DataService.processRecord.
  simpl. rewrite Ht. simpl. reflexivity.
Qed.

Lemma recordStep_not_string pm t :
  Parsed.title (snd t) = Parsed.TitleNotString ->
  Build.recordStep pm t = Err "TypeError: title.toLowerCase is not a function".
Proof.
  intros Ht. unfold Build.recordStep, DataService.processRecord.
  rewrite Ht. reflexivity.
Qed.

Lemma consistent_nil : Build.consistent [] [].
Proof.
  split; [apply NoDup_nil_2|]. split; [reflexivity|].
  intros k p H. apply elem_of_nil in H. contradiction.
Qed.

(** A new key gets an entry without companies. *)
Lemma consistent_register hist pm k title :
  Build.consistent hist pm ->
  k ∉ map fst pm ->
  Build.consistent hist
    (JsMap.set k {| DataService.problem := title; DataService.slug := k;
                    DataService.companies := [] |} pm).
Proof.
  intros (Hnd & Habs & Hent) Hk. rewrite set_absent by exact Hk.
  split; [|split].
  - rewrite map_app. apply NoDup_app. split; [exact Hnd|]. split.
    + intros x Hx Hx'. apply list_elem_of_singleton in Hx'. subst x. exact (Hk Hx).
    + apply NoDup_singleton.
  - intros k' Hk'. apply Habs. intros Hin. apply Hk'.
    rewrite map_app. apply elem_of_app. left. exact Hin.
  - intros k' p Hin. apply elem_of_app in Hin. destruct Hin as [Hin | Hin].
    + apply Hent. exact Hin.
    + apply list_elem_of_singleton in Hin. injection Hin as -> ->. simpl.
      split; [reflexivity|]. split; [symmetry; apply Habs; exact Hk|].
      intros c Hc. apply elem_of_nil in Hc. contradiction.
Qed.

(** A record of a known key is folded into the entry of the key. *)
Lemma consistent_fold hist pm company w r k :
  Build.consistent hist pm ->
  k ∈ map fst pm ->
  Build.slugOf r = Some k ->
  Build.consistent (hist ++ [(company, w, r)])
    (JsMap.alter
       (DataService.withCompanies
          (DataService.foldCompany company w (Parsed.frequency r))) k pm).
Proof.
  intros (Hnd & Habs & Hent) Hk Hslug.
  assert (forall k', Build.isFor k' (company, w, r) = bool_decide (k = k')) as HisFor.
  { intros k'. unfold Build.isFor. simpl. rewrite Hslug.
    apply bool_decide_ext. split; congruence. }
  split; [|split].
  - rewrite alter_keys. exact Hnd.
  - intros k' Hk'. rewrite alter_keys in Hk'.
    rewrite discovery_snoc, HisFor.
    rewrite bool_decide_eq_false_2 by (intros ->; contradiction).
    apply Habs. exact Hk'.
  - intros k' p' Hin.
    destruct (alter_elem _ _ _ _ _ Hnd Hin) as [[Hne Hin'] | [-> [p [Hin' ->]]]].
    + destruct (Hent _ _ Hin') as (Hs & Hn & Hf).
      split; [exact Hs|]. split.
      * rewrite discovery_snoc, HisFor.
        rewrite bool_decide_eq_false_2 by congruence. exact Hn.
      * intros c Hc. rewrite reported_snoc. unfold Build.isPair.
        rewrite HisFor. rewrite bool_decide_eq_false_2 by congruence.
        simpl. rewrite app_nil_r. apply Hf. exact Hc.
    + destruct (Hent _ _ Hin') as (Hs & Hn & Hf). simpl.
      split; [exact Hs|]. split.
      * rewrite foldCompany_names, Hn, discovery_snoc, HisFor.
        rewrite bool_decide_eq_true_2 by reflexivity. reflexivity.
      * intros c Hc. rewrite reported_snoc. unfold Build.isPair.
        rewrite HisFor. rewrite bool_decide_eq_true_2 by reflexivity.
        simpl andb. unfold Build.companyOf. simpl fst.
        assert (NoDup (map DataService.name (DataService.companies p))) as Hnames
          by (rewrite Hn; apply discovery_NoDup).
        destruct (foldCompany_elem _ _ _ _ _ Hnames Hc)
          as [[Hc' Hne] | [c0 [Hc0 [Hn0 ->]]]].
        -- rewrite bool_decide_eq_false_2 by congruence.
           rewrite app_nil_r. apply Hf. exact Hc'.
        -- simpl DataService.name. simpl DataService.frequency.
           rewrite Hn0. rewrite bool_decide_eq_true_2 by reflexivity.
           rewrite <- updateFrequency_maxPositive. f_equal.
           destruct Hc0 as [Hc0 | [Hnew ->]].
           ++ rewrite <- Hn0. apply Hf. exact Hc0.
           ++ rewrite Hn in Hnew.
              rewrite reported_undiscovered by exact Hnew. reflexivity.
Qed.

Lemma consistent_step hist pm t pm' :
  Build.consistent hist pm ->
  Build.recordStep pm t = Ok pm' ->
  Build.consistent (hist ++ [t]) pm'.
Proof.
  intros Hc Hstep. destruct t as [[company w] r].
  destruct (Parsed.title r) as [s|] eqn:Ht;
    [|rewrite recordStep_not_string in Hstep by exact Ht; discriminate].
  rewrite (recordStep_string _ _ _ _ _ Ht) in Hstep. injection Hstep as <-.
  assert (Build.slugOf r = Some (Normalizer.titleToSlug s)) as Hslug
    by (unfold Build.slugOf; rewrite Ht; reflexivity).
  destruct (JsMap.has (Normalizer.titleToSlug s) pm) eqn:Hhas.
  - apply consistent_fold; [exact Hc | apply has_true; exact Hhas | exact Hslug].
  - assert (Normalizer.titleToSlug s ∉ map fst pm) as Hk.
    { intros Hin. apply has_true in Hin. congruence. }
    apply consistent_fold; [apply consistent_register; assumption | | exact Hslug].
    rewrite set_absent by exact Hk. rewrite map_app. apply elem_of_app. right.
    apply list_elem_of_here.
Qed.

(** ** The three loops fold the records in order *)

Lemma processRecord_step company w acc r :
  match DataService.processRecord company w acc r with
  | Ok acc' =>
      Build.recordStep (DataService.l_problemMap acc) (company, w, r) =
      Ok (DataService.l_problemMap acc')
  | Err e => Build.recordStep (DataService.l_problemMap acc) (company, w, r) = Err e
  end.
Proof.
  unfold Build.recordStep, DataService.processRecord. simpl.
  destruct (Parsed.title r); reflexivity.
Qed.

Lemma records_of_window company w rs :
  forall acc,
    match foldM (DataService.processRecord company w) acc rs with
    | Ok acc' =>
        foldM Build.recordStep (DataService.l_problemMap acc)
              (map (fun r => (company, w, r)) rs) =
        Ok (DataService.l_problemMap acc')
    | Err e =>
        foldM Build.recordStep (DataService.l_problemMap acc)
              (map (fun r => (company, w, r)) rs) = Err e
    end.
Proof.
  induction rs as [|r rs IH]; intros acc; simpl; [reflexivity|].
  pose proof (processRecord_step company w acc r) as Hr.
  destruct (DataService.processRecord company w acc r) as [a|e];
    rewrite Hr; simpl; [apply IH | reflexivity].
Qed.

Lemma records_of_company company trs :
  forall acc,
    match foldM (DataService.processTimeRange company) acc trs with
    | Ok acc' =>
        foldM Build.recordStep (DataService.l_problemMap acc)
              (flat_map (fun w => map (fun r => (company, fst w, r)) (snd w)) trs) =
        Ok (DataService.l_problemMap acc')
    | Err e =>
        foldM Build.recordStep (DataService.l_problemMap acc)
              (flat_map (fun w => map (fun r => (company, fst w, r)) (snd w)) trs) =
        Err e
    end.
Proof.
  induction trs as [|[w rs] trs IH]; intros acc; simpl; [reflexivity|].
  unfold DataService.processTimeRange at 1. simpl.
  pose proof (records_of_window company w rs acc) as Hw.
  rewrite foldM_app.
  destruct (foldM (DataService.processRecord company w) acc rs) as [a|e];
    rewrite Hw; simpl; [apply IH | reflexivity].
Qed.

Lemma records_of_data parsedData :
  forall acc,
    match foldM DataService.processCompany acc parsedData with
    | Ok acc' =>
        foldM Build.recordStep (DataService.l_problemMap acc)
              (Build.records parsedData) =
        Ok (DataService.l_problemMap acc')
    | Err e =>
        foldM Build.recordStep (DataService.l_problemMap acc)
              (Build.records parsedData) = Err e
    end.
Proof.
  unfold Build.records.
  induction parsedData as [|[company trs] pd IH]; intros acc; simpl; [reflexivity|].
  unfold DataService.processCompany at 1. simpl.
  match goal with
  | |- context [foldM (DataService.processTimeRange company) ?a trs] =>
      pose proof (records_of_company company trs a) as Hc;
      destruct (foldM (DataService.processTimeRange company) a trs) as [a'|e]
  end; simpl in Hc; rewrite foldM_app, Hc; simpl; [apply IH | reflexivity].
Qed.

(** The index of a build that returns is the sorted form of a map that
    agrees with all the records. *)
Lemma build_consistent parsedData st st' :
  DataService.buildProblemIndex parsedData st = (Ok tt, st') ->
  exists pm,
    Build.consistent (Build.records parsedData) pm /\
    DataService.problemMap st' = DataService.sortCompanies pm.
Proof.
  intros Hb. pose proof (buildProblemIndex_outcome parsedData st) as Ho.
  unfold DataService.buildLocals in Ho.
  destruct (foldM DataService.processCompany DataService.emptyLocals parsedData)
    as [acc|e] eqn:Hf; simpl in Ho; rewrite Ho in Hb; [|discriminate].
  injection Hb as <-. simpl.
  exists (DataService.l_problemMap acc). split; [|reflexivity].
  pose proof (records_of_data parsedData DataService.emptyLocals) as Hr.
  rewrite Hf in Hr. simpl in Hr.
  apply (foldM_history Build.recordStep Build.consistent consistent_step
           _ [] _ _ consistent_nil Hr).
Qed.

(** ** Sorting *)

Lemma insertSorted_perm {A} (compare : A -> A -> Z) x l :
  DataService.insertSorted compare x l ≡ₚ x :: l.
Proof.
  induction l as [|y l IH]; simpl; [reflexivity|].
  destruct (compare x y <=? 0)%Z; [reflexivity|].
  rewrite IH. apply Permutation_swap.
Qed.

Lemma sort_perm {A} (compare : A -> A -> Z) l : DataService.sort compare l ≡ₚ l.
Proof.
  induction l as [|x l IH]; simpl; [reflexivity|].
  rewrite insertSorted_perm, IH. reflexivity.
Qed.

Lemma insertSorted_descending x l :
  Build.descending l ->
  Build.descending (DataService.insertSorted DataService.byFrequency x l).
Proof.
  unfold Build.descending.
  induction l as [|y l IH]; simpl; intros Hl.
  - apply SSorted_cons; [apply SSorted_nil | apply Forall_nil_2].
  - apply StronglySorted_inv in Hl. destruct Hl as [Hl Hy].
    unfold DataService.byFrequency at 1.
    destruct (Z.leb_spec (DataService.frequency y - DataService.frequency x) 0) as [Hle|Hgt].
    + apply SSorted_cons; [apply SSorted_cons; assumption|].
      apply Forall_cons. split; [lia|].
      eapply Forall_impl; [exact Hy|]. simpl. intros z Hz. lia.
    + apply SSorted_cons; [apply IH; exact Hl|].
      rewrite insertSorted_perm. apply Forall_cons. split; [lia | exact Hy].
Qed.

Lemma sort_descending l : Build.descending (DataService.sort DataService.byFrequency l).
Proof.
  induction l as [|x l IH]; simpl; [apply SSorted_nil|].
  apply insertSorted_descending. exact IH.
Qed.

(** The sort moves an entry in front of entries of a lower frequency
    only. *)
Lemma tied_insertSorted f x l :
  Build.tied f (DataService.insertSorted DataService.byFrequency x l) =
  Build.tied f (x :: l).
Proof.
  unfold Build.tied. induction l as [|y l IH]; simpl; [reflexivity|].
  unfold DataService.byFrequency at 1.
  destruct (Z.leb_spec (DataService.frequency y - DataService.frequency x) 0) as [Hle|Hgt];
    [reflexivity|].
  simpl. rewrite IH. simpl.
  case_bool_decide as Hx; [|reflexivity].
  rewrite bool_decide_eq_false_2 by lia. reflexivity.
Qed.

Lemma tied_sort f l :
  Build.tied f (DataService.sort DataService.byFrequency l) = Build.tied f l.
Proof.
  induction l as [|x l IH]; simpl; [reflexivity|].
  rewrite tied_insertSorted. unfold Build.tied in *. simpl. rewrite IH. reflexivity.
Qed.

Lemma sortCompanies_elem pm k p :
  (k, p) ∈ DataService.sortCompanies pm ->
  exists p0,
    (k, p0) ∈ pm /\
    p = DataService.withCompanies (DataService.sort DataService.byFrequency) p0.
Proof.
  unfold DataService.sortCompanies. intros H.
  apply list_elem_of_fmap in H. destruct H as [[k0 p0] [[= -> ->] Hin]].
  exists p0. split; [exact Hin | reflexivity].
Qed.

Lemma tied_names (g : string -> Z) f (l : list DataService.CompanyEntry) :
  (forall c, c ∈ l -> DataService.frequency c = g (DataService.name c)) ->
  map DataService.name (Build.tied f l) =
  List.filter (fun n => bool_decide (g n = f)) (map DataService.name l).
Proof.
  unfold Build.tied. induction l as [|c l IH]; intros H; [reflexivity|]. simpl.
  rewrite (H c) by apply list_elem_of_here.
  rewrite <- IH by (intros c' Hc'; apply H; apply list_elem_of_further; exact Hc').
  destruct (bool_decide _); reflexivity.
Qed.


(** ** When a build returns *)

Lemma foldM_recordStep_returns hist :
  forall pm,
    (exists pm', foldM Build.recordStep pm hist = Ok pm') <->
    Forall (fun t => exists s, Parsed.title (snd t) = Parsed.TitleString s) hist.
Proof.
  induction hist as [|[[company w] r] hist IH]; intros pm; simpl.
  - split; [intros _; apply Forall_nil_2 | intros _; eexists; reflexivity].
  - rewrite Forall_cons. destruct (Parsed.title r) as [s|] eqn:Ht.
    + rewrite (recordStep_string _ _ _ _ _ Ht). simpl. rewrite IH.
      split; [intros H; split; [exists s; exact Ht | exact H] | tauto].
    + rewrite recordStep_not_string by exact Ht. simpl.
      split; [intros [pm' H]; discriminate|].
      intros [[s Hs] _]. simpl in Hs. congruence.
Qed.

(** [buildProblemIndex] returns exactly when every title is a string. *)
Lemma buildProblemIndex_returns parsedData st :
  (exists st', DataService.buildProblemIndex parsedData st = (Ok tt, st')) <->
  Forall (fun t => exists s, Parsed.title (snd t) = Parsed.TitleString s)
         (Build.records parsedData).
Proof.
  rewrite <- (foldM_recordStep_returns _ []).
  pose proof (buildProblemIndex_outcome parsedData st) as Ho.
  pose proof (records_of_data parsedData DataService.emptyLocals) as Hr.
  unfold DataService.buildLocals in Ho.
  destruct (foldM DataService.processCompany DataService.emptyLocals parsedData)
    as [acc|e]; simpl in Ho, Hr; rewrite Ho, Hr.
  - split; intros _; eexists; reflexivity.
  - split; intros [x Hx]; discriminate.
Qed.

(** ** Frequencies *)

Lemma updateFrequency_ge current f : (current <= DataService.updateFrequency current f)%Z.
Proof. destruct f as [z|]; simpl; [destruct (z =? 0)%Z|]; lia. Qed.

Lemma build_frequency parsedData st st' k p c :
  DataService.buildProblemIndex parsedData st = (Ok tt, st') ->
  (k, p) ∈ DataService.problemMap st' ->
  c ∈ DataService.companies p ->
  DataService.slug p = k /\
  DataService.frequency c =
  Build.maxPositive
    (Build.reported (Build.records parsedData) k (DataService.name c)).
Proof.
  intros Hb Hp Hc. destruct (build_consistent _ _ _ Hb) as [pm [(_ & _ & Hent) Hpm]].
  rewrite Hpm in Hp. apply sortCompanies_elem in Hp. destruct Hp as [p0 [Hp0 ->]].
  destruct (Hent _ _ Hp0) as (Hs & _ & Hf). simpl in *.
  split; [exact Hs|]. apply Hf. rewrite <- (sort_perm DataService.byFrequency). exact Hc.
Qed.

Lemma maxPositive_app_ge l more :
  (Build.maxPositive l <= Build.maxPositive (l ++ more))%Z.
Proof.
  induction more as [|z more IH] using rev_ind.
  - rewrite app_nil_r. lia.
  - rewrite app_assoc, maxPositive_snoc. lia.
Qed.

Lemma reported_app hist more slug company :
  Build.reported (hist ++ more) slug company =
  Build.reported hist slug company ++ Build.reported more slug company.
Proof. unfold Build.reported. apply flat_map_app. Qed.

(** C7: after a build that returns, the frequency of a company in a
    problem is the maximum of the frequencies above 0 of the records of
    the pair (0 without such a record); folding a record in never lowers
    it, and neither do more records at the end of the input; a record
    without frequency or with frequency 0 leaves it as it is; and it is the
    same for two inputs that give the records of the pair in different
    orders. *)
Theorem maxFrequency_maximum :
  (forall parsedData st st' k p c,
     DataService.buildProblemIndex parsedData st = (Ok tt, st') ->
     (k, p) ∈ DataService.problemMap st' ->
     c ∈ DataService.companies p ->
     DataService.frequency c =
     Build.maxPositive
       (Build.reported (Build.records parsedData)
                       (DataService.slug p) (DataService.name c))) /\
  (forall w f c,
     (DataService.frequency c <=
      DataService.frequency (DataService.updateCompanyEntry w f c))%Z) /\
  (forall w c,
     DataService.frequency (DataService.updateCompanyEntry w None c) =
       DataService.frequency c /\
     DataService.frequency (DataService.updateCompanyEntry w (Some 0%Z) c) =
       DataService.frequency c) /\
  (forall d1 d2 st1 st2 st1' st2' k p1 p2 c1 c2,
     DataService.buildProblemIndex d1 st1 = (Ok tt, st1') ->
     DataService.buildProblemIndex d2 st2 = (Ok tt, st2') ->
     (k, p1) ∈ DataService.problemMap st1' ->
     (k, p2) ∈ DataService.problemMap st2' ->
     c1 ∈ DataService.companies p1 ->
     c2 ∈ DataService.companies p2 ->
     DataService.name c1 = DataService.name c2 ->
     Build.reported (Build.records d1) k (DataService.name c1) ≡ₚ
     Build.reported (Build.records d2) k (DataService.name c1) ->
     DataService.frequency c1 = DataService.frequency c2) /\
  (forall d1 d2 more st1 st2 st1' st2' k p1 p2 c1 c2,
     DataService.buildProblemIndex d1 st1 = (Ok tt, st1') ->
     DataService.buildProblemIndex d2 st2 = (Ok tt, st2') ->
     Build.records d2 = Build.records d1 ++ more ->
     (k, p1) ∈ DataService.problemMap st1' ->
     (k, p2) ∈ DataService.problemMap st2' ->
     c1 ∈ DataService.companies p1 ->
     c2 ∈ DataService.companies p2 ->
     DataService.name c1 = DataService.name c2 ->
     (DataService.frequency c1 <= DataService.frequency c2)%Z).
Proof.
  split; [|split; [|split; [|split]]]; cycle 4.
  { intros d1 d2 more st1 st2 st1' st2' k p1 p2 c1 c2 Hb1 Hb2 Hmore Hp1 Hp2 Hc1 Hc2 Hn.
    destruct (build_frequency _ _ _ _ _ _ Hb1 Hp1 Hc1) as [_ ->].
    destruct (build_frequency _ _ _ _ _ _ Hb2 Hp2 Hc2) as [_ ->].
    rewrite <- Hn, Hmore, reported_app. apply maxPositive_app_ge. }
  - intros parsedData st st' k p c Hb Hp Hc.
    destruct (build_frequency _ _ _ _ _ _ Hb Hp Hc) as [-> Hf]. exact Hf.
  - intros w f c. apply updateFrequency_ge.
  - intros w c. split; reflexivity.
  - intros d1 d2 st1 st2 st1' st2' k p1 p2 c1 c2 Hb1 Hb2 Hp1 Hp2 Hc1 Hc2 Hn Hperm.
    destruct (build_frequency _ _ _ _ _ _ Hb1 Hp1 Hc1) as [_ ->].
    destruct (build_frequency _ _ _ _ _ _ Hb2 Hp2 Hc2) as [_ ->].
    rewrite <- Hn. apply maxPositive_perm. exact Hperm.
Qed.

(** ** The order of the companies *)

(** C9: after a build that returns, the companies of every problem are in
    descending order of frequency, and the companies of equal frequency
    are in the order in which they were first seen for the problem. *)
Theorem companies_sorted_stable parsedData st st' k p :
  DataService.buildProblemIndex parsedData st = (Ok tt, st') ->
  (k, p) ∈ DataService.problemMap st' ->
  Build.descending (DataService.companies p) /\
  (exists discovered,
     map DataService.name discovered =
       Build.discovery (Build.records parsedData) (DataService.slug p) /\
     DataService.companies p ≡ₚ discovered /\
     forall f, Build.tied f (DataService.companies p) = Build.tied f discovered) /\
  (forall f,
     map DataService.name (Build.tied f (DataService.companies p)) =
     List.filter
       (fun n => bool_decide
                   (Build.maxPositive
                      (Build.reported (Build.records parsedData)
                                      (DataService.slug p) n) = f))
       (Build.discovery (Build.records parsedData) (DataService.slug p))).
Proof.
  intros Hb Hp. destruct (build_consistent _ _ _ Hb) as [pm [(_ & _ & Hent) Hpm]].
  rewrite Hpm in Hp. apply sortCompanies_elem in Hp. destruct Hp as [p0 [Hp0 ->]].
  destruct (Hent _ _ Hp0) as (Hs & Hn & Hf). simpl.
  split; [apply sort_descending|]. split.
  - exists (DataService.companies p0). rewrite Hs.
    split; [exact Hn|]. split; [apply sort_perm | intros f; apply tied_sort].
  - intros f. rewrite tied_sort, Hs, <- Hn.
    apply tied_names. exact Hf.
Qed.


Example ranked_build :
  DataService.problemMap (Sample.built Sample.ranked) =
  [ ("two-sum", Sample.rankedTwoSum);
    ("3sum", {| DataService.problem := "3Sum"; DataService.slug := "3sum";
                DataService.companies :=
                  [Sample.company "Gamma" 4 {["all-time"]} "all-time"] |}) ].
Proof. vm_compute. reflexivity. Qed.

Example ranked_discovery :
  Build.discovery (Build.records Sample.ranked) "two-sum" =
  ["Acme"; "Beta"; "Gamma"; "Delta"].
Proof. vm_compute. reflexivity. Qed.

Example ranked_reported :
  Build.reported (Build.records Sample.ranked) "two-sum" "Acme" = [1; 2; 0]%Z.
Proof. vm_compute. reflexivity. Qed.

Example malformed_build :
  DataService.buildProblemIndex Sample.malformed (Sample.built Sample.acmeBeta) =
  (Err "TypeError: title.toLowerCase is not a function", Sample.built Sample.acmeBeta).
Proof. vm_compute. reflexivity. Qed.

(** ** The theorems at sample inputs *)

Lemma titleToSlug_variants_witness :
  Title.variants (Normalizer.chars " Two   Sum!") (Normalizer.chars "two Sum") /\
  Normalizer.titleToSlug " Two   Sum!" = Normalizer.titleToSlug "two Sum".
Proof.
  assert (Title.variants (Normalizer.chars " Two   Sum!") (Normalizer.chars "two Sum"))
    as H.
  { apply (Title.variants_trans _ (Normalizer.chars "Two   Sum!"));
      [apply Title.variants_step, Title.differ_leading; reflexivity|].
    apply (Title.variants_trans _ (Normalizer.chars "Two   Sum"));
      [apply Title.variants_step;
       apply (Title.differ_special (Normalizer.chars "Two   Sum") "!"%char []);
       reflexivity|].
    apply (Title.variants_trans _ (Normalizer.chars "Two  Sum"));
      [apply Title.variants_step;
       apply (Title.differ_run_l (Normalizer.chars "Two") " "%char " "%char
                                 (Normalizer.chars " Sum")); reflexivity|].
    apply (Title.variants_trans _ (Normalizer.chars "Two Sum"));
      [apply Title.variants_step;
       apply (Title.differ_run_r (Normalizer.chars "Two") " "%char " "%char
                                 (Normalizer.chars "Sum")); reflexivity|].
    apply Title.variants_step.
    apply (Title.differ_case [] "T"%char "t"%char (Normalizer.chars "wo Sum")).
    reflexivity. }
  split; [exact H | exact (titleToSlug_variants _ _ H)].
Defined.

Lemma windowsIncludedFor_hierarchy_witness :
("180" ∉ Recency.recognized) /\
  Recency.windowsIncludedFor "180" =
    DataService.Ranges ["30-days"; "60-days"; "90-days"; "all-time"].
Proof.
  assert ("180" ∉ Recency.recognized) as H.
  { unfold Recency.recognized. rewrite !elem_of_cons, elem_of_nil.
    intros [H|[H|[H|[H|[H|[H|[H|[H|H]]]]]]]]; (discriminate H || exact H). }
  split; [exact H|].
  exact (proj2 (proj2 (proj2 (proj2 windowsIncludedFor_hierarchy))) "180" H).
Defined.


Lemma updateData_failure_witness :
  Sample.failedRebuild =
    (Err "TypeError: title.toLowerCase is not a function", snd Sample.failedRebuild) /\
  snd Sample.failedRebuild = Sample.acmeBetaState /\
  DataService.getStatus (snd Sample.failedRebuild) =
    DataService.getStatus Sample.acmeBetaState.
Proof.
  assert (Sample.failedRebuild =
          (Err "TypeError: title.toLowerCase is not a function", snd Sample.failedRebuild))
    as H by (vm_compute; reflexivity).
  split; [exact H|].
  exact (updateData_failure_keeps_snapshot _ _ _ _ _ _ H).
Defined.

Lemma searchProblems_matches_witness :
  (1 <= 1)%Z /\
  DataService.searchProblems Sample.rankedState " SUM " (Some 1%Z) =
    take 1 (map (fun e => DataService.hit (snd e))
                (List.filter (DataService.matches "sum")
                             (DataService.problemMap Sample.rankedState))).
Proof.
  assert (1 <= 1)%Z as H by lia.
  split; [exact H | exact (proj1 (searchProblems_matches Sample.rankedState " SUM " 1 H))].
Defined.

Lemma maxFrequency_maximum_witness :
  DataService.buildProblemIndex Sample.ranked DataService.initial =
    (Ok tt, Sample.rankedState) /\
  ("two-sum", Sample.rankedTwoSum) ∈ DataService.problemMap Sample.rankedState /\
  Sample.company "Acme" 2 {["30-days"; "90-days"; "all-time"]} "30-days"
    ∈ DataService.companies Sample.rankedTwoSum /\
  2%Z = Build.maxPositive (Build.reported (Build.records Sample.ranked) "two-sum" "Acme").
Proof.
  assert (DataService.buildProblemIndex Sample.ranked DataService.initial =
          (Ok tt, Sample.rankedState))
    as H1 by (vm_compute; reflexivity).
  assert (("two-sum", Sample.rankedTwoSum) ∈ DataService.problemMap Sample.rankedState)
    as H2 by (unfold Sample.rankedState; rewrite ranked_build; apply list_elem_of_here).
  assert (Sample.company "Acme" 2 {["30-days"; "90-days"; "all-time"]} "30-days"
            ∈ DataService.companies Sample.rankedTwoSum) as H3
    by (apply list_elem_of_further, list_elem_of_further, list_elem_of_here).
  refine (conj H1 (conj H2 (conj H3 _))).
  exact (proj1 maxFrequency_maximum _ _ _ _ _ _ H1 H2 H3).
Defined.

Lemma companies_sorted_stable_witness :
  DataService.buildProblemIndex Sample.ranked DataService.initial =
    (Ok tt, Sample.rankedState) /\
  ("two-sum", Sample.rankedTwoSum) ∈ DataService.problemMap Sample.rankedState /\
  Build.descending (DataService.companies Sample.rankedTwoSum) /\
  (forall f,
     map DataService.name (Build.tied f (DataService.companies Sample.rankedTwoSum)) =
     List.filter
       (fun n => bool_decide
                   (Build.maxPositive
                      (Build.reported (Build.records Sample.ranked) "two-sum" n) = f))
       (Build.discovery (Build.records Sample.ranked) "two-sum")).
Proof.
  assert (DataService.buildProblemIndex Sample.ranked DataService.initial =
          (Ok tt, Sample.rankedState))
    as H1 by (vm_compute; reflexivity).
  assert (("two-sum", Sample.rankedTwoSum) ∈ DataService.problemMap Sample.rankedState)
    as H2 by (unfold Sample.rankedState; rewrite ranked_build; apply list_elem_of_here).
  pose proof (companies_sorted_stable _ _ _ _ _ H1 H2) as (Hd & _ & Ht).
  exact (conj H1 (conj H2 (conj Hd Ht))).
Defined.


(** * Further properties of the code *)

(** ** Identity keys *)

Lemma lower_idem c : Char.toLowerCase (Char.toLowerCase c) = Char.toLowerCase c.
Proof. each_char c. Qed.

Lemma lower_special_eq c : Char.is_special (Char.toLowerCase c) = Char.is_special c.
Proof. each_char c. Qed.

Lemma lower_space_eq c : Char.is_space (Char.toLowerCase c) = Char.is_space c.
Proof. each_char c. Qed.

Lemma toLowerCase_fixed l :
  Forall (fun c => Char.toLowerCase c = c) l -> Text.toLowerCase l = l.
Proof.
  unfold Text.toLowerCase. induction 1 as [|c l Hc _ IH]; simpl; [reflexivity|].
  rewrite Hc, IH. reflexivity.
Qed.

Lemma toLowerCase_lowered l :
  Forall (fun c => Char.toLowerCase c = c) (Text.toLowerCase l).
Proof. unfold Text.toLowerCase. apply Forall_map, Forall_true. intros c. apply lower_idem. Qed.

Lemma words_Forall (P : ascii -> Prop) l :
  P Char.hyphen -> Forall P l -> forall ph, Forall P (Title.words ph l).
Proof.
  intros Hh. induction 1 as [|c l Hc _ IH]; intros ph; simpl; [constructor|].
  destruct (Char.is_special c); [apply IH|].
  destruct (Title.is_separator c); [apply IH|].
  destruct ph; repeat (constructor; try assumption); apply IH.
Qed.

Lemma trimStart_Forall (P : ascii -> Prop) l : Forall P l -> Forall P (Text.trimStart l).
Proof.
  intros H. destruct (trimStart_split l) as [ws [Hl _]]. rewrite Hl in H.
  apply Forall_app in H. tauto.
Qed.

Lemma trim_Forall (P : ascii -> Prop) l : Forall P l -> Forall P (Text.trim l).
Proof.
  intros H. unfold Text.trim, Text.trimEnd.
  apply Forall_rev, trimStart_Forall, Forall_rev, trimStart_Forall, H.
Qed.

Lemma replaceRuns_Forall (P : ascii -> Prop) cls sep l :
  P sep -> Forall P l -> forall b, Forall P (Text.replaceRuns cls sep b l).
Proof.
  intros Hs. induction 1 as [|c l Hc _ IH]; intros b; simpl; [constructor|].
  destruct (cls c); [destruct b|]; repeat (constructor; try assumption); apply IH.
Qed.

Lemma removeSpecial_fixed l :
  Forall (fun c => Char.is_special c = false) l -> Text.removeSpecial l = l.
Proof.
  unfold Text.removeSpecial. induction 1 as [|c l Hc _ IH]; simpl; [reflexivity|].
  rewrite Hc, IH. reflexivity.
Qed.

Lemma hyphenated_chars b l :
  Title.hyphenated b l = true ->
  Forall (fun c => Char.is_word c = true \/ c = Char.hyphen) l.
Proof.
  revert b. induction l as [|c l IH]; intros b; simpl; [constructor|].
  destruct (Char.is_hyphen c) eqn:Hc; intros H; apply andb_true_iff in H; destruct H as [H1 H2].
  - constructor; [right; apply is_hyphen_eq; exact Hc | eapply IH; exact H2].
  - constructor; [left; exact H1 | eapply IH; exact H2].
Qed.

Lemma hyphenated_tail b a l :
  Title.hyphenated b (a ++ l) = true -> exists b', Title.hyphenated b' l = true.
Proof.
  revert b. induction a as [|c a IH]; intros b; simpl; [intros H; exists b; exact H|].
  destruct (Char.is_hyphen c); intros H; apply andb_true_iff in H; destruct H as [_ H];
    eapply IH; exact H.
Qed.

Lemma hyphenated_no_double b a r :
  Title.hyphenated b (a ++ [Char.hyphen; Char.hyphen] ++ r) = false.
Proof.
  apply not_true_is_false. intros H. apply hyphenated_tail in H. destruct H as [b' H].
  simpl in H. rewrite andb_false_r in H. discriminate.
Qed.

Lemma hyphenated_cons b c l :
  Title.hyphenated b (c :: l) =
  if Char.is_hyphen c then negb b && Title.hyphenated true l
  else Char.is_word c && Title.hyphenated false l.
Proof. reflexivity. Qed.

Lemma dropTrailingHyphen_hyphenated l :
  forall b, Title.hyphenated b l = true ->
            Title.hyphenated b (Text.dropTrailingHyphen l) = true.
Proof.
  induction l as [|c l IH]; intros b H; [reflexivity|].
  rewrite dropTrailingHyphen_cons. destruct l as [|c' l'].
  - destruct (Char.is_hyphen c); [reflexivity | exact H].
  - rewrite hyphenated_cons in H. rewrite hyphenated_cons.
    destruct (Char.is_hyphen c); apply andb_true_iff in H; destruct H as [H1 H2];
      rewrite H1, (IH _ H2); reflexivity.
Qed.

Lemma dropTrailingHyphen_last l :
  forall b, Title.hyphenated b l = true ->
            last (Text.dropTrailingHyphen l) <> Some Char.hyphen.
Proof.
  induction l as [|c l IH]; intros b H; [discriminate|].
  rewrite dropTrailingHyphen_cons. destruct l as [|c' l'].
  - destruct (Char.is_hyphen c) eqn:Hc; [discriminate|].
    simpl. intros [= ->]. discriminate.
  - rewrite hyphenated_cons in H.
    assert (exists b', Title.hyphenated b' (c' :: l') = true
                        /\ (Char.is_hyphen c = true -> b' = true)) as [b' [H' Hb']].
    { destruct (Char.is_hyphen c); apply andb_true_iff in H; destruct H as [_ H];
        eexists; (split; [exact H | intros; congruence || reflexivity]). }
    pose proof (IH _ H') as Hlast.
    destruct (Text.dropTrailingHyphen (c' :: l')) as [|d ds] eqn:Hd.
    + simpl. intros [= ->].
      rewrite (Hb' eq_refl) in H'. rewrite dropTrailingHyphen_cons in Hd.
      destruct l'; [|discriminate]. rewrite hyphenated_cons in H'.
      destruct (Char.is_hyphen c'); [discriminate H' | discriminate Hd].
    + exact Hlast.
Qed.

Lemma slugChain_form l :
  exists x, Normalizer.slugChain l = Text.dropTrailingHyphen x /\
            Title.hyphenated true x = true.
Proof.
  eexists. split; [reflexivity|].
  apply dropLeadingHyphen_shape, replaceRuns_hyphen_shape,
    replaceRuns_space_shape, removeSpecial_plain.
Qed.

Lemma slugChain_shaped l : Slug.shaped (Normalizer.slugChain l).
Proof.
  destruct (slugChain_form l) as [x [Hx Hh]].
  pose proof (dropTrailingHyphen_hyphenated _ _ Hh) as Hd. rewrite <- Hx in Hd.
  split; [|split; [|split]].
  - pose proof (hyphenated_chars _ _ Hd) as Hc.
    assert (Forall (fun c => Char.toLowerCase c = c) (Normalizer.slugChain l)) as Hl.
    { rewrite slugChain_words. apply words_Forall; [reflexivity|].
      apply toLowerCase_lowered. }
    apply Forall_forall. intros c Hin.
    rewrite Forall_forall in Hc, Hl. unfold Slug.keyChar.
    destruct (Hc c Hin) as [Hw | ->];
      [right; split; [exact Hw | apply Hl; exact Hin] | left; reflexivity].
  - destruct (Normalizer.slugChain _) as [|c r]; [discriminate|].
    simpl in Hd. simpl. intros [= ->]. discriminate.
  - rewrite Hx. eapply dropTrailingHyphen_last. exact Hh.
  - intros a b Heq. rewrite Heq in Hd. rewrite hyphenated_no_double in Hd. discriminate.
Qed.

(** X1: An identity key is made of words of lower-case letters, digits and
    underscores joined by single hyphens: no other character, no hyphen at
    either end, no two hyphens in a row. *)
Theorem titleToSlug_shaped (title : string) :
  Slug.shaped (Normalizer.chars (Normalizer.titleToSlug title)).
Proof. rewrite titleToSlug_chain, chars_str. apply slugChain_shaped. Qed.

Lemma slugChain_fixed l :
  Normalizer.slugChain (Normalizer.slugChain l) = Normalizer.slugChain l.
Proof.
  rewrite (slugChain_words (Normalizer.slugChain l)).
  rewrite toLowerCase_fixed
    by (rewrite slugChain_words; apply words_Forall;
        [reflexivity | apply toLowerCase_lowered]).
  destruct (slugChain_form l) as [x [-> Hh]].
  apply words_hyphenated. exact Hh.
Qed.

(** X2: [titleToSlug] is idempotent: the key of a key is the key. *)
Theorem titleToSlug_idempotent (title : string) :
  Normalizer.titleToSlug (Normalizer.titleToSlug title) = Normalizer.titleToSlug title.
Proof.
  rewrite !titleToSlug_chain, chars_str, slugChain_fixed. reflexivity.
Qed.

Lemma normalizeTitle_chain t :
  Normalizer.normalizeTitle t =
  Normalizer.str (Text.replaceRuns Char.is_space Char.space false
                    (Text.trim (Text.toLowerCase (Normalizer.chars t)))).
Proof.
  unfold Normalizer.normalizeTitle. case_bool_decide as Ht; [|reflexivity].
  subst t. reflexivity.
Qed.

Lemma normalizeSlug_chain s :
  Normalizer.normalizeSlug s =
  Normalizer.str
    (Text.trimHyphens
       (Text.replaceRuns Char.is_hyphen Char.hyphen false
          (Text.replaceRuns Char.is_space Char.hyphen false
             (Text.trim (Text.toLowerCase (Normalizer.chars s)))))).
Proof.
  unfold Normalizer.normalizeSlug. case_bool_decide as Hs; [|reflexivity].
  subst s. reflexivity.
Qed.

Lemma keyChar_not_special c : Slug.keyChar c -> Char.is_special c = false.
Proof. intros [-> | [Hw _]]; [reflexivity | apply word_not_special; exact Hw]. Qed.

(** On a string without a character that [titleToSlug] removes,
    [normalizeSlug] and [titleToSlug] agree. *)
Lemma normalizeSlug_plain s :
  Forall (fun c => Char.is_special c = false) (Normalizer.chars s) ->
  Normalizer.normalizeSlug s = Normalizer.titleToSlug s.
Proof.
  intros H. rewrite normalizeSlug_chain, titleToSlug_chain.
  unfold Normalizer.slugChain. rewrite removeSpecial_fixed; [reflexivity|].
  apply trim_Forall. unfold Text.toLowerCase. apply Forall_map.
  eapply Forall_impl; [exact H|]. intros c Hc. simpl. rewrite lower_special_eq. exact Hc.
Qed.

Lemma normalizeSlug_key s :
  Normalizer.normalizeSlug (Normalizer.titleToSlug s) = Normalizer.titleToSlug s.
Proof.
  rewrite normalizeSlug_plain.
  - rewrite !titleToSlug_chain, chars_str, slugChain_fixed. reflexivity.
  - rewrite titleToSlug_chain, chars_str.
    eapply Forall_impl; [apply (proj1 (slugChain_shaped _))|].
    intros c. apply keyChar_not_special.
Qed.

Lemma slugChain_comparison l :
  Normalizer.slugChain
    (Text.replaceRuns Char.is_space Char.space false (Text.trim (Text.toLowerCase l))) =
  Normalizer.slugChain l.
Proof.
  rewrite !slugChain_words.
  rewrite toLowerCase_fixed
    by (apply replaceRuns_Forall; [reflexivity | apply trim_Forall, toLowerCase_lowered]).
  rewrite (proj1 (words_replaceRuns Char.is_space Char.space
                    space_separator eq_refl _ _)).
  rewrite words_trim. reflexivity.
Qed.

Lemma comparison_key a b :
  Normalizer.normalizeTitle a = Normalizer.normalizeTitle b ->
  Normalizer.titleToSlug a = Normalizer.titleToSlug b.
Proof.
  intros H. rewrite !normalizeTitle_chain in H.
  apply (f_equal Normalizer.chars) in H. rewrite !chars_str in H.
  rewrite !titleToSlug_chain. f_equal.
  rewrite <- (slugChain_comparison (Normalizer.chars a)), H.
  apply slugChain_comparison.
Qed.

(** X4: The identity key of a title is the identity key of its comparison
    form: titles with the same [normalizeTitle] have the same key. *)
Theorem titleToSlug_normalizeTitle (title other : string) :
  Normalizer.titleToSlug (Normalizer.normalizeTitle title) =
    Normalizer.titleToSlug title /\
  (Normalizer.normalizeTitle title = Normalizer.normalizeTitle other ->
   Normalizer.titleToSlug title = Normalizer.titleToSlug other).
Proof.
  split; [|apply comparison_key].
  rewrite !titleToSlug_chain, normalizeTitle_chain, chars_str.
  rewrite slugChain_comparison. reflexivity.
Qed.

(** ** Characters that pass through [normalizeSlug] *)

Lemma trimStart_keeps c l :
  c ∈ l -> Char.is_space c = false -> c ∈ Text.trimStart l.
Proof.
  intros Hin Hc. induction l as [|d l IH]; [exact Hin|]. simpl.
  destruct (Char.is_space d) eqn:Hd; [|exact Hin].
  apply elem_of_cons in Hin. destruct Hin as [-> | Hin]; [congruence | apply IH; exact Hin].
Qed.

Lemma elem_of_rev (c : ascii) l : c ∈ rev l <-> c ∈ l.
Proof. rewrite !list_elem_of_In. symmetry. apply in_rev. Qed.

Lemma trim_keeps c l : c ∈ l -> Char.is_space c = false -> c ∈ Text.trim l.
Proof.
  intros Hin Hc. unfold Text.trim, Text.trimEnd.
  apply elem_of_rev, trimStart_keeps; [|exact Hc].
  apply elem_of_rev, trimStart_keeps; assumption.
Qed.

Lemma replaceRuns_keeps cls sep c l :
  c ∈ l -> cls c = false -> forall b, c ∈ Text.replaceRuns cls sep b l.
Proof.
  intros Hin Hc. induction l as [|d l IH]; intros b; [exact Hin|]. simpl.
  apply elem_of_cons in Hin. destruct Hin as [<- | Hin].
  - rewrite Hc. apply list_elem_of_here.
  - destruct (cls d); [destruct b|]; repeat apply list_elem_of_further; apply IH; exact Hin.
Qed.

Lemma dropLeadingHyphen_keeps c l :
  c ∈ l -> Char.is_hyphen c = false -> c ∈ Text.dropLeadingHyphen l.
Proof.
  intros Hin Hc. destruct l as [|d l]; [exact Hin|]. simpl.
  destruct (Char.is_hyphen d) eqn:Hd; [|exact Hin].
  apply elem_of_cons in Hin. destruct Hin as [-> | Hin]; [congruence | exact Hin].
Qed.

Lemma dropTrailingHyphen_keeps c l :
  c ∈ l -> Char.is_hyphen c = false -> c ∈ Text.dropTrailingHyphen l.
Proof.
  intros Hin Hc. induction l as [|d l IH]; [exact Hin|].
  rewrite dropTrailingHyphen_cons. destruct l as [|d' l'].
  - apply list_elem_of_singleton in Hin. subst d. rewrite Hc. apply list_elem_of_here.
  - apply elem_of_cons in Hin. destruct Hin as [-> | Hin];
      [apply list_elem_of_here | apply list_elem_of_further, IH; exact Hin].
Qed.

Lemma special_not_space c : Char.is_special c = true -> Char.is_space c = false.
Proof. each_char c. Qed.

Lemma special_not_hyphen c : Char.is_special c = true -> Char.is_hyphen c = false.
Proof. each_char c. Qed.

(** When [normalizeSlug] gives a string in the shape of a key, it gives
    the key that [titleToSlug] gives. *)
Lemma normalizeSlug_shaped s :
  Slug.shaped (Normalizer.chars (Normalizer.normalizeSlug s)) ->
  Normalizer.normalizeSlug s = Normalizer.titleToSlug s.
Proof.
  intros [Hshape _]. apply normalizeSlug_plain.
  apply Forall_forall. intros c Hin.
  destruct (Char.is_special c) eqn:Hc; [exfalso | reflexivity].
  rewrite normalizeSlug_chain, chars_str in Hshape.
  rewrite Forall_forall in Hshape.
  assert (Char.is_special (Char.toLowerCase c) = true) as Hl
    by (rewrite lower_special_eq; exact Hc).
  pose proof (keyChar_not_special (Char.toLowerCase c)) as Hkey.
  rewrite Hkey in Hl; [discriminate|]. apply Hshape.
  unfold Text.trimHyphens.
  apply dropTrailingHyphen_keeps; [|apply special_not_hyphen; exact Hl].
  apply dropLeadingHyphen_keeps; [|apply special_not_hyphen; exact Hl].
  apply replaceRuns_keeps; [|apply special_not_hyphen; exact Hl].
  apply replaceRuns_keeps; [|apply special_not_space; exact Hl].
  apply trim_keeps; [|apply special_not_space; exact Hl].
  unfold Text.toLowerCase. apply list_elem_of_fmap_2. exact Hin.
Qed.

(** X3: [normalizeSlug] leaves an identity key as it is, so a lookup by the
    key of a title is a lookup by that very key.  More generally it agrees
    with [titleToSlug] on every string without a character that
    [titleToSlug] removes, and whenever it gives a string in the shape of
    a key. *)
Theorem normalizeSlug_titleToSlug (s : string) :
  Normalizer.normalizeSlug (Normalizer.titleToSlug s) = Normalizer.titleToSlug s /\
  (Forall (fun c => Char.is_special c = false) (Normalizer.chars s) ->
   Normalizer.normalizeSlug s = Normalizer.titleToSlug s) /\
  (Slug.shaped (Normalizer.chars (Normalizer.normalizeSlug s)) ->
   Normalizer.normalizeSlug s = Normalizer.titleToSlug s).
Proof.
  split; [apply normalizeSlug_key|].
  split; [apply normalizeSlug_plain | apply normalizeSlug_shaped].
Qed.

(** ** [matchesQuery] *)

Lemma includes_refl s : Text.includes s s = true.
Proof. apply includes_spec. exists [], []. rewrite app_nil_r. reflexivity. Qed.

Lemma includes_trans a b c :
  Text.includes a b = true -> Text.includes b c = true -> Text.includes a c = true.
Proof.
  rewrite !includes_spec. intros [a1 [a2 ->]] [b1 [b2 ->]].
  exists (a1 ++ b1), (b2 ++ a2). rewrite <- !app_assoc. reflexivity.
Qed.

Lemma normalizeTitle_blank query :
  Matching.blank query -> Normalizer.normalizeTitle query = EmptyString.
Proof.
  intros H. rewrite normalizeTitle_chain, trim_spaces; [reflexivity|].
  unfold Text.toLowerCase. apply Forall_map.
  eapply Forall_impl; [exact H|]. intros c Hc. apply lower_space. exact Hc.
Qed.

(** X5: [matchesQuery] holds between a title and itself, composes (a query
    that matches a query that matches the title matches the title), and
    holds for every title when the query is blank. *)
Theorem matchesQuery_preorder :
  (forall t, Lookup.matchesQuery t t = true) /\
  (forall a b c,
     Lookup.matchesQuery a b = true -> Lookup.matchesQuery b c = true ->
     Lookup.matchesQuery a c = true) /\
  (forall t q, Matching.blank q -> Lookup.matchesQuery t q = true).
Proof.
  unfold Lookup.matchesQuery, Normalizer.includes. split; [|split].
  - intros t. apply includes_refl.
  - intros a b c. apply includes_trans.
  - intros t q Hq. rewrite (normalizeTitle_blank _ Hq). simpl.
    destruct (Normalizer.chars _); reflexivity.
Qed.

(** ** The records behind the keys, the titles and the windows *)

Lemma slugOrder_snoc hist t :
  Index.slugOrder (hist ++ [t]) =
  match Build.slugOf (snd t) with
  | Some k => Build.addNew (Index.slugOrder hist) k
  | None => Index.slugOrder hist
  end.
Proof.
  unfold Index.slugOrder. rewrite omap_app. simpl.
  destruct (Build.slugOf (snd t)); simpl.
  - rewrite foldl_app. reflexivity.
  - rewrite app_nil_r. reflexivity.
Qed.

Lemma firstTitle_snoc hist t k :
  Index.firstTitle (hist ++ [t]) k =
  match Index.firstTitle hist k with
  | Some s => Some s
  | None => Index.titleFor k t
  end.
Proof.
  unfold Index.firstTitle. rewrite omap_app.
  destruct (omap (Index.titleFor k) hist) as [|s l]; simpl;
    [destruct (Index.titleFor k t)|]; reflexivity.
Qed.

Lemma titleFor_slugOf k t :
  Index.titleFor k t = None <-> Build.slugOf (snd t) <> Some k.
Proof.
  unfold Index.titleFor, Build.slugOf. destruct (Parsed.title (snd t)) as [s|].
  - case_bool_decide as Hk.
    + split; [discriminate | intros H; exfalso; apply H; congruence].
    + split; [intros _; congruence | reflexivity].
  - split; [discriminate | reflexivity].
Qed.

Lemma firstTitle_None hist k :
  k ∉ Index.slugOrder hist -> Index.firstTitle hist k = None.
Proof.
  induction hist as [|t hist IH] using rev_ind; intros H; [reflexivity|].
  rewrite firstTitle_snoc. rewrite slugOrder_snoc in H.
  destruct (Build.slugOf (snd t)) as [k2|] eqn:Hs.
  - rewrite addNew_elem in H. rewrite IH by tauto.
    apply titleFor_slugOf. rewrite Hs. intros [= ->]. tauto.
  - rewrite IH by exact H. apply titleFor_slugOf. rewrite Hs. discriminate.
Qed.

Lemma firstTitle_slug hist k s :
  Index.firstTitle hist k = Some s -> Normalizer.titleToSlug s = k.
Proof.
  induction hist as [|t hist IH] using rev_ind; [discriminate|].
  rewrite firstTitle_snoc. destruct (Index.firstTitle hist k) as [s2|].
  - intros [= ->]. apply IH. reflexivity.
  - unfold Index.titleFor. destruct (Parsed.title (snd t)) as [s2|]; [|discriminate].
    case_bool_decide as Hk; [|discriminate]. intros [= ->]. exact Hk.
Qed.

Lemma seenWindows_snoc hist t k n :
  Index.seenWindows (hist ++ [t]) k n =
  if Build.isPair k n t
  then DataService.setKey (Build.windowOf t) (Index.seenWindows hist k n)
  else Index.seenWindows hist k n.
Proof.
  unfold Index.seenWindows. rewrite List.filter_app. simpl.
  destruct (Build.isPair k n t); [|rewrite app_nil_r; reflexivity].
  rewrite map_app, List.filter_app. simpl. unfold DataService.setKey.
  case_bool_decide as Hw; simpl.
  - rewrite app_nil_r. reflexivity.
  - rewrite list_to_set_app_L. simpl. rewrite union_empty_r_L. apply union_comm_L.
Qed.

Lemma pairs_undiscovered hist k n :
  n ∉ Build.discovery hist k -> List.filter (Build.isPair k n) hist = [].
Proof.
  induction hist as [|t hist IH] using rev_ind; intros H; [reflexivity|].
  rewrite List.filter_app. rewrite discovery_snoc in H.
  destruct (Build.isFor k t) eqn:Hf.
  - rewrite addNew_elem in H. rewrite IH by tauto. simpl.
    unfold Build.isPair. rewrite Hf. simpl.
    rewrite bool_decide_eq_false_2 by (intros Heq; apply H; right; congruence).
    reflexivity.
  - rewrite IH by exact H. simpl. unfold Build.isPair. rewrite Hf. reflexivity.
Qed.

Lemma seenWindows_undiscovered hist k n :
  n ∉ Build.discovery hist k -> Index.seenWindows hist k n = ∅.
Proof.
  intros H. unfold Index.seenWindows. rewrite pairs_undiscovered by exact H. reflexivity.
Qed.

(** A problem of the index has a record, hence a company. *)
Lemma discovery_of_known hist k :
  k ∈ Index.slugOrder hist -> Build.discovery hist k <> [].
Proof.
  assert (forall l n, Build.addNew l n <> []) as Hne.
  { intros l n. unfold Build.addNew. case_bool_decide as Hn.
    - intros ->. apply elem_of_nil in Hn. exact Hn.
    - intros H. apply app_eq_nil in H. destruct H as [_ H]. discriminate. }
  induction hist as [|t hist IH] using rev_ind; intros H.
  - apply elem_of_nil in H. contradiction.
  - rewrite discovery_snoc. rewrite slugOrder_snoc in H.
    unfold Build.isFor. destruct (Build.slugOf (snd t)) as [k2|] eqn:Hs.
    + case_bool_decide as Hk; [apply Hne|].
      apply IH. apply addNew_elem in H. destruct H as [H | ->]; [exact H | congruence].
    + rewrite bool_decide_eq_false_2 by discriminate. apply IH. exact H.
Qed.

Lemma described_nil : Index.described [] [].
Proof.
  split; [reflexivity|]. intros k p H. apply elem_of_nil in H. contradiction.
Qed.

Lemma described_step hist pm t pm' :
  Build.consistent hist pm ->
  Index.described hist pm ->
  Build.recordStep pm t = Ok pm' ->
  Index.described (hist ++ [t]) pm'.
Proof.
  intros Hc [Hkeys Hent] Hstep. destruct t as [[company w] r].
  destruct (Parsed.title r) as [s|] eqn:Ht;
    [|rewrite recordStep_not_string in Hstep by exact Ht; discriminate].
  rewrite (recordStep_string _ _ _ _ _ Ht) in Hstep. injection Hstep as <-.
  set (sl := Normalizer.titleToSlug s) in *.
  set (fresh := {| DataService.problem := s; DataService.slug := sl;
                   DataService.companies := [] |}) in *.
  set (pm1 := if JsMap.has sl pm then pm else JsMap.set sl fresh pm).
  assert (Build.slugOf r = Some sl) as Hslug
    by (unfold Build.slugOf; rewrite Ht; reflexivity).
  assert (forall k, Build.isFor k (company, w, r) = bool_decide (sl = k)) as HisFor.
  { intros k. unfold Build.isFor. simpl. rewrite Hslug.
    apply bool_decide_ext. split; congruence. }
  assert (Index.titleFor sl (company, w, r) = Some s) as Htitle.
  { unfold Index.titleFor. simpl. rewrite Ht. fold sl.
    rewrite bool_decide_eq_true_2 by reflexivity. reflexivity. }
  (* the map after the registration of the key *)
  assert (Build.consistent hist pm1 /\
          map fst pm1 = Build.addNew (map fst pm) sl /\
          forall k p, (k, p) ∈ pm1 ->
            Index.firstTitle (hist ++ [(company, w, r)]) k = Some (DataService.problem p) /\
            forall c, c ∈ DataService.companies p ->
              DataService.timeRanges c = Index.seenWindows hist k (DataService.name c) /\
              DataService.last_seen c =
                Some (DataService.getShortestRange (DataService.timeRanges c)))
    as (Hc1 & Hkeys1 & Hent1).
  { subst pm1. destruct (JsMap.has sl pm) eqn:Hhas.
    - apply has_true in Hhas. split; [exact Hc|]. split.
      + unfold Build.addNew. rewrite bool_decide_eq_true_2 by exact Hhas. reflexivity.
      + intros k p Hin. destruct (Hent _ _ Hin) as [Hf Hw].
        rewrite firstTitle_snoc, Hf. split; [reflexivity | exact Hw].
    - assert (sl ∉ map fst pm) as Hk.
      { intros Hin. apply has_true in Hin. congruence. }
      split; [apply consistent_register; assumption|]. split.
      + rewrite set_absent by exact Hk. rewrite map_app.
        unfold Build.addNew. rewrite bool_decide_eq_false_2 by exact Hk. reflexivity.
      + rewrite set_absent by exact Hk. intros k p Hin.
        apply elem_of_app in Hin. destruct Hin as [Hin | Hin].
        * destruct (Hent _ _ Hin) as [Hf Hw].
          rewrite firstTitle_snoc, Hf. split; [reflexivity | exact Hw].
        * apply list_elem_of_singleton in Hin. injection Hin as -> ->.
          rewrite firstTitle_snoc, firstTitle_None by (rewrite <- Hkeys; exact Hk).
          split; [exact Htitle|]. intros c Hin. apply elem_of_nil in Hin. contradiction. }
  destruct Hc1 as (Hnd1 & _ & Hcons1).
  split.
  - rewrite alter_keys, Hkeys1, slugOrder_snoc. simpl. rewrite Hslug, Hkeys. reflexivity.
  - intros k p' Hin.
    destruct (alter_elem _ _ _ _ _ Hnd1 Hin) as [[Hne Hin'] | [-> [p [Hin' ->]]]].
    + destruct (Hent1 _ _ Hin') as [Hf Hw]. split; [exact Hf|].
      intros c Hcin. rewrite seenWindows_snoc. unfold Build.isPair.
      rewrite HisFor. rewrite bool_decide_eq_false_2 by congruence.
      apply Hw. exact Hcin.
    + destruct (Hent1 _ _ Hin') as [Hf Hw]. destruct (Hcons1 _ _ Hin') as (_ & Hn & _).
      simpl. split; [exact Hf|].
      intros c Hcin. rewrite seenWindows_snoc. unfold Build.isPair.
      rewrite HisFor. rewrite bool_decide_eq_true_2 by reflexivity.
      simpl andb. unfold Build.companyOf, Build.windowOf. simpl fst. simpl snd.
      assert (NoDup (map DataService.name (DataService.companies p))) as Hnames
        by (rewrite Hn; apply discovery_NoDup).
      destruct (foldCompany_elem _ _ _ _ _ Hnames Hcin)
        as [[Hc' Hne] | [c0 [Hc0 [Hn0 ->]]]].
      * rewrite bool_decide_eq_false_2 by congruence. apply Hw. exact Hc'.
      * simpl. rewrite Hn0. rewrite bool_decide_eq_true_2 by reflexivity.
        split; [|reflexivity]. f_equal.
        destruct Hc0 as [Hc0 | [Hnew ->]].
        -- rewrite <- Hn0. apply Hw. exact Hc0.
        -- rewrite Hn in Hnew. simpl.
           rewrite seenWindows_undiscovered by exact Hnew. reflexivity.
Qed.

(** The index of a build that returns is the sorted form of a map that
    agrees with the records and describes them. *)
Lemma build_described parsedData st st' :
  DataService.buildProblemIndex parsedData st = (Ok tt, st') ->
  exists pm,
    Build.consistent (Build.records parsedData) pm /\
    Index.described (Build.records parsedData) pm /\
    DataService.problemMap st' = DataService.sortCompanies pm /\
    DataService.totalProblems st' = List.length pm.
Proof.
  intros Hb. pose proof (buildProblemIndex_outcome parsedData st) as Ho.
  unfold DataService.buildLocals in Ho.
  destruct (foldM DataService.processCompany DataService.emptyLocals parsedData)
    as [acc|e] eqn:Hf; simpl in Ho; rewrite Ho in Hb; [|discriminate].
  injection Hb as <-. simpl.
  exists (DataService.l_problemMap acc).
  pose proof (records_of_data parsedData DataService.emptyLocals) as Hr.
  rewrite Hf in Hr. simpl in Hr.
  pose proof (foldM_history Build.recordStep
                (fun h pm => Build.consistent h pm /\ Index.described h pm)) as Hh.
  destruct (Hh (fun h a x a' Hi Hx =>
                  conj (consistent_step _ _ _ _ (proj1 Hi) Hx)
                       (described_step _ _ _ _ (proj1 Hi) (proj2 Hi) Hx))
               _ [] _ _ (conj consistent_nil described_nil) Hr) as [H1 H2].
  split; [exact H1|]. split; [exact H2|]. split; [reflexivity|].
  unfold JsMap.size, DataService.sortCompanies. apply length_map.
Qed.

Lemma sortCompanies_keys pm : map fst (DataService.sortCompanies pm) = map fst pm.
Proof.
  unfold DataService.sortCompanies. rewrite map_map. simpl. reflexivity.
Qed.

Lemma discovery_elem hist k n :
  n ∈ Build.discovery hist k <-> exists t, t ∈ hist /\ Build.isPair k n t = true.
Proof.
  induction hist as [|t hist IH] using rev_ind.
  - split; [intros H; apply elem_of_nil in H; contradiction|].
    intros [t [H _]]. apply elem_of_nil in H. contradiction.
  - rewrite discovery_snoc. split.
    + intros H. destruct (Build.isFor k t) eqn:Hf.
      * apply addNew_elem in H. destruct H as [H | ->].
        -- apply IH in H. destruct H as [t' [Hin Hp]]. exists t'.
           split; [apply elem_of_app; left; exact Hin | exact Hp].
        -- exists t. split; [apply elem_of_app; right; apply list_elem_of_here|].
           unfold Build.isPair. rewrite Hf. simpl. apply bool_decide_eq_true. reflexivity.
      * apply IH in H. destruct H as [t' [Hin Hp]]. exists t'.
        split; [apply elem_of_app; left; exact Hin | exact Hp].
    + intros [t' [Hin Hp]]. apply elem_of_app in Hin. destruct Hin as [Hin | Hin].
      * assert (n ∈ Build.discovery hist k) as H by (apply IH; exists t'; tauto).
        destruct (Build.isFor k t); [apply addNew_elem; left|]; exact H.
      * apply list_elem_of_singleton in Hin. subst t'.
        unfold Build.isPair in Hp. apply andb_true_iff in Hp. destruct Hp as [Hf Hn].
        rewrite Hf. apply bool_decide_eq_true in Hn. apply addNew_elem. right.
        symmetry. exact Hn.
Qed.

(** X6: After a build that returns, the keys of the index are the identity
    keys of the records, each once, in the order in which they were first
    seen; [totalProblems] is their number, and every entry is stored under
    its own [slug]. *)
Theorem index_keys parsedData st st' :
  DataService.buildProblemIndex parsedData st = (Ok tt, st') ->
  map fst (DataService.problemMap st') = Index.slugOrder (Build.records parsedData) /\
  NoDup (map fst (DataService.problemMap st')) /\
  DataService.totalProblems st' =
    List.length (Index.slugOrder (Build.records parsedData)) /\
  (forall k p, (k, p) ∈ DataService.problemMap st' -> DataService.slug p = k).
Proof.
  intros Hb.
  destruct (build_described _ _ _ Hb) as [pm [(Hnd & _ & Hent) [[Hkeys _] [Hpm Htotal]]]].
  rewrite Hpm, sortCompanies_keys, Htotal, <- Hkeys, length_map.
  split; [reflexivity|]. split; [exact Hnd|]. split; [reflexivity|].
  intros k p Hin. apply sortCompanies_elem in Hin. destruct Hin as [p0 [Hin ->]].
  simpl. apply (Hent _ _ Hin).
Qed.

(** X7: The display title of a problem is the title of the first record with
    the problem's key: later spellings do not replace it. *)
Theorem index_first_title parsedData st st' k p :
  DataService.buildProblemIndex parsedData st = (Ok tt, st') ->
  (k, p) ∈ DataService.problemMap st' ->
  Index.firstTitle (Build.records parsedData) k = Some (DataService.problem p) /\
  Normalizer.titleToSlug (DataService.problem p) = k.
Proof.
  intros Hb Hin.
  destruct (build_described _ _ _ Hb) as [pm [_ [[_ Hent] [Hpm _]]]].
  rewrite Hpm in Hin. apply sortCompanies_elem in Hin. destruct Hin as [p0 [Hin ->]].
  simpl. destruct (Hent _ _ Hin) as [Hf _].
  split; [exact Hf | eapply firstTitle_slug; exact Hf].
Qed.

(** X8: Every problem of the index lists at least one company, no company
    twice, and exactly the companies that have a record of the problem. *)
Theorem index_companies parsedData st st' k p :
  DataService.buildProblemIndex parsedData st = (Ok tt, st') ->
  (k, p) ∈ DataService.problemMap st' ->
  DataService.companies p <> [] /\
  NoDup (map DataService.name (DataService.companies p)) /\
  (forall n, n ∈ map DataService.name (DataService.companies p) <->
             exists t, t ∈ Build.records parsedData /\ Build.isPair k n t = true).
Proof.
  intros Hb Hin.
  destruct (build_described _ _ _ Hb) as [pm [(_ & _ & Hent) [[Hkeys _] [Hpm _]]]].
  rewrite Hpm in Hin. apply sortCompanies_elem in Hin. destruct Hin as [p0 [Hin ->]].
  destruct (Hent _ _ Hin) as (_ & Hn & _). simpl.
  assert (map DataService.name (DataService.sort DataService.byFrequency
                                  (DataService.companies p0))
          ≡ₚ Build.discovery (Build.records parsedData) k) as Hperm
    by (rewrite <- Hn; apply fmap_Permutation, sort_perm).
  split; [|split].
  - intros Hnil. rewrite Hnil in Hperm. simpl in Hperm.
    apply Permutation_nil_l in Hperm.
    eapply discovery_of_known; [|symmetry; exact Hperm].
    rewrite <- Hkeys. apply (list_elem_of_fmap_2 fst _ _ Hin).
  - rewrite Hperm. apply discovery_NoDup.
  - intros n. rewrite Hperm. apply discovery_elem.
Qed.

(** X9: For every company of a problem, [timeRanges] holds the window labels
    of the records of the pair ([__proto__] apart), and [last_seen] is
    [getShortestRange] of them. *)
Theorem index_windows parsedData st st' k p c :
  DataService.buildProblemIndex parsedData st = (Ok tt, st') ->
  (k, p) ∈ DataService.problemMap st' ->
  c ∈ DataService.companies p ->
  DataService.timeRanges c =
    Index.seenWindows (Build.records parsedData) k (DataService.name c) /\
  DataService.last_seen c =
    Some (DataService.getShortestRange (DataService.timeRanges c)).
Proof.
  intros Hb Hin Hc.
  destruct (build_described _ _ _ Hb) as [pm [_ [[_ Hent] [Hpm _]]]].
  rewrite Hpm in Hin. apply sortCompanies_elem in Hin. destruct Hin as [p0 [Hin ->]].
  simpl in Hc. rewrite (sort_perm DataService.byFrequency) in Hc.
  apply (proj2 (Hent _ _ Hin)). exact Hc.
Qed.

Lemma firstIncluded_None ranges l :
  DataService.firstIncluded ranges l = None -> forall w, w ∈ l -> w ∉ ranges.
Proof.
  induction l as [|x l IH]; simpl; intros H w Hw.
  - apply elem_of_nil in Hw. contradiction.
  - case_bool_decide as Hx; [discriminate|].
    apply elem_of_cons in Hw. destruct Hw as [->|Hw]; [exact Hx | apply IH; assumption].
Qed.

Lemma firstIncluded_Some ranges l r :
  DataService.firstIncluded ranges l = Some r -> r ∈ l /\ r ∈ ranges.
Proof.
  induction l as [|x l IH]; simpl; [discriminate|].
  case_bool_decide as Hx.
  - intros [= <-]. split; [apply list_elem_of_here | exact Hx].
  - intros H. destruct (IH H) as [H1 H2].
    split; [apply list_elem_of_further; exact H1 | exact H2].
Qed.

Lemma firstIncluded_first ranges l :
  NoDup l ->
  forall r a b, DataService.firstIncluded ranges l = Some r -> l = a ++ r :: b ->
  forall w, w ∈ a -> w ∉ ranges.
Proof.
  induction l as [|x l IH]; intros Hnd r a b Hf Heq w Hw.
  - destruct a; discriminate.
  - apply NoDup_cons in Hnd. destruct Hnd as [Hx Hnd].
    destruct a as [|y a]; [apply elem_of_nil in Hw; contradiction|].
    simpl in Heq. injection Heq as <- Heq. simpl in Hf.
    case_bool_decide as Hin.
    + injection Hf as <-. exfalso. apply Hx. rewrite Heq.
      apply elem_of_app. right. apply list_elem_of_here.
    + apply elem_of_cons in Hw. destruct Hw as [->|Hw]; [exact Hin|].
      apply (IH Hnd r a b Hf Heq w Hw).
Qed.

Lemma order_NoDup : NoDup DataService.order.
Proof.
  unfold DataService.order.
  repeat (apply NoDup_cons; split;
          [rewrite ?elem_of_cons, elem_of_nil; intuition discriminate|]).
  apply NoDup_nil. exact I.
Qed.

(** X10: [getShortestRange] returns one of the four windows of the fixed order:
    the first of them that is among the labels, and [all-time] when none
    of them is. *)
Theorem getShortestRange_tightest (ranges : gset string) :
  DataService.getShortestRange ranges ∈ DataService.order /\
  (DataService.getShortestRange ranges ∈ ranges \/
   (DataService.getShortestRange ranges = "all-time" /\
    forall w, w ∈ DataService.order -> w ∉ ranges)) /\
  (forall w, Index.tighter w (DataService.getShortestRange ranges) -> w ∉ ranges).
Proof.
  unfold DataService.getShortestRange, Index.tighter.
  destruct (DataService.firstIncluded ranges DataService.order) as [r|] eqn:Hf.
  - destruct (firstIncluded_Some _ _ _ Hf) as [Hl Hr].
    split; [exact Hl|]. split; [left; exact Hr|].
    intros w (a & b & Heq & Hw).
    exact (firstIncluded_first ranges _ order_NoDup r a b Hf Heq w Hw).
  - split; [unfold DataService.order; rewrite !elem_of_cons; tauto|].
    split; [right; split; [reflexivity | apply firstIncluded_None; exact Hf]|].
    intros w (a & b & Heq & Hw). apply (firstIncluded_None _ _ Hf).
    rewrite Heq. apply elem_of_app. left. exact Hw.
Qed.

(** ** Companies and titles across the three loops *)

Lemma foldM_invariant {A B} (f : A -> B -> result A) (P : A -> Prop) :
  (forall a x a', P a -> f a x = Ok a' -> P a') ->
  forall l a a', P a -> foldM f a l = Ok a' -> P a'.
Proof.
  intros Hstep l a a' Ha Hf.
  apply (foldM_history f (fun _ => P) (fun _ a x a' => Hstep a x a') l [] a a' Ha Hf).
Qed.

(** An invariant of the body of the innermost loop that does not depend
    on the set of companies is an invariant of the three loops. *)
Lemma build_invariant (P : DataService.Locals -> Prop) :
  (forall company w acc r acc',
     P acc -> DataService.processRecord company w acc r = Ok acc' -> P acc') ->
  (forall acc n,
     P acc ->
     P {| DataService.l_problemMap := DataService.l_problemMap acc;
          DataService.l_titleMap := DataService.l_titleMap acc;
          DataService.l_companiesSet := {[n]} ∪ DataService.l_companiesSet acc |}) ->
  forall parsedData acc acc',
    P acc -> foldM DataService.processCompany acc parsedData = Ok acc' -> P acc'.
Proof.
  intros Hrec Hset. apply foldM_invariant.
  intros acc [company trs] acc' Ha. unfold DataService.processCompany. simpl.
  apply foldM_invariant; [|apply Hset; exact Ha].
  intros a [w rs] a' Hp. unfold DataService.processTimeRange. simpl.
  apply foldM_invariant; [|exact Hp].
  intros a1 r a1'. apply Hrec.
Qed.

Lemma processRecord_companiesSet company w acc r acc' :
  DataService.processRecord company w acc r = Ok acc' ->
  DataService.l_companiesSet acc' = DataService.l_companiesSet acc.
Proof.
  unfold DataService.processRecord. destruct (Parsed.title r); simpl; [|discriminate].
  intros [= <-]. reflexivity.
Qed.

Lemma companiesSet_of_data parsedData :
  forall acc acc',
    foldM DataService.processCompany acc parsedData = Ok acc' ->
    DataService.l_companiesSet acc' =
    list_to_set (map fst parsedData) ∪ DataService.l_companiesSet acc.
Proof.
  induction parsedData as [|[company trs] pd IH]; intros acc acc' H; simpl in H.
  - injection H as <-. simpl. rewrite union_empty_l_L. reflexivity.
  - destruct (DataService.processCompany acc (company, trs)) as [a|e] eqn:Hc;
      simpl in H; [|discriminate].
    rewrite (IH _ _ H). simpl.
    assert (DataService.l_companiesSet a = {[company]} ∪ DataService.l_companiesSet acc)
      as ->; [|apply set_eq; intros x; rewrite !elem_of_union; tauto].
    unfold DataService.processCompany in Hc. simpl in Hc.
    revert Hc. apply (foldM_invariant _
      (fun a => DataService.l_companiesSet a =
                {[company]} ∪ DataService.l_companiesSet acc)); [|reflexivity].
    intros a1 [w rs] a1' Ha1. unfold DataService.processTimeRange. simpl.
    apply (foldM_invariant _
      (fun a => DataService.l_companiesSet a =
                {[company]} ∪ DataService.l_companiesSet acc)); [|exact Ha1].
    intros a2 r a2' Ha2 Hr. rewrite (processRecord_companiesSet _ _ _ _ _ Hr). exact Ha2.
Qed.

(** X11: [totalCompanies] is the number of distinct companies of the input,
    whether or not they have a record. *)
Theorem index_totalCompanies parsedData st st' :
  DataService.buildProblemIndex parsedData st = (Ok tt, st') ->
  DataService.totalCompanies st' = size (list_to_set (map fst parsedData) : gset string) /\
  (NoDup (map fst parsedData) ->
   DataService.totalCompanies st' = List.length parsedData).
Proof.
  intros Hb. pose proof (buildProblemIndex_outcome parsedData st) as Ho.
  unfold DataService.buildLocals in Ho.
  destruct (foldM DataService.processCompany DataService.emptyLocals parsedData)
    as [acc|e] eqn:Hf; simpl in Ho; rewrite Ho in Hb; [|discriminate].
  injection Hb as <-. simpl.
  rewrite (companiesSet_of_data _ _ _ Hf). simpl. rewrite union_empty_r_L.
  split; [reflexivity|]. intros Hnd.
  rewrite size_list_to_set by exact Hnd. apply length_map.
Qed.

Lemma alter_withCompanies_elem g sl (pm : JsMap.t DataService.ProblemData) k p' :
  NoDup (map fst pm) ->
  (k, p') ∈ JsMap.alter (DataService.withCompanies g) sl pm ->
  exists p, (k, p) ∈ pm /\ DataService.problem p' = DataService.problem p.
Proof.
  intros Hnd Hin.
  destruct (alter_elem _ _ _ _ _ Hnd Hin) as [[_ H] | [-> [p [H ->]]]].
  - exists p'. split; [exact H | reflexivity].
  - exists p. split; [exact H | reflexivity].
Qed.

Lemma alter_withCompanies_elem_inv g sl (pm : JsMap.t DataService.ProblemData) k p :
  (k, p) ∈ pm ->
  exists p', (k, p') ∈ JsMap.alter (DataService.withCompanies g) sl pm /\
             DataService.problem p' = DataService.problem p.
Proof.
  induction pm as [|[k0 p0] pm IH]; intros Hin.
  - apply elem_of_nil in Hin. contradiction.
  - simpl. apply elem_of_cons in Hin. destruct Hin as [[= -> ->] | Hin].
    + case_bool_decide as Hk; eexists; (split; [apply list_elem_of_here | reflexivity]).
    + case_bool_decide as Hk.
      * exists p. split; [apply list_elem_of_further; exact Hin | reflexivity].
      * destruct (IH Hin) as [p' [H Hp]]. exists p'.
        split; [apply list_elem_of_further; exact H | exact Hp].
Qed.

Lemma titled_step company w acc r acc' :
  DataService.processRecord company w acc r = Ok acc' ->
  (NoDup (map fst (DataService.l_problemMap acc)) /\
   (forall k p, (k, p) ∈ DataService.l_problemMap acc ->
                Normalizer.titleToSlug (DataService.problem p) = k) /\
   Index.titled (DataService.l_problemMap acc) (DataService.l_titleMap acc)) ->
  (NoDup (map fst (DataService.l_problemMap acc')) /\
   (forall k p, (k, p) ∈ DataService.l_problemMap acc' ->
                Normalizer.titleToSlug (DataService.problem p) = k) /\
   Index.titled (DataService.l_problemMap acc') (DataService.l_titleMap acc')).
Proof.
  unfold DataService.processRecord. destruct (Parsed.title r) as [s|]; simpl; [|discriminate].
  intros [= <-]. simpl. intros (Hnd & Hkey & Ht1 & Ht2).
  set (sl := Normalizer.titleToSlug s).
  set (fresh := {| DataService.problem := s; DataService.slug := sl;
                   DataService.companies := [] |}).
  set (pm := DataService.l_problemMap acc) in *.
  set (tm := DataService.l_titleMap acc) in *.
  set (pm1 := if JsMap.has sl pm then pm else JsMap.set sl fresh pm).
  set (tm1 := if JsMap.has sl pm then tm
              else <[Normalizer.normalizeTitle s := sl]> tm).
  assert (NoDup (map fst pm1) /\
          (forall k p, (k, p) ∈ pm1 ->
                       Normalizer.titleToSlug (DataService.problem p) = k) /\
          Index.titled pm1 tm1) as (Hnd1 & Hkey1 & Ht11 & Ht12).
  { subst pm1 tm1. destruct (JsMap.has sl pm) eqn:Hhas; [repeat split; assumption|].
    assert (sl ∉ map fst pm) as Hk.
    { intros Hin. apply has_true in Hin. congruence. }
    rewrite set_absent by exact Hk. split; [|split; [|split]].
    - rewrite map_app. apply NoDup_app. split; [exact Hnd|]. split.
      + intros x Hx Hx'. apply list_elem_of_singleton in Hx'. subst x. exact (Hk Hx).
      + apply NoDup_singleton.
    - intros k p Hin. apply elem_of_app in Hin. destruct Hin as [Hin | Hin].
      + apply Hkey. exact Hin.
      + apply list_elem_of_singleton in Hin. injection Hin as -> ->. reflexivity.
    - intros k p Hin. apply elem_of_app in Hin. destruct Hin as [Hin | Hin].
      + destruct (decide (Normalizer.normalizeTitle s =
                          Normalizer.normalizeTitle (DataService.problem p))) as [He|He].
        * rewrite <- He, lookup_insert_eq. f_equal.
          rewrite <- (Hkey _ _ Hin). apply comparison_key. exact He.
        * rewrite lookup_insert_ne by exact He. apply Ht1. exact Hin.
      + apply list_elem_of_singleton in Hin. injection Hin as -> ->. simpl.
        apply lookup_insert_eq.
    - intros nt v Hl.
      destruct (decide (Normalizer.normalizeTitle s = nt)) as [He|He].
      + subst nt. rewrite lookup_insert_eq in Hl. injection Hl as <-.
        exists fresh. split; [apply elem_of_app; right; apply list_elem_of_here|].
        reflexivity.
      + rewrite lookup_insert_ne in Hl by exact He.
        destruct (Ht2 _ _ Hl) as [p [Hin Hv]]. exists p.
        split; [apply elem_of_app; left; exact Hin | exact Hv]. }
  split; [rewrite alter_keys; exact Hnd1|]. split; [|split].
  - intros k p' Hin. destruct (alter_withCompanies_elem _ _ _ _ _ Hnd1 Hin) as [p [Hp ->]].
    apply Hkey1. exact Hp.
  - intros k p' Hin. destruct (alter_withCompanies_elem _ _ _ _ _ Hnd1 Hin) as [p [Hp ->]].
    apply Ht11. exact Hp.
  - intros nt v Hl. destruct (Ht12 _ _ Hl) as [p [Hin ->]].
    destruct (alter_withCompanies_elem_inv
                (DataService.foldCompany company w (Parsed.frequency r)) sl _ _ _ Hin)
      as [p' [Hin' Hp]].
    exists p'. split; [exact Hin' | rewrite Hp; reflexivity].
Qed.

(** After a build that returns, the title lookup and the index go
    together. *)
Lemma build_titled parsedData st st' :
  DataService.buildProblemIndex parsedData st = (Ok tt, st') ->
  NoDup (map fst (DataService.problemMap st')) /\
  (forall k p, (k, p) ∈ DataService.problemMap st' ->
               Normalizer.titleToSlug (DataService.problem p) = k) /\
  Index.titled (DataService.problemMap st') (DataService.titleMap st').
Proof.
  intros Hb. pose proof (buildProblemIndex_outcome parsedData st) as Ho.
  unfold DataService.buildLocals in Ho.
  destruct (foldM DataService.processCompany DataService.emptyLocals parsedData)
    as [acc|e] eqn:Hf; simpl in Ho; rewrite Ho in Hb; [|discriminate].
  injection Hb as <-. simpl.
  revert Hf. intros Hf.
  assert (NoDup (map fst (DataService.l_problemMap acc)) /\
          (forall k p, (k, p) ∈ DataService.l_problemMap acc ->
                       Normalizer.titleToSlug (DataService.problem p) = k) /\
          Index.titled (DataService.l_problemMap acc) (DataService.l_titleMap acc))
    as (Hnd & Hkey & Ht1 & Ht2).
  { refine (build_invariant
              (fun a => NoDup (map fst (DataService.l_problemMap a)) /\
                        (forall k p, (k, p) ∈ DataService.l_problemMap a ->
                           Normalizer.titleToSlug (DataService.problem p) = k) /\
                        Index.titled (DataService.l_problemMap a)
                                     (DataService.l_titleMap a))
              _ _ parsedData _ _ _ Hf).
    - intros company w a r a' Ha Hr. exact (titled_step _ _ _ _ _ Hr Ha).
    - intros a n Ha. exact Ha.
    - simpl. split; [apply NoDup_nil_2|]. split; [|split].
      + intros k p H. apply elem_of_nil in H. contradiction.
      + intros k p H. apply elem_of_nil in H. contradiction.
      + intros nt v H. rewrite lookup_empty in H. discriminate. }
  rewrite sortCompanies_keys. split; [exact Hnd|]. split; [|split].
  - intros k p Hin. apply sortCompanies_elem in Hin. destruct Hin as [p0 [Hin ->]].
    exact (Hkey _ _ Hin).
  - intros k p Hin. apply sortCompanies_elem in Hin. destruct Hin as [p0 [Hin ->]].
    exact (Ht1 _ _ Hin).
  - intros nt v Hl. destruct (Ht2 _ _ Hl) as [p [Hin ->]].
    exists (DataService.withCompanies (DataService.sort DataService.byFrequency) p).
    split; [|reflexivity].
    unfold DataService.sortCompanies.
    apply (list_elem_of_fmap_2
             (fun e => (fst e, DataService.withCompanies
                                 (DataService.sort DataService.byFrequency) (snd e)))
             _ _ Hin).
Qed.

(** ** Lookups *)

Lemma get_Some_elem {V} (k : string) (v : V) (m : JsMap.t V) :
  JsMap.get k m = Some v -> (k, v) ∈ m.
Proof.
  unfold JsMap.get. induction m as [|[k0 v0] m IH]; simpl; [discriminate|].
  case_bool_decide as Hk.
  - intros [= ->]. subst k0. apply list_elem_of_here.
  - intros H. apply list_elem_of_further, IH, H.
Qed.

Lemma get_elem {V} (k : string) (v : V) (m : JsMap.t V) :
  NoDup (map fst m) -> (k, v) ∈ m -> JsMap.get k m = Some v.
Proof.
  unfold JsMap.get. induction m as [|[k0 v0] m IH]; simpl; intros Hnd Hin.
  - apply elem_of_nil in Hin. contradiction.
  - apply NoDup_cons in Hnd. destruct Hnd as [Hk0 Hnd].
    apply elem_of_cons in Hin. destruct Hin as [[= -> ->] | Hin].
    + rewrite bool_decide_eq_true_2 by reflexivity. reflexivity.
    + rewrite bool_decide_eq_false_2; [apply IH; assumption|].
      intros ->. apply Hk0. apply (list_elem_of_fmap_2 fst _ _ Hin).
Qed.

Lemma get_known {V} (k : string) (m : JsMap.t V) :
  k ∈ map fst m -> exists v, JsMap.get k m = Some v.
Proof.
  intros Hin. destruct (JsMap.get k m) as [v|] eqn:Hg; [exists v; reflexivity|].
  apply get_None in Hg. contradiction.
Qed.

(** The windowed answer for a token, once its windows are known. *)
Lemma filterByTimeRange_kept (problemData : DataService.ProblemData) W windows :
  W <> EmptyString ->
  Recency.windowsIncludedFor W = DataService.Ranges windows ->
  DataService.filterByTimeRange problemData (Some W) =
  Ok (DataService.Filtered
        (DataService.problem problemData) (DataService.slug problemData)
        (map DataService.view
           (List.filter
              (fun c => bool_decide
                          (Recency.intersects (DataService.timeRanges c) windows))
              (DataService.companies problemData)))).
Proof.
  intros HW Hw. unfold DataService.filterByTimeRange.
  rewrite bool_decide_eq_false_2 by exact HW.
  unfold Recency.windowsIncludedFor in Hw. rewrite Hw.
  rewrite (filterM_total _
             (fun c => bool_decide (Recency.intersects (DataService.timeRanges c) windows))).
  - reflexivity.
  - intros c. simpl. rewrite some_intersects. reflexivity.
Qed.

Lemma filterByTimeRange_returns (problemData : DataService.ProblemData) timeRange :
  exists a, DataService.filterByTimeRange problemData timeRange = Ok a.
Proof.
  destruct timeRange as [W|]; [|eexists; reflexivity].
  destruct (decide (W = EmptyString)) as [->|HW]; [eexists; reflexivity|].
  destruct (windowsIncludedFor_ranges W) as [windows [Hw _]].
  rewrite (filterByTimeRange_kept _ _ _ HW Hw). eexists; reflexivity.
Qed.

(** With a string as slug or title the two lookups return, and
    [queryBySlug] answers [null] exactly when the canonical form of the
    slug is not a key of the index. *)
Lemma typed_queries_return (st : DataService.State) (slug title : string)
    (timeRange : option string) :
  (exists r, DataService.queryBySlug st slug timeRange = Ok r) /\
  (exists r, DataService.queryByTitle st title timeRange = Ok r) /\
  (DataService.queryBySlug st slug timeRange = Ok None <->
   Normalizer.normalizeSlug slug ∉ map fst (DataService.problemMap st)).
Proof.
  assert (forall s, exists r, DataService.queryBySlug st s timeRange = Ok r) as Hslug.
  { intros s. unfold DataService.queryBySlug.
    destruct (JsMap.get _ _) as [p|]; [|eexists; reflexivity].
    destruct (filterByTimeRange_returns p timeRange) as [a ->]. eexists; reflexivity. }
  split; [apply Hslug|]. split.
  - unfold DataService.queryByTitle.
    destruct (DataService.titleMap st !! _) as [s|]; [|eexists; reflexivity].
    case_bool_decide; [eexists; reflexivity | apply Hslug].
  - unfold DataService.queryBySlug. rewrite <- get_None.
    destruct (JsMap.get _ _) as [p|]; [|split; reflexivity].
    destruct (filterByTimeRange_returns p timeRange) as [a ->]. simpl.
    split; discriminate.
Qed.

(** On a string the lookups for any value are the lookups for strings,
    and a falsy value is looked up as the empty string. *)
Lemma query_of_string (st : DataService.State) (timeRange : option string) :
  (forall s, Query.queryBySlug st (Query.VString s) timeRange =
             DataService.queryBySlug st s timeRange) /\
  (forall s, Query.queryByTitle st (Query.VString s) timeRange =
             DataService.queryByTitle st s timeRange) /\
  Query.queryBySlug st Query.VFalsy timeRange =
    DataService.queryBySlug st EmptyString timeRange /\
  Query.queryByTitle st Query.VFalsy timeRange =
    DataService.queryByTitle st EmptyString timeRange.
Proof.
  assert (forall s, Query.queryBySlug st (Query.VString s) timeRange =
                    DataService.queryBySlug st s timeRange) as Hslug
    by (intros s; reflexivity).
  split; [exact Hslug|]. split; [|split; reflexivity].
  intros s. unfold Query.queryByTitle, DataService.queryByTitle. simpl.
  destruct (DataService.titleMap st !! _) as [k|]; [|reflexivity].
  case_bool_decide; [reflexivity | apply Hslug].
Qed.

(** X12: [queryBySlug] and [queryByTitle] return for every state and
    every window token exactly when the slug or the title is a string or
    falsy; for a truthy value that is not a string, an array of the query
    parser for one, they throw the [TypeError] of [toLowerCase], which the
    router answers with status 500.  On a string they are the lookups for
    strings, and [queryBySlug] answers [null] exactly when the canonical
    form of the slug is not a key of the index. *)
Theorem queries_return (st : DataService.State) (slug title : Query.Value)
    (timeRange : option string) :
  ((exists r, Query.queryBySlug st slug timeRange = Ok r) <-> slug <> Query.VTruthy) /\
  ((exists r, Query.queryByTitle st title timeRange = Ok r) <-> title <> Query.VTruthy) /\
  Query.queryBySlug st Query.VTruthy timeRange =
    Err "TypeError: slug.toLowerCase is not a function" /\
  Query.queryByTitle st Query.VTruthy timeRange =
    Err "TypeError: title.toLowerCase is not a function" /\
  (forall s,
     Query.queryBySlug st (Query.VString s) timeRange =
       DataService.queryBySlug st s timeRange /\
     Query.queryByTitle st (Query.VString s) timeRange =
       DataService.queryByTitle st s timeRange) /\
  (forall s,
     Query.queryBySlug st (Query.VString s) timeRange = Ok None <->
     Normalizer.normalizeSlug s ∉ map fst (DataService.problemMap st)).
Proof.
  destruct (query_of_string st timeRange) as (Hs & Ht & Hsf & Htf).
  split; [|split; [|split; [reflexivity|split; [reflexivity|split]]]].
  - split.
    + intros [r Hr] ->. discriminate.
    + intros Hne. destruct slug as [s| |]; [| |contradiction].
      * rewrite Hs. apply (typed_queries_return st s EmptyString timeRange).
      * rewrite Hsf. apply (typed_queries_return st EmptyString EmptyString timeRange).
  - split.
    + intros [r Hr] ->. discriminate.
    + intros Hne. destruct title as [s| |]; [| |contradiction].
      * rewrite Ht. apply (typed_queries_return st EmptyString s timeRange).
      * rewrite Htf. apply (typed_queries_return st EmptyString EmptyString timeRange).
  - intros s. split; [apply Hs | apply Ht].
  - intros s. rewrite Hs. apply (typed_queries_return st s EmptyString timeRange).
Qed.

Lemma slugOrder_elem hist k :
  k ∈ Index.slugOrder hist <-> exists t, t ∈ hist /\ Build.slugOf (snd t) = Some k.
Proof.
  induction hist as [|t hist IH] using rev_ind.
  - split; [intros H; apply elem_of_nil in H; contradiction|].
    intros [t [H _]]. apply elem_of_nil in H. contradiction.
  - rewrite slugOrder_snoc. split.
    + intros H. destruct (Build.slugOf (snd t)) as [k2|] eqn:Hs.
      * apply addNew_elem in H. destruct H as [H | ->].
        -- apply IH in H. destruct H as [t2 [Hin Hp]]. exists t2.
           split; [apply elem_of_app; left; exact Hin | exact Hp].
        -- exists t. split; [apply elem_of_app; right; apply list_elem_of_here | exact Hs].
      * apply IH in H. destruct H as [t2 [Hin Hp]]. exists t2.
        split; [apply elem_of_app; left; exact Hin | exact Hp].
    + intros [t2 [Hin Hp]]. apply elem_of_app in Hin. destruct Hin as [Hin | Hin].
      * assert (k ∈ Index.slugOrder hist) as H by (apply IH; exists t2; tauto).
        destruct (Build.slugOf (snd t)); [apply addNew_elem; left|]; exact H.
      * apply list_elem_of_singleton in Hin. subst t2. rewrite Hp.
        apply addNew_elem. right. reflexivity.
Qed.

(** X13: Every record of the input can be looked up: after a build that
    returns, [queryBySlug] with the identity key of the record's title
    finds a problem stored under that key that lists the record's
    company. *)
Theorem record_found parsedData st st' t s :
  DataService.buildProblemIndex parsedData st = (Ok tt, st') ->
  t ∈ Build.records parsedData ->
  Parsed.title (snd t) = Parsed.TitleString s ->
  exists p,
    DataService.queryBySlug st' (Normalizer.titleToSlug s) None =
      Ok (Some (DataService.FullClone p)) /\
    DataService.slug p = Normalizer.titleToSlug s /\
    Build.companyOf t ∈ map DataService.name (DataService.companies p).
Proof.
  intros Hb Ht Hs.
  destruct (build_described _ _ _ Hb) as [pm [(_ & _ & Hent) [[Hkeys _] [Hpm _]]]].
  assert (Build.slugOf (snd t) = Some (Normalizer.titleToSlug s)) as Hslug
    by (unfold Build.slugOf; rewrite Hs; reflexivity).
  assert (Normalizer.titleToSlug s ∈ map fst pm) as Hk.
  { rewrite Hkeys. apply slugOrder_elem. exists t. split; assumption. }
  destruct (get_known _ _ Hk) as [p0 Hg].
  pose proof (get_Some_elem _ _ _ Hg) as Hin.
  destruct (Hent _ _ Hin) as (Hsl & Hn & _).
  exists (DataService.withCompanies (DataService.sort DataService.byFrequency) p0).
  split; [|split].
  - unfold DataService.queryBySlug. rewrite normalizeSlug_key, Hpm.
    unfold DataService.sortCompanies, JsMap.get.
    assert (forall m : JsMap.t DataService.ProblemData,
              JsObject.assoc (Normalizer.titleToSlug s)
                (map (fun e => (fst e, DataService.withCompanies
                                         (DataService.sort DataService.byFrequency)
                                         (snd e))) m) =
              option_map (DataService.withCompanies
                            (DataService.sort DataService.byFrequency))
                         (JsObject.assoc (Normalizer.titleToSlug s) m)) as Hmap.
    { induction m as [|[k0 p1] m IH]; simpl; [reflexivity|].
      case_bool_decide; [reflexivity | exact IH]. }
    rewrite Hmap. unfold JsMap.get in Hg. rewrite Hg. reflexivity.
  - exact Hsl.
  - simpl. rewrite (sort_perm DataService.byFrequency), Hn.
    apply discovery_elem. exists t. split; [exact Ht|].
    unfold Build.isPair, Build.isFor. rewrite Hslug.
    rewrite !bool_decide_eq_true_2 by reflexivity. reflexivity.
Qed.

(** X14: After a build that returns, [queryByTitle] answers with a problem
    exactly when the comparison form of the title is that of the display
    title of a problem with a non-empty key; the answer is the one for
    that problem.  Another spelling of the same problem, and the problem
    stored under the empty key, are not found by title. *)
Theorem queryByTitle_found parsedData st st' title timeRange a :
  DataService.buildProblemIndex parsedData st = (Ok tt, st') ->
  (DataService.queryByTitle st' title timeRange = Ok (Some a) <->
   exists k p,
     (k, p) ∈ DataService.problemMap st' /\
     k <> EmptyString /\
     Normalizer.normalizeTitle title = Normalizer.normalizeTitle (DataService.problem p) /\
     DataService.filterByTimeRange p timeRange = Ok a).
Proof.
  intros Hb. destruct (build_titled _ _ _ Hb) as (Hnd & Hkey & Ht1 & Ht2).
  assert (forall k p, (k, p) ∈ DataService.problemMap st' ->
            DataService.queryBySlug st' k timeRange =
            bind (DataService.filterByTimeRange p timeRange) (fun a => Ok (Some a)))
    as Hslug.
  { intros k p Hin. unfold DataService.queryBySlug.
    rewrite <- (Hkey _ _ Hin), normalizeSlug_key, (Hkey _ _ Hin).
    rewrite (get_elem _ _ _ Hnd Hin). reflexivity. }
  unfold DataService.queryByTitle. split.
  - destruct (DataService.titleMap st' !! _) as [v|] eqn:Hl; [|discriminate].
    case_bool_decide as Hv; [discriminate|].
    destruct (Ht2 _ _ Hl) as [p [Hin Hnt]].
    rewrite (Hslug _ _ Hin).
    destruct (DataService.filterByTimeRange p timeRange) as [a'|e] eqn:Hf;
      simpl; [|discriminate].
    intros [= <-]. exists v, p. repeat split; assumption.
  - intros (k & p & Hin & Hk & Hnt & Hf).
    rewrite Hnt, (Ht1 _ _ Hin). rewrite bool_decide_eq_false_2 by exact Hk.
    rewrite (Hslug _ _ Hin), Hf. reflexivity.
Qed.

(** X15: On the maps of a build that returns, [findBestMatch] gives the
    identity key of its input when that key is in the index, and [null]
    otherwise: its three attempts never disagree. *)
Theorem findBestMatch_key parsedData st st' input :
  DataService.buildProblemIndex parsedData st = (Ok tt, st') ->
  Lookup.findBestMatch input (DataService.titleMap st') (DataService.problemMap st') =
  if bool_decide (Normalizer.titleToSlug input ∈ map fst (DataService.problemMap st'))
  then Some (Normalizer.titleToSlug input)
  else None.
Proof.
  intros Hb. destruct (build_titled _ _ _ Hb) as (Hnd & Hkey & Ht1 & Ht2).
  unfold Lookup.findBestMatch.
  destruct (JsMap.has (Normalizer.normalizeSlug input) _) eqn:H1.
  - apply has_true in H1.
    assert (Normalizer.normalizeSlug input = Normalizer.titleToSlug input) as Heq.
    { destruct (get_known _ _ H1) as [p Hg]. apply get_Some_elem in Hg.
      apply normalizeSlug_shaped. rewrite <- (Hkey _ _ Hg).
      rewrite titleToSlug_chain, chars_str. apply slugChain_shaped. }
    rewrite Heq in H1 |- *. rewrite bool_decide_eq_true_2 by exact H1. reflexivity.
  - destruct (DataService.titleMap st' !! _) as [v|] eqn:Hl.
    + destruct (Ht2 _ _ Hl) as [p [Hin Hnt]].
      assert (v = Normalizer.titleToSlug input) as ->.
      { rewrite <- (Hkey _ _ Hin). symmetry. apply comparison_key. exact Hnt. }
      rewrite bool_decide_eq_true_2; [reflexivity|].
      apply (list_elem_of_fmap_2 fst _ _ Hin).
    + destruct (JsMap.has (Normalizer.titleToSlug input) _) eqn:H3.
      * apply has_true in H3. rewrite bool_decide_eq_true_2 by exact H3. reflexivity.
      * rewrite bool_decide_eq_false_2; [reflexivity|].
        intros Hin. apply has_true in Hin. congruence.
Qed.

(** ** Windows *)

Lemma windowsIncludedFor_tightest W windows :
  Recency.windowsIncludedFor W = DataService.Ranges windows -> "30-days" ∈ windows.
Proof.
  assert (forall l : list string,
            bool_decide ("30-days" ∈ l) = true ->
            DataService.Ranges l = DataService.Ranges windows ->
            "30-days" ∈ windows) as Hin.
  { intros l Hl [= <-]. apply bool_decide_eq_true in Hl. exact Hl. }
  unfold Recency.windowsIncludedFor, DataService.targetRange, JsObject.get.
  destruct (JsObject.assoc W DataService.rangeMap) as [v|] eqn:Hv.
  - simpl in Hv.
    repeat (case_bool_decide;
            [injection Hv as <-; apply Hin; vm_compute; reflexivity|]).
    discriminate.
  - case_bool_decide as Hm; [apply Hin; vm_compute; reflexivity|].
    unfold DataService.getIncludedRanges, JsObject.get.
    destruct (JsObject.assoc W DataService.rangeHierarchy) as [l|] eqn:Hl.
    + simpl in Hl.
      repeat (case_bool_decide;
              [injection Hl as <-; apply Hin; vm_compute; reflexivity|]).
      discriminate.
    + rewrite bool_decide_eq_false_2 by exact Hm.
      apply Hin; vm_compute; reflexivity.
Qed.

Lemma windowsIncludedFor_unrecognized token :
  token ∉ Recency.recognized ->
  Recency.windowsIncludedFor token = Recency.windowsIncludedFor "all".
Proof.
  intros H.
  unfold Recency.windowsIncludedFor at 1. unfold DataService.targetRange, JsObject.get.
  rewrite assoc_not_in
    by (intros Hin; apply H; revert Hin; vm_compute map;
        unfold Recency.recognized; rewrite !elem_of_cons; tauto).
  case_bool_decide as Hm; [reflexivity|].
  unfold DataService.getIncludedRanges, JsObject.get.
  rewrite assoc_not_in
    by (intros Hin; apply H; revert Hin; vm_compute map;
        unfold Recency.recognized; rewrite !elem_of_cons; tauto).
  rewrite bool_decide_eq_false_2 by exact Hm. reflexivity.
Qed.

(** X16: A company seen in the tightest window is in every windowed answer,
    whatever the token. *)
Theorem seen_in_30_days_always_kept (problemData : DataService.ProblemData)
    (W : string) (c : DataService.CompanyEntry) :
  W <> EmptyString ->
  c ∈ DataService.companies problemData ->
  "30-days" ∈ DataService.timeRanges c ->
  exists kept,
    DataService.filterByTimeRange problemData (Some W) =
      Ok (DataService.Filtered (DataService.problem problemData)
                               (DataService.slug problemData) kept) /\
    DataService.view c ∈ kept.
Proof.
  intros HW Hc H30. destruct (windowsIncludedFor_ranges W) as [windows [Hw _]].
  rewrite (filterByTimeRange_kept _ _ _ HW Hw). eexists. split; [reflexivity|].
  apply list_elem_of_fmap_2. apply list_elem_of_In, List.filter_In.
  split; [apply list_elem_of_In; exact Hc|].
  apply bool_decide_eq_true. unfold Recency.intersects.
  pose proof (windowsIncludedFor_tightest _ _ Hw) as Hin.
  intros Hempty.
  assert ("30-days" ∈ DataService.timeRanges c ∩ list_to_set windows) as Hx by set_solver.
  rewrite Hempty in Hx. set_solver.
Qed.

(** X17: A token without an entry in the tables, such as [180], is answered
    like [all]. *)
Theorem unrecognized_token_like_all (problemData : DataService.ProblemData)
    (token : string) :
  token <> EmptyString ->
  token ∉ Recency.recognized ->
  DataService.filterByTimeRange problemData (Some token) =
  DataService.filterByTimeRange problemData (Some "all").
Proof.
  intros Hne H. destruct (windowsIncludedFor_ranges "all") as [windows [Hw _]].
  rewrite (filterByTimeRange_kept _ "all" windows) by (discriminate || exact Hw).
  apply filterByTimeRange_kept; [exact Hne|].
  rewrite windowsIncludedFor_unrecognized by exact H. exact Hw.
Qed.

Lemma filter_sublist_weaken {A} (p q : A -> bool) (l : list A) :
  (forall x, p x = true -> q x = true) ->
  List.filter p l `sublist_of` List.filter q l.
Proof.
  intros H. induction l as [|x l IH]; simpl; [constructor|].
  destruct (p x) eqn:Hp.
  - rewrite (H x Hp). apply sublist_skip. exact IH.
  - destruct (q x); [apply sublist_cons|]; exact IH.
Qed.

Lemma kept_sublist (problemData : DataService.ProblemData) ws1 ws2 :
  ws1 ⊆ ws2 ->
  map DataService.view
    (List.filter (fun c => bool_decide
                             (Recency.intersects (DataService.timeRanges c) ws1))
                 (DataService.companies problemData))
  `sublist_of`
  map DataService.view
    (List.filter (fun c => bool_decide
                             (Recency.intersects (DataService.timeRanges c) ws2))
                 (DataService.companies problemData)).
Proof.
  intros Hsub. apply (fmap_sublist DataService.view), filter_sublist_weaken.
  intros c Hc. apply bool_decide_eq_true in Hc. apply bool_decide_eq_true.
  unfold Recency.intersects in *. intros Hempty. apply Hc.
  apply set_eq. intros w. split; [|set_solver].
  intros Hw. apply elem_of_intersection in Hw. destruct Hw as [H1 H2].
  apply elem_of_list_to_set in H2.
  assert (w ∈ DataService.timeRanges c ∩ list_to_set ws2) as Hx.
  { apply elem_of_intersection. split; [exact H1|].
    apply elem_of_list_to_set. apply Hsub. exact H2. }
  rewrite Hempty in Hx. exact Hx.
Qed.

(** X18: The windowed answers are nested: the companies for [30] are among
    those for [60], these among those for [90], these among those for
    [all], in the same order, and the answer for any token is among the
    one for [all], which is among the companies of the problem. *)
Theorem windowed_answers_nested (problemData : DataService.ProblemData)
    (W : string) (l : list DataService.View.Company) :
  W <> EmptyString ->
  DataService.filterByTimeRange problemData (Some W) =
    Ok (DataService.Filtered (DataService.problem problemData)
                             (DataService.slug problemData) l) ->
  exists l30 l60 l90 lall,
    DataService.filterByTimeRange problemData (Some "30") =
      Ok (DataService.Filtered (DataService.problem problemData)
                               (DataService.slug problemData) l30) /\
    DataService.filterByTimeRange problemData (Some "60") =
      Ok (DataService.Filtered (DataService.problem problemData)
                               (DataService.slug problemData) l60) /\
    DataService.filterByTimeRange problemData (Some "90") =
      Ok (DataService.Filtered (DataService.problem problemData)
                               (DataService.slug problemData) l90) /\
    DataService.filterByTimeRange problemData (Some "all") =
      Ok (DataService.Filtered (DataService.problem problemData)
                               (DataService.slug problemData) lall) /\
    l30 `sublist_of` l60 /\ l60 `sublist_of` l90 /\ l90 `sublist_of` lall /\
    lall `sublist_of` map DataService.view (DataService.companies problemData) /\
    l `sublist_of` lall.
Proof.
  intros HW Hl.
  assert (forall (a b : list string), bool_decide (a ⊆ b) = true -> a ⊆ b) as Hdec
    by (intros a b H; apply bool_decide_eq_true in H; exact H).
  do 4 eexists.
  rewrite (filterByTimeRange_kept _ "30" ["30-days"]) by (discriminate || reflexivity).
  rewrite (filterByTimeRange_kept _ "60" ["30-days"; "60-days"])
    by (discriminate || reflexivity).
  rewrite (filterByTimeRange_kept _ "90" ["30-days"; "60-days"; "90-days"])
    by (discriminate || reflexivity).
  rewrite (filterByTimeRange_kept _ "all" DataService.order)
    by (discriminate || reflexivity).
  repeat (split; [reflexivity|]).
  repeat (split; [apply kept_sublist, Hdec; vm_compute; reflexivity|]).
  split.
  - apply (fmap_sublist DataService.view). clear.
    induction (DataService.companies problemData) as [|c l IH];
      simpl; [constructor|].
    destruct (bool_decide _); [apply sublist_skip | apply sublist_cons]; exact IH.
  - destruct (windowsIncludedFor_ranges W) as [windows [Hw Hsub]].
    rewrite (filterByTimeRange_kept _ _ _ HW Hw) in Hl. injection Hl as <-.
    apply kept_sublist. exact Hsub.
Qed.

(** ** Search with any limit *)

Lemma searchLoop_low nq limit entries :
  (limit <= 0)%Z ->
  DataService.searchLoop nq limit entries [] =
  take 1 (map (fun e => DataService.hit (snd e))
              (List.filter (DataService.matches nq) entries)).
Proof.
  intros Hlimit. induction entries as [|e entries IH]; simpl; [reflexivity|].
  destruct (DataService.matches nq e); [|exact IH]. simpl.
  destruct (Z.geb_spec (Z.of_nat 1) limit) as [_|Hlt]; [reflexivity | lia].
Qed.

(** X19: Whatever the limit, [searchProblems] returns the first matches of the
    index, in its order: [limit] of them, one when the limit is below 1,
    ten when it is left out; so never more than that and never a problem
    that is not in the index. *)
Theorem searchProblems_first_matches (st : DataService.State) (query : string)
    (limit : option Z) :
  DataService.searchProblems st query limit =
    take (Z.to_nat (Z.max 1 (default 10%Z limit)))
         (map (fun e => DataService.hit (snd e))
              (List.filter
                 (DataService.matches (Normalizer.trim (Normalizer.toLowerCase query)))
                 (DataService.problemMap st))) /\
  (List.length (DataService.searchProblems st query limit) <=
   Z.to_nat (Z.max 1 (default 10%Z limit)))%nat /\
  DataService.searchProblems st query limit
    `sublist_of` map (fun e => DataService.hit (snd e)) (DataService.problemMap st).
Proof.
  assert (DataService.searchProblems st query limit =
          take (Z.to_nat (Z.max 1 (default 10%Z limit)))
               (map (fun e => DataService.hit (snd e))
                    (List.filter
                       (DataService.matches
                          (Normalizer.trim (Normalizer.toLowerCase query)))
                       (DataService.problemMap st)))) as Heq.
  { unfold DataService.searchProblems.
    destruct (Z.le_gt_cases 1 (default 10%Z limit)) as [Hge|Hlt].
    - rewrite Z.max_r by exact Hge. rewrite searchLoop_take by (simpl; lia). reflexivity.
    - rewrite Z.max_l by lia. rewrite searchLoop_low by lia. reflexivity. }
  split; [exact Heq|]. rewrite Heq. split.
  - rewrite length_take. lia.
  - etransitivity; [apply sublist_take|].
    apply (fmap_sublist (fun e => DataService.hit (snd e))).
    clear. induction (DataService.problemMap st) as [|e l IH]; simpl; [constructor|].
    destruct (DataService.matches _ e); [apply sublist_skip | apply sublist_cons]; exact IH.
Qed.

(** ** Trimming *)

Lemma trimStart_head l c :
  head (Text.trimStart l) = Some c -> Char.is_space c = false.
Proof.
  induction l as [|d l IH]; simpl; [discriminate|].
  destruct (Char.is_space d) eqn:Hd; [exact IH|]. simpl. intros [= <-]. exact Hd.
Qed.

Lemma trimStart_fixed l :
  (forall c, head l = Some c -> Char.is_space c = false) -> Text.trimStart l = l.
Proof.
  destruct l as [|d l]; [reflexivity|]. intros H. simpl.
  rewrite (H d eq_refl). reflexivity.
Qed.

Lemma head_rev {A} (l : list A) : head (rev l) = last l.
Proof.
  induction l as [|x l _] using rev_ind; [reflexivity|].
  rewrite rev_unit, last_snoc. reflexivity.
Qed.

Lemma last_rev {A} (l : list A) : last (rev l) = head l.
Proof. rewrite <- head_rev, rev_involutive. reflexivity. Qed.

Lemma trimEnd_fixed l :
  (forall c, last l = Some c -> Char.is_space c = false) -> Text.trimEnd l = l.
Proof.
  intros H. unfold Text.trimEnd. rewrite trimStart_fixed; [apply rev_involutive|].
  intros c. rewrite head_rev. apply H.
Qed.

Lemma trim_fixed l :
  (forall c, head l = Some c -> Char.is_space c = false) ->
  (forall c, last l = Some c -> Char.is_space c = false) ->
  Text.trim l = l.
Proof.
  intros Hh Hl. unfold Text.trim. rewrite (trimStart_fixed _ Hh). apply trimEnd_fixed, Hl.
Qed.

Lemma trim_ends l :
  (forall c, head (Text.trim l) = Some c -> Char.is_space c = false) /\
  (forall c, last (Text.trim l) = Some c -> Char.is_space c = false).
Proof.
  unfold Text.trim. split; intros c.
  - destruct (trimEnd_split (Text.trimStart l)) as [ws [Hl _]].
    destruct (Text.trimEnd (Text.trimStart l)) as [|d r] eqn:He; [discriminate|].
    simpl. intros [= <-]. apply (trimStart_head l). rewrite Hl. reflexivity.
  - unfold Text.trimEnd. rewrite last_rev. apply trimStart_head.
Qed.

Lemma trim_idem l : Text.trim (Text.trim l) = Text.trim l.
Proof. destruct (trim_ends l) as [Hh Hl]. apply trim_fixed; assumption. Qed.

Lemma trimStart_lower l :
  Text.trimStart (Text.toLowerCase l) = Text.toLowerCase (Text.trimStart l).
Proof.
  unfold Text.toLowerCase. induction l as [|c l IH]; [reflexivity|]. simpl.
  rewrite lower_space_eq. destruct (Char.is_space c); [exact IH | reflexivity].
Qed.

Lemma trim_lower l : Text.trim (Text.toLowerCase l) = Text.toLowerCase (Text.trim l).
Proof.
  unfold Text.trim, Text.trimEnd. rewrite trimStart_lower.
  unfold Text.toLowerCase at 1. rewrite <- map_rev.
  fold (Text.toLowerCase (rev (Text.trimStart l))). rewrite trimStart_lower.
  unfold Text.toLowerCase. rewrite map_rev. reflexivity.
Qed.

(** [trim] is idempotent. *)
Lemma normalizer_trim_idem s : Normalizer.trim (Normalizer.trim s) = Normalizer.trim s.
Proof. unfold Normalizer.trim. rewrite chars_str, trim_idem. reflexivity. Qed.

(** ** The parser *)

Lemma dedupKey_trim title :
  CSVParser.dedupKey (Normalizer.trim title) = CSVParser.dedupKey title.
Proof.
  unfold CSVParser.dedupKey, Normalizer.trim, Normalizer.toLowerCase.
  rewrite !chars_str. f_equal. rewrite <- trim_lower, trim_idem. reflexivity.
Qed.

Lemma extractFrom_records {Other : Type}
    (parseInt : CSVParser.cell Other -> option Z) rows :
  forall seen r,
    r ∈ CSVParser.extractFrom Other parseInt rows seen ->
    exists s f,
      Parsed.title r = Parsed.TitleString s /\
      Normalizer.trim s = s /\
      Parsed.frequency r = Some f.
Proof.
  induction rows as [|row rows IH]; intros seen r; simpl.
  - intros H. apply elem_of_nil in H. contradiction.
  - destruct (CSVParser.extractTitle Other row) as [t|]; [|apply IH].
    case_bool_decide as He; [apply IH|]. case_bool_decide as Hs; [apply IH|].
    intros H. apply elem_of_cons in H. destruct H as [-> | H]; [|eapply IH; exact H].
    simpl. eexists _, _. split; [reflexivity|]. split; [apply normalizer_trim_idem | reflexivity].
Qed.

Lemma extractTitle_nonempty {Other : Type} (row : CSVParser.Row Other) t :
  CSVParser.extractTitle Other row = Some t -> t <> EmptyString.
Proof.
  assert (forall keys, CSVParser.firstTitleUnder Other row keys = Some t ->
                       t <> EmptyString) as Hkeys.
  { induction keys as [|key keys IH]; simpl; [discriminate|].
    unfold CSVParser.titleUnder at 1.
    destruct (JsObject.assoc key row) as [[s| |v]|]; try exact IH.
    case_bool_decide as Hs; [exact IH|]. intros [= <-]. exact Hs. }
  assert (forall entries, CSVParser.firstNonBlank Other entries = Some t ->
                          t <> EmptyString) as Hany.
  { induction entries as [|[key value] entries IH]; simpl; [discriminate|].
    unfold CSVParser.nonBlankString at 1.
    destruct value as [s| |v]; try exact IH.
    case_bool_decide as Hs; [exact IH|]. intros [= <-] ->. apply Hs. reflexivity. }
  unfold CSVParser.extractTitle.
  destruct (CSVParser.firstTitleUnder Other row CSVParser.titleKeys) as [s|] eqn:Hf.
  - intros [= <-]. apply (Hkeys _ Hf).
  - apply Hany.
Qed.

Lemma extractFrom_keys {Other : Type}
    (parseInt : CSVParser.cell Other -> option Z) rows :
  forall seen acc,
    (forall x, x ∈ seen <-> x ∈ acc) ->
    acc ++ map (fun r => CSVParser.dedupKey (CSVParser.titleOf r))
               (CSVParser.extractFrom Other parseInt rows seen) =
    foldl Build.addNew acc
          (map CSVParser.dedupKey (omap (CSVParser.extractTitle Other) rows)).
Proof.
  induction rows as [|row rows IH]; intros seen acc Hseen; simpl.
  - apply app_nil_r.
  - destruct (CSVParser.extractTitle Other row) as [t|] eqn:Hrow; simpl;
      [|apply IH; exact Hseen].
    rewrite bool_decide_eq_false_2 by (eapply extractTitle_nonempty; exact Hrow).
    unfold Build.addNew at 2. case_bool_decide as Hk.
    + rewrite bool_decide_eq_true_2 by (apply Hseen; exact Hk). apply IH. exact Hseen.
    + rewrite bool_decide_eq_false_2 by (rewrite <- Hseen; exact Hk).
      simpl. unfold CSVParser.titleOf at 1. simpl. rewrite dedupKey_trim.
      rewrite cons_middle, app_assoc. apply IH.
      intros x. rewrite elem_of_union, elem_of_singleton, elem_of_app,
        list_elem_of_singleton, Hseen. tauto.
Qed.

(** X20: Every record that [extractProblems] returns has a string as title,
    without white space at either end, and a frequency. *)
Theorem extractProblems_records (Other : Type)
    (parseInt : CSVParser.cell Other -> option Z)
    (rows : list (CSVParser.Row Other)) (r : Parsed.RawRecord) :
  r ∈ CSVParser.extractProblems Other parseInt rows ->
  exists s f,
    Parsed.title r = Parsed.TitleString s /\
    Normalizer.trim s = s /\
    Parsed.frequency r = Some f.
Proof. apply extractFrom_records. Qed.

(** X21: [extractProblems] keeps one record per title up to case and
    surrounding white space: the first one, in the order of the rows. *)
Theorem extractProblems_dedup (Other : Type)
    (parseInt : CSVParser.cell Other -> option Z)
    (rows : list (CSVParser.Row Other)) :
  map (fun r => CSVParser.dedupKey (CSVParser.titleOf r))
      (CSVParser.extractProblems Other parseInt rows) =
    foldl Build.addNew []
          (map CSVParser.dedupKey (omap (CSVParser.extractTitle Other) rows)) /\
  NoDup (map (fun r => CSVParser.dedupKey (CSVParser.titleOf r))
             (CSVParser.extractProblems Other parseInt rows)).
Proof.
  assert (map (fun r => CSVParser.dedupKey (CSVParser.titleOf r))
              (CSVParser.extractProblems Other parseInt rows) =
          foldl Build.addNew []
                (map CSVParser.dedupKey (omap (CSVParser.extractTitle Other) rows)))
    as Heq.
  { unfold CSVParser.extractProblems.
    rewrite <- (extractFrom_keys parseInt rows ∅ []); [reflexivity|].
    intros x. split; intros H; [apply elem_of_empty in H | apply elem_of_nil in H];
      contradiction. }
  split; [exact Heq|]. rewrite Heq.
  generalize (map CSVParser.dedupKey (omap (CSVParser.extractTitle Other) rows)).
  intros l. induction l as [|x l IH] using rev_ind; [apply NoDup_nil_2|].
  rewrite foldl_app. simpl. apply addNew_NoDup. exact IH.
Qed.

Lemma parseAllCSVs_titles (Other : Type)
    (parseInt : CSVParser.cell Other -> option Z)
    (papaParse : string -> result (list (CSVParser.Row Other))) repoData :
  Forall (fun t => exists s, Parsed.title (snd t) = Parsed.TitleString s)
         (Build.records (CSVParser.parseAllCSVs Other parseInt papaParse repoData)).
Proof.
  apply Forall_forall. intros t Hin. apply list_elem_of_In in Hin.
  unfold Build.records in Hin.
  apply in_flat_map in Hin. destruct Hin as [c [Hc Hin]].
  apply in_flat_map in Hin. destruct Hin as [w [Hw Hin]].
  apply in_map_iff in Hin. destruct Hin as [r [<- Hr]]. simpl.
  unfold CSVParser.parseAllCSVs in Hc.
  apply in_map_iff in Hc. destruct Hc as [c0 [<- _]]. simpl in Hw.
  apply in_map_iff in Hw. destruct Hw as [w0 [<- _]]. simpl in Hr.
  apply list_elem_of_In in Hr.
  destruct (extractFrom_records parseInt _ _ _ Hr) as (s & f & Hs & _).
  exists s. exact Hs.
Qed.

(** X22: On what the parser returns the builder never throws: when the
    download succeeds, the rebuild succeeds, and the state carries the
    time of the rebuild. *)
Theorem parsed_rebuild_succeeds (Other : Type)
    (parseInt : CSVParser.cell Other -> option Z)
    (papaParse : string -> result (list (CSVParser.Row Other)))
    (repoData : list (string * list (string * string)))
    (now : string) (st : DataService.State) :
  exists st',
    DataService.updateData (Ok repoData)
      (fun r => Ok (CSVParser.parseAllCSVs Other parseInt papaParse r)) now st =
    (Ok tt, st') /\
    DataService.lastUpdated st' = Some now.
Proof.
  pose proof (proj2 (buildProblemIndex_returns
                       (CSVParser.parseAllCSVs Other parseInt papaParse repoData) st)
                    (parseAllCSVs_titles Other parseInt papaParse repoData))
    as [st1 Hb].
  pose proof (buildProblemIndex_outcome
                (CSVParser.parseAllCSVs Other parseInt papaParse repoData) st) as Ho.
  destruct (DataService.buildLocals _) as [acc|e] eqn:Hl; rewrite Ho in Hb; [|discriminate].
  eexists. split.
  - eapply updateData_success; [reflexivity | reflexivity | exact Hl].
  - reflexivity.
Qed.

(** ** The states that the service can reach *)

Lemma updateData_outcome {RepoData : Type}
    (fetchRepository : result RepoData)
    (parseAllCSVs : RepoData -> result Parsed.ParsedData)
    (now : string) (st st' : DataService.State) (outcome : result unit) :
  DataService.updateData fetchRepository parseAllCSVs now st = (outcome, st') ->
  (exists e, outcome = Err e /\ st' = st) \/
  (exists parsedData st1,
     outcome = Ok tt /\
     DataService.buildProblemIndex parsedData st = (Ok tt, st1) /\
     st' = DataService.set_lastUpdated (Some now) st1).
Proof.
  unfold DataService.updateData, DataService.tryCatch, DataService.seq at 1 2 3,
    DataService.lift, DataService.throw.
  destruct fetchRepository as [repoData|e1]; [|intros [= <- <-]; left; eauto].
  destruct (parseAllCSVs repoData) as [parsedData|e2]; [|intros [= <- <-]; left; eauto].
  pose proof (buildProblemIndex_outcome parsedData st) as Hb.
  destruct (DataService.buildLocals parsedData) as [acc|e3]; rewrite Hb.
  - simpl. intros [= <- <-]. right. eexists parsedData, _.
    split; [reflexivity|]. split; [exact Hb | reflexivity].
  - intros [= <- <-]. left. eauto.
Qed.

Lemma build_companies parsedData st st' k p :
  DataService.buildProblemIndex parsedData st = (Ok tt, st') ->
  (k, p) ∈ DataService.problemMap st' ->
  DataService.slug p = k /\
  DataService.companies p <> [] /\
  NoDup (map DataService.name (DataService.companies p)) /\
  Build.descending (DataService.companies p).
Proof.
  intros Hb Hin.
  destruct (build_described _ _ _ Hb) as [pm [(_ & _ & Hent) [[Hkeys _] [Hpm _]]]].
  rewrite Hpm in Hin. apply sortCompanies_elem in Hin. destruct Hin as [p0 [Hin ->]].
  destruct (Hent _ _ Hin) as (Hs & Hn & _). simpl.
  assert (map DataService.name (DataService.sort DataService.byFrequency
                                  (DataService.companies p0))
          ≡ₚ Build.discovery (Build.records parsedData) k) as Hperm
    by (rewrite <- Hn; apply fmap_Permutation, sort_perm).
  split; [exact Hs|]. split; [|split].
  - intros Hnil. rewrite Hnil in Hperm. simpl in Hperm.
    apply Permutation_nil_l in Hperm.
    eapply discovery_of_known; [|symmetry; exact Hperm].
    rewrite <- Hkeys. apply (list_elem_of_fmap_2 fst _ _ Hin).
  - rewrite Hperm. apply discovery_NoDup.
  - apply sort_descending.
Qed.

(** X23: In every state that the service can reach, the counts, the index and
    the title lookup go together: [totalProblems] is the number of entries,
    no key occurs twice, every entry is stored under its own [slug], which
    is the identity key of its display title, lists at least one company,
    none twice, in descending order of frequency, and the title lookup
    leads to entries of the index.  Until a rebuild has succeeded the
    state is the empty one of the constructor. *)
Theorem reachable_state_sound (st : DataService.State) :
  Service.reachable st ->
  DataService.totalProblems st = JsMap.size (DataService.problemMap st) /\
  NoDup (map fst (DataService.problemMap st)) /\
  (forall k p, (k, p) ∈ DataService.problemMap st ->
     DataService.slug p = k /\
     Normalizer.titleToSlug (DataService.problem p) = k /\
     DataService.companies p <> [] /\
     NoDup (map DataService.name (DataService.companies p)) /\
     Build.descending (DataService.companies p)) /\
  Index.titled (DataService.problemMap st) (DataService.titleMap st) /\
  (DataService.lastUpdated st = None -> st = DataService.initial).
Proof.
  induction 1 as [|RepoData fetch parse now st st' outcome _ IH Hup].
  - split; [reflexivity|]. split; [apply NoDup_nil_2|]. split; [|split].
    + intros k p H. apply elem_of_nil in H. contradiction.
    + split.
      * intros k p H. apply elem_of_nil in H. contradiction.
      * intros nt v H. simpl in H. rewrite lookup_empty in H. discriminate.
    + reflexivity.
  - destruct (updateData_outcome _ _ _ _ _ _ Hup)
      as [(e & _ & ->) | (parsedData & st1 & _ & Hb & ->)]; [exact IH|].
    destruct (build_titled _ _ _ Hb) as (Hnd & Hkey & Ht).
    destruct (build_described _ _ _ Hb) as [pm (_ & _ & Hpm & Htotal)].
    simpl. split; [|split; [exact Hnd|split; [|split; [exact Ht | discriminate]]]].
    + rewrite Htotal, Hpm. unfold JsMap.size, DataService.sortCompanies.
      rewrite length_map. reflexivity.
    + intros k p Hin. destruct (build_companies _ _ _ _ _ Hb Hin) as (Hs & Hne & Hn & Hd).
      split; [exact Hs|]. split; [apply (Hkey _ _ Hin)|].
      split; [exact Hne|]. split; [exact Hn | exact Hd].
Qed.

(** ** The logger *)

(** X24: Without [LOG_LEVEL], or with the empty one, the logger works as under
    [INFO].  Under a level that is not one of the four names, lower-case
    [info] for one, no method writes anything, errors included.  A level
    that lets a method write lets every method of a lower level write, and
    under each of the four names an error is written to [console.error]. *)
Theorem logger_levels :
  (forall ts m args,
     Logger.log None ts m args = Logger.log (Some "INFO") ts m args /\
     Logger.log (Some EmptyString) ts m args = Logger.log (Some "INFO") ts m args) /\
  (forall name ts m args,
     name <> EmptyString ->
     name ∉ map fst Logger.LOG_LEVELS ->
     Logger.log (Some name) ts m args = None) /\
  (forall env ts m m' args args',
     (Logger.methodLevel m' <= Logger.methodLevel m)%Z ->
     Logger.log env ts m args <> None ->
     Logger.log env ts m' args' <> None) /\
  (forall name ts args,
     name ∈ map fst Logger.LOG_LEVELS ->
     Logger.log (Some name) ts Logger.ERROR args =
     Some (Logger.ConsoleError, Logger.formatMessage ts "ERROR" args)).
Proof.
  split; [|split; [|split]].
  - intros ts m args. split; reflexivity.
  - intros name ts m args Hne Hname. unfold Logger.log, Logger.enabled, Logger.level.
    rewrite bool_decide_eq_false_2 by exact Hne.
    unfold JsObject.get. rewrite assoc_not_in by exact Hname.
    case_bool_decide; reflexivity.
  - intros env ts m m' args args' Hle. unfold Logger.log, Logger.enabled.
    destruct (Logger.level env) as [n| |]; try (intros H; exact H).
    destruct (Z.geb_spec n (Logger.methodLevel m)) as [Hn|Hn];
      [|intros H; exfalso; apply H; reflexivity].
    intros _. destruct (Z.geb_spec n (Logger.methodLevel m')) as [Hn'|Hn']; [discriminate|lia].
  - intros name ts args Hname. simpl in Hname.
    rewrite !elem_of_cons, elem_of_nil in Hname.
    destruct Hname as [->|[->|[->|[->|[]]]]]; reflexivity.
Qed.



(** ** The archive *)

Lemma get_set {V} (k k' : string) (v : V) (m : JsMap.t V) :
  JsMap.get k' (JsMap.set k v m) =
  if bool_decide (k' = k) then Some v else JsMap.get k' m.
Proof.
  unfold JsMap.get. induction m as [|[k0 v0] m IH]; simpl.
  - repeat case_bool_decide; congruence.
  - destruct (decide (k0 = k)) as [->|Hk0].
    + rewrite (bool_decide_eq_true_2 (k = k)) by reflexivity. simpl.
      repeat case_bool_decide; congruence.
    + rewrite (bool_decide_eq_false_2 (k0 = k)) by exact Hk0. simpl. rewrite IH.
      repeat case_bool_decide; congruence.
Qed.

Lemma get_alter {V} (f : V -> V) (k k' : string) (m : JsMap.t V) :
  JsMap.get k' (JsMap.alter f k m) =
  if bool_decide (k' = k) then f <$> JsMap.get k m else JsMap.get k' m.
Proof.
  unfold JsMap.get. induction m as [|[k0 v0] m IH]; simpl.
  - case_bool_decide; reflexivity.
  - destruct (decide (k0 = k)) as [->|Hk0].
    + rewrite !(bool_decide_eq_true_2 (k = k)) by reflexivity. simpl.
      repeat case_bool_decide; simpl; congruence.
    + rewrite !(bool_decide_eq_false_2 (k0 = k)) by exact Hk0. simpl. rewrite IH.
      repeat case_bool_decide; simpl; congruence.
Qed.

Lemma set_keys_elem {V} (k w : string) (v : V) (m : JsMap.t V) :
  w ∈ map fst (JsMap.set k v m) <-> w = k \/ w ∈ map fst m.
Proof.
  induction m as [|[k0 v0] m IH]; simpl.
  - rewrite elem_of_cons, elem_of_nil. tauto.
  - case_bool_decide as H0; simpl; rewrite !elem_of_cons; [|rewrite IH].
    + subst k0. tauto.
    + tauto.
Qed.

Lemma set_NoDup {V} (k : string) (v : V) (m : JsMap.t V) :
  NoDup (map fst m) -> NoDup (map fst (JsMap.set k v m)).
Proof.
  induction m as [|[k0 v0] m IH]; simpl; intros Hnd.
  - apply NoDup_singleton.
  - apply NoDup_cons in Hnd. destruct Hnd as [Hk0 Hnd].
    case_bool_decide as H0; simpl; apply NoDup_cons.
    + split; assumption.
    + split; [|apply IH; exact Hnd].
      rewrite set_keys_elem. intros [->|Hin]; [congruence | contradiction].
Qed.

Lemma set_nonempty {V} (k : string) (v : V) (m : JsMap.t V) : JsMap.set k v m <> [].
Proof. destruct m as [|[k0 v0] m]; simpl; [|case_bool_decide]; discriminate. Qed.

Lemma target_label entry companyName timeRange :
  GitHubFetcher.target entry = Some (companyName, timeRange) ->
  timeRange ∈ GitHubFetcher.labels.
Proof.
  unfold GitHubFetcher.target.
  destruct (GitHubFetcher.isDirectory entry); [discriminate|].
  destruct (negb _); [discriminate|].
  destruct (_ <? 3)%nat; [discriminate|].
  generalize (nth (List.length (GitHubFetcher.split (GitHubFetcher.entryName entry)) - 1)
                  (GitHubFetcher.split (GitHubFetcher.entryName entry)) EmptyString).
  intros fileName. unfold GitHubFetcher.fileMapping, GitHubFetcher.labels. simpl.
  repeat (case_bool_decide;
          [intros [= _ <-]; rewrite !elem_of_cons; tauto|]).
  discriminate.
Qed.

(** The body of the loop, by the directory and the label of the entry. *)
Lemma loadEntry_target acc entry :
  GitHubFetcher.loadEntry acc entry =
  match GitHubFetcher.target entry with
  | None => Ok acc
  | Some (companyName, timeRange) =>
      if bool_decide (companyName ∈ JsObject.prototypeMembers) then
        let* content := GitHubFetcher.getData entry in
        Ok {| GitHubFetcher.repoData := GitHubFetcher.repoData acc;
              GitHubFetcher.prototypeWrites :=
                GitHubFetcher.prototypeWrites acc ++ [(companyName, timeRange, content)] |}
      else if JsMap.has companyName (GitHubFetcher.repoData acc) then
        let* content := GitHubFetcher.getData entry in
        Ok {| GitHubFetcher.repoData :=
                JsMap.alter (JsMap.set timeRange content) companyName
                  (GitHubFetcher.repoData acc);
              GitHubFetcher.prototypeWrites := GitHubFetcher.prototypeWrites acc |}
      else
        match GitHubFetcher.inherited (GitHubFetcher.prototypeWrites acc) companyName with
        | Some (String c value) =>
            let* content := GitHubFetcher.getData entry in
            Err (GitHubFetcher.cannotCreateProperty timeRange (String c value))
        | _ =>
            let* content := GitHubFetcher.getData entry in
            Ok {| GitHubFetcher.repoData :=
                    JsMap.alter (JsMap.set timeRange content) companyName
                      (JsMap.set companyName [] (GitHubFetcher.repoData acc));
                  GitHubFetcher.prototypeWrites := GitHubFetcher.prototypeWrites acc |}
        end
  end.
Proof.
  unfold GitHubFetcher.loadEntry, GitHubFetcher.target.
  destruct (GitHubFetcher.isDirectory entry); [reflexivity|].
  destruct (negb _); [reflexivity|].
  destruct (_ <? 3)%nat; [reflexivity|].
  destruct (JsObject.assoc _ GitHubFetcher.fileMapping); reflexivity.
Qed.

(** What a run of the body that returns does to [repoData]. *)
Lemma loadEntry_Ok acc entry acc' :
  GitHubFetcher.loadEntry acc entry = Ok acc' ->
  (GitHubFetcher.target entry = None /\ acc' = acc) \/
  (exists c tr content,
     GitHubFetcher.target entry = Some (c, tr) /\
     GitHubFetcher.getData entry = Ok content /\
     ((c ∈ JsObject.prototypeMembers /\
       GitHubFetcher.repoData acc' = GitHubFetcher.repoData acc) \/
      ((c ∉ JsObject.prototypeMembers) /\
       GitHubFetcher.repoData acc' =
       JsMap.alter (JsMap.set tr content) c
         (if JsMap.has c (GitHubFetcher.repoData acc)
          then GitHubFetcher.repoData acc
          else JsMap.set c [] (GitHubFetcher.repoData acc))))).
Proof.
  rewrite loadEntry_target.
  destruct (GitHubFetcher.target entry) as [[c tr]|];
    [|intros [= <-]; left; split; reflexivity].
  intros H. right. exists c, tr.
  destruct (GitHubFetcher.getData entry) as [content|e] eqn:Hd.
  - exists content. split; [reflexivity|]. split; [reflexivity|].
    case_bool_decide as Hm.
    + simpl in H. injection H as <-. left. split; [exact Hm | reflexivity].
    + right. split; [exact Hm|].
      destruct (JsMap.has c (GitHubFetcher.repoData acc)).
      * simpl in H. injection H as <-. reflexivity.
      * destruct (GitHubFetcher.inherited _ c) as [[|ch value]|];
          simpl in H; try discriminate; injection H as <-; reflexivity.
  - exfalso. case_bool_decide; [discriminate|].
    destruct (JsMap.has c (GitHubFetcher.repoData acc)); [discriminate|].
    destruct (GitHubFetcher.inherited _ c) as [[|ch value]|]; discriminate.
Qed.

Lemma kept_wellFormed (data : JsMap.t (JsMap.t string)) c tr content :
  GitHubFetcher.wellFormed data ->
  c ∉ JsObject.prototypeMembers ->
  tr ∈ GitHubFetcher.labels ->
  GitHubFetcher.wellFormed
    (JsMap.alter (JsMap.set tr content) c
       (if JsMap.has c data then data else JsMap.set c [] data)).
Proof.
  intros [Hnd Hall] Hm Htr.
  set (known := if JsMap.has c data then data else JsMap.set c [] data).
  assert (Hknd : NoDup (map fst known)).
  { unfold known. destruct (JsMap.has _ _); [exact Hnd | apply set_NoDup; exact Hnd]. }
  assert (Hkn : forall c' files, (c', files) ∈ known ->
                  (c', files) ∈ data \/ (c' = c /\ files = [])).
  { unfold known. destruct (JsMap.has c data) eqn:Hh;
      intros c' files Hin; [left; exact Hin|].
    assert (Hc : c ∉ map fst data).
    { rewrite <- has_true. rewrite Hh. discriminate. }
    rewrite (set_absent _ _ _ Hc) in Hin. apply elem_of_app in Hin.
    destruct Hin as [Hin|Hin]; [left; exact Hin|].
    apply list_elem_of_singleton in Hin. injection Hin as -> ->. right. tauto. }
  split; [rewrite alter_keys; exact Hknd|].
  intros c' files Hin.
  destruct (alter_elem _ _ _ _ _ Hknd Hin) as [[Hne H] | [-> [files0 [H ->]]]].
  - destruct (Hkn _ _ H) as [H0 | [-> _]]; [apply Hall; exact H0 | congruence].
  - split; [exact Hm|]. split; [apply set_nonempty|].
    destruct (Hkn _ _ H) as [H0 | [_ ->]].
    + destruct (Hall _ _ H0) as (_ & _ & Hnd0 & Hlab).
      split; [apply set_NoDup; exact Hnd0|].
      intros w Hw. apply set_keys_elem in Hw. destruct Hw as [->|Hw]; [exact Htr | auto].
    + split; [apply set_NoDup; constructor|].
      intros w Hw. apply set_keys_elem in Hw. destruct Hw as [->|Hw]; [exact Htr|].
      simpl in Hw. apply elem_of_nil in Hw. contradiction.
Qed.

Lemma kept_get (data : JsMap.t (JsMap.t string)) c0 tr content c w :
  JsMap.get c (JsMap.alter (JsMap.set tr content) c0
                 (if JsMap.has c0 data then data else JsMap.set c0 [] data))
    ≫= JsMap.get w =
  if bool_decide (c = c0 /\ w = tr) then Some content
  else JsMap.get c data ≫= JsMap.get w.
Proof.
  rewrite get_alter.
  destruct (decide (c = c0)) as [->|Hne].
  - rewrite bool_decide_eq_true_2 by reflexivity.
    unfold JsMap.has. destruct (JsMap.get c0 data) as [files|] eqn:Hg.
    + rewrite Hg. simpl. rewrite get_set.
      destruct (decide (w = tr)) as [->|Hw].
      * rewrite !bool_decide_eq_true_2 by tauto. reflexivity.
      * rewrite !bool_decide_eq_false_2 by tauto. reflexivity.
    + rewrite get_set, bool_decide_eq_true_2 by reflexivity. simpl.
      destruct (decide (w = tr)) as [->|Hw].
      * rewrite !bool_decide_eq_true_2 by tauto. reflexivity.
      * rewrite !bool_decide_eq_false_2 by (tauto || congruence). reflexivity.
  - rewrite !bool_decide_eq_false_2 by tauto.
    destruct (JsMap.has c0 data); [reflexivity|].
    rewrite get_set, bool_decide_eq_false_2 by exact Hne. reflexivity.
Qed.

Lemma written_snoc entries entry companyName timeRange :
  GitHubFetcher.written (entries ++ [entry]) companyName timeRange =
  if bool_decide (GitHubFetcher.target entry = Some (companyName, timeRange))
  then Some (GitHubFetcher.getData entry)
  else GitHubFetcher.written entries companyName timeRange.
Proof.
  induction entries as [|x entries IH]; simpl.
  - reflexivity.
  - rewrite IH. case_bool_decide; reflexivity.
Qed.

Lemma written_Some entries companyName timeRange content :
  GitHubFetcher.written entries companyName timeRange = Some content ->
  exists entry, entry ∈ entries /\
    GitHubFetcher.target entry = Some (companyName, timeRange) /\
    GitHubFetcher.getData entry = content.
Proof.
  induction entries as [|x entries IH]; simpl; [discriminate|].
  destruct (GitHubFetcher.written entries companyName timeRange) as [c0|].
  - intros H. destruct (IH H) as [e [He Hr]]. exists e.
    split; [apply list_elem_of_further; exact He | exact Hr].
  - case_bool_decide as Ht; [|discriminate]. intros [= <-].
    exists x. split; [apply list_elem_of_here | split; [exact Ht | reflexivity]].
Qed.

Lemma written_elem entries entry companyName timeRange :
  entry ∈ entries ->
  GitHubFetcher.target entry = Some (companyName, timeRange) ->
  GitHubFetcher.written entries companyName timeRange <> None.
Proof.
  induction entries as [|x entries IH]; simpl; intros Hin Ht.
  - apply elem_of_nil in Hin. contradiction.
  - destruct (GitHubFetcher.written entries companyName timeRange) eqn:Hw; [discriminate|].
    apply elem_of_cons in Hin. destruct Hin as [->|Hin].
    + rewrite bool_decide_eq_true_2 by exact Ht. discriminate.
    + exfalso. apply (IH Hin Ht). reflexivity.
Qed.

(** After the loop, if it returns, [repoData] is well formed and holds,
    for every directory and label, the content of the last entry that is
    kept for them. *)
Lemma load_invariant entries loaded :
  GitHubFetcher.load entries = Ok loaded ->
  GitHubFetcher.wellFormed (GitHubFetcher.repoData loaded) /\
  forall c w, c ∉ JsObject.prototypeMembers ->
    Ok <$> (JsMap.get c (GitHubFetcher.repoData loaded) ≫= JsMap.get w) =
    GitHubFetcher.written entries c w.
Proof.
  intros Hl.
  refine (foldM_history GitHubFetcher.loadEntry
            (fun h a =>
               GitHubFetcher.wellFormed (GitHubFetcher.repoData a) /\
               forall c w, c ∉ JsObject.prototypeMembers ->
                 Ok <$> (JsMap.get c (GitHubFetcher.repoData a) ≫= JsMap.get w) =
                 GitHubFetcher.written h c w)
            _ entries [] GitHubFetcher.nothingLoaded loaded _ Hl).
  - intros h a x a' [Hwf Hget] Hx.
    destruct (loadEntry_Ok _ _ _ Hx)
      as [[Ht ->] | (c0 & tr & content & Ht & Hd & [[Hm Hr] | [Hm Hr]])].
    + split; [exact Hwf|]. intros c w Hc. rewrite written_snoc, Ht.
      rewrite bool_decide_eq_false_2 by discriminate. apply Hget, Hc.
    + rewrite Hr. split; [exact Hwf|]. intros c w Hc. rewrite written_snoc, Ht.
      rewrite bool_decide_eq_false_2 by (intros [= <- _]; contradiction).
      apply Hget, Hc.
    + rewrite Hr. split; [apply kept_wellFormed;
                          [exact Hwf | exact Hm | exact (target_label _ _ _ Ht)]|].
      intros c w Hc. rewrite written_snoc, Ht, kept_get, Hd.
      destruct (decide (c = c0 /\ w = tr)) as [[-> ->]|Hne].
      * rewrite !bool_decide_eq_true_2 by tauto. reflexivity.
      * rewrite !bool_decide_eq_false_2 by (tauto || (intros [= -> ->]; tauto)).
        apply Hget, Hc.
  - split.
    + split; [constructor|]. intros c files Hin. apply elem_of_nil in Hin. contradiction.
    + intros c w _. reflexivity.
Qed.

Lemma fetchRepository_returned download data :
  GitHubFetcher.fetchRepository download = Ok data ->
  exists entries loaded,
    download = Ok entries /\
    GitHubFetcher.load entries = Ok loaded /\
    data = GitHubFetcher.repoData loaded /\
    data <> [].
Proof.
  destruct download as [entries|message]; [|discriminate].
  unfold GitHubFetcher.fetchRepository. simpl.
  destruct (GitHubFetcher.load entries) as [loaded|e] eqn:Hl; simpl; [|discriminate].
  destruct (GitHubFetcher.repoData loaded) as [|x l] eqn:Hr; simpl; [discriminate|].
  intros [= <-]. exists entries, loaded.
  split; [reflexivity|]. split; [exact Hl|]. split; [symmetry; exact Hr | discriminate].
Qed.

Lemma inherited_none writes name :
  (forall member label content, (member, label, content) ∈ writes ->
                                member <> "__proto__") ->
  GitHubFetcher.inherited writes name = None.
Proof.
  induction writes as [|[[m l] c] writes IH]; intros H; simpl; [reflexivity|].
  rewrite IH by (intros m' l' c' Hin; apply (H m' l' c'), list_elem_of_further, Hin).
  rewrite bool_decide_eq_false_2; [reflexivity|].
  intros [-> _]. apply (H "__proto__" l c); [apply list_elem_of_here | reflexivity].
Qed.

(** On an archive whose kept entries can be read and none of which is
    under [__proto__], the loop returns. *)
Lemma load_returns entries :
  GitHubFetcher.readable entries ->
  GitHubFetcher.pristine entries ->
  exists loaded, GitHubFetcher.load entries = Ok loaded.
Proof.
  unfold GitHubFetcher.load.
  assert (forall member label content,
            (member, label, content) ∈ GitHubFetcher.prototypeWrites
                                         GitHubFetcher.nothingLoaded ->
            member <> "__proto__") as H0
    by (intros m l c Hin; apply elem_of_nil in Hin; contradiction).
  revert H0. generalize GitHubFetcher.nothingLoaded.
  induction entries as [|entry entries IH]; intros acc Hacc Hread Hprist; simpl.
  - eexists. reflexivity.
  - assert (exists acc',
              GitHubFetcher.loadEntry acc entry = Ok acc' /\
              forall member label content,
                (member, label, content) ∈ GitHubFetcher.prototypeWrites acc' ->
                member <> "__proto__") as (acc' & -> & Hacc').
    { rewrite loadEntry_target.
      destruct (GitHubFetcher.target entry) as [[c tr]|] eqn:Ht;
        [|exists acc; split; [reflexivity | exact Hacc]].
      destruct (Hread entry (list_elem_of_here _ _)) as [content Hd];
        [rewrite Ht; discriminate|].
      rewrite Hd. simpl. case_bool_decide as Hm.
      - eexists. split; [reflexivity|]. simpl. intros m l c' Hin.
        apply elem_of_app in Hin. destruct Hin as [Hin|Hin]; [exact (Hacc _ _ _ Hin)|].
        apply list_elem_of_singleton in Hin. injection Hin as -> -> ->.
        intros ->. apply (Hprist entry tr (list_elem_of_here _ _)). exact Ht.
      - destruct (JsMap.has c (GitHubFetcher.repoData acc));
          [eexists; split; [reflexivity | exact Hacc]|].
        rewrite (inherited_none _ c Hacc). eexists. split; [reflexivity | exact Hacc]. }
    simpl. apply IH.
    + exact Hacc'.
    + intros e He. apply Hread. apply list_elem_of_further. exact He.
    + intros e w He. apply Hprist. apply list_elem_of_further. exact He.
Qed.

(** When every kept entry is under a member of [Object.prototype], the
    loop leaves [repoData] empty. *)
Lemma load_nothing entries :
  GitHubFetcher.readable entries ->
  (forall entry companyName timeRange,
     entry ∈ entries ->
     GitHubFetcher.target entry = Some (companyName, timeRange) ->
     companyName ∈ JsObject.prototypeMembers) ->
  exists loaded,
    GitHubFetcher.load entries = Ok loaded /\ GitHubFetcher.repoData loaded = [].
Proof.
  unfold GitHubFetcher.load.
  assert (GitHubFetcher.repoData GitHubFetcher.nothingLoaded = []) as H0 by reflexivity.
  revert H0. generalize GitHubFetcher.nothingLoaded.
  induction entries as [|entry entries IH]; intros acc Hacc Hread Hall; simpl.
  - exists acc. split; [reflexivity | exact Hacc].
  - assert (exists acc',
              GitHubFetcher.loadEntry acc entry = Ok acc' /\
              GitHubFetcher.repoData acc' = []) as (acc' & -> & Hacc').
    { rewrite loadEntry_target.
      destruct (GitHubFetcher.target entry) as [[c tr]|] eqn:Ht;
        [|exists acc; split; [reflexivity | exact Hacc]].
      destruct (Hread entry (list_elem_of_here _ _)) as [content Hd];
        [rewrite Ht; discriminate|].
      rewrite Hd. simpl.
      rewrite bool_decide_eq_true_2 by exact (Hall _ _ _ (list_elem_of_here _ _) Ht).
      eexists. split; [reflexivity | exact Hacc]. }
    simpl. apply IH.
    + exact Hacc'.
    + intros e He. apply Hread. apply list_elem_of_further. exact He.
    + intros e c w He. apply Hall. apply list_elem_of_further. exact He.
Qed.

(** X25: What [fetchRepository] returns is not empty: it has at least one
    directory; no directory twice and none with the name of a member of
    [Object.prototype]; under every directory at least one label and no
    label twice; every label is one of the four of the file table, and
    the content under it is that of an entry of the archive that is kept
    for the directory and the label. *)
Theorem fetchRepository_data download data :
  GitHubFetcher.fetchRepository download = Ok data ->
  data <> [] /\
  NoDup (map fst data) /\
  forall companyName files, (companyName, files) ∈ data ->
    (companyName ∉ JsObject.prototypeMembers) /\
    files <> [] /\
    NoDup (map fst files) /\
    forall timeRange content, (timeRange, content) ∈ files ->
      timeRange ∈ GitHubFetcher.labels /\
      exists entries entry,
        download = Ok entries /\
        entry ∈ entries /\
        GitHubFetcher.target entry = Some (companyName, timeRange) /\
        GitHubFetcher.getData entry = Ok content.
Proof.
  intros H.
  destruct (fetchRepository_returned _ _ H) as (entries & loaded & -> & Hl & -> & Hne).
  destruct (load_invariant _ _ Hl) as [[Hnd Hall] Hget].
  split; [exact Hne|]. split; [exact Hnd|].
  intros c files Hin. destruct (Hall _ _ Hin) as (Hm & Hfne & Hfnd & Hlab).
  split; [exact Hm|]. split; [exact Hfne|]. split; [exact Hfnd|].
  intros tr content Hf. split; [apply Hlab; apply (list_elem_of_fmap_2 fst _ _ Hf)|].
  pose proof (Hget c tr Hm) as Hw.
  rewrite (get_elem _ _ _ Hnd Hin) in Hw. simpl in Hw.
  rewrite (get_elem _ _ _ Hfnd Hf) in Hw. simpl in Hw.
  destruct (written_Some _ _ _ _ (eq_sym Hw)) as (entry & He & Ht & Hd).
  exists entries, entry.
  split; [reflexivity|]. split; [exact He|]. split; [exact Ht | exact Hd].
Qed.

(** X26: Under a directory and a label, [fetchRepository] returns the content
    of the last entry of the archive that is kept for them: of two files
    of one directory with the same label, [4. More Than Six Months.csv]
    and [5. All.csv] for one, the later one wins. *)
Theorem fetchRepository_contents entries data companyName timeRange :
  GitHubFetcher.fetchRepository (Ok entries) = Ok data ->
  companyName ∉ JsObject.prototypeMembers ->
  Ok <$> (JsMap.get companyName data ≫= JsMap.get timeRange) =
  GitHubFetcher.written entries companyName timeRange.
Proof.
  intros H Hm.
  destruct (fetchRepository_returned _ _ H) as (es & loaded & [= <-] & Hl & -> & _).
  exact (proj2 (load_invariant _ _ Hl) _ _ Hm).
Qed.

(** X27: Every failure of [fetchRepository] carries the prefix, before the
    message of the download when the download fails.  On an archive
    whose kept entries can be read, [fetchRepository] returns if an entry
    is kept under a directory whose name is not a member of
    [Object.prototype] and no entry is kept under [__proto__], and it
    fails for the want of company data if every kept entry is under a
    member of [Object.prototype]. *)
Theorem fetchRepository_fails :
  (forall download e,
     GitHubFetcher.fetchRepository download = Err e ->
     exists message, e = String.append "GitHub fetch failed: " message) /\
  (forall message,
     GitHubFetcher.fetchRepository (Err message) =
     Err (String.append "GitHub fetch failed: " message)) /\
  (forall entries,
     GitHubFetcher.readable entries ->
     GitHubFetcher.pristine entries ->
     (exists entry companyName timeRange,
        entry ∈ entries /\
        GitHubFetcher.target entry = Some (companyName, timeRange) /\
        companyName ∉ JsObject.prototypeMembers) ->
     exists data, GitHubFetcher.fetchRepository (Ok entries) = Ok data) /\
  (forall entries,
     GitHubFetcher.readable entries ->
     (forall entry companyName timeRange,
        entry ∈ entries ->
        GitHubFetcher.target entry = Some (companyName, timeRange) ->
        companyName ∈ JsObject.prototypeMembers) ->
     GitHubFetcher.fetchRepository (Ok entries) =
     Err "GitHub fetch failed: No company data found in repository. Check file structure.").
Proof.
  split; [|split; [reflexivity|split]].
  - intros download e. unfold GitHubFetcher.fetchRepository.
    destruct (bind download _) as [data|message]; [discriminate|].
    intros [= <-]. exists message. reflexivity.
  - intros entries Hread Hprist (entry & c & w & Hin & Ht & Hm).
    destruct (load_returns _ Hread Hprist) as [loaded Hl].
    pose proof (written_elem _ _ _ _ Hin Ht) as Hw.
    rewrite <- (proj2 (load_invariant _ _ Hl) _ _ Hm) in Hw.
    unfold GitHubFetcher.fetchRepository. simpl. rewrite Hl. simpl.
    destruct (GitHubFetcher.repoData loaded) as [|x l]; simpl.
    + exfalso. apply Hw. reflexivity.
    + eexists. reflexivity.
  - intros entries Hread Hall.
    destruct (load_nothing _ Hread Hall) as (loaded & Hl & Hr).
    unfold GitHubFetcher.fetchRepository. simpl. rewrite Hl. simpl. rewrite Hr.
    reflexivity.
Qed.

(** ** From the archive to the index *)

Lemma updateData_stages {RepoData : Type}
    (fetchRepository : result RepoData)
    (parseAllCSVs : RepoData -> result Parsed.ParsedData)
    (now : string) (st st' : DataService.State) :
  DataService.updateData fetchRepository parseAllCSVs now st = (Ok tt, st') ->
  exists repoData parsedData st1,
    fetchRepository = Ok repoData /\
    parseAllCSVs repoData = Ok parsedData /\
    DataService.buildProblemIndex parsedData st = (Ok tt, st1) /\
    st' = DataService.set_lastUpdated (Some now) st1.
Proof.
  unfold DataService.updateData, DataService.tryCatch, DataService.seq at 1 2 3,
    DataService.lift, DataService.throw.
  destruct fetchRepository as [repoData|e1]; [|discriminate].
  destruct (parseAllCSVs repoData) as [parsedData|e2] eqn:Hp; [|discriminate].
  pose proof (buildProblemIndex_outcome parsedData st) as Hb.
  destruct (DataService.buildLocals parsedData) as [acc|e3]; rewrite Hb; [|discriminate].
  simpl. intros [= <-]. exists repoData, parsedData. eexists.
  split; [reflexivity|]. split; [exact Hp|]. split; [exact Hb | reflexivity].
Qed.

Lemma parsed_build_returns (Other : Type)
    (parseInt : CSVParser.cell Other -> option Z)
    (papaParse : string -> result (list (CSVParser.Row Other))) repoData st :
  exists acc,
    DataService.buildLocals (CSVParser.parseAllCSVs Other parseInt papaParse repoData)
      = Ok acc /\
    DataService.buildProblemIndex
      (CSVParser.parseAllCSVs Other parseInt papaParse repoData) st =
    (Ok tt,
     {| DataService.problemMap := DataService.l_problemMap acc;
        DataService.titleMap := DataService.l_titleMap acc;
        DataService.lastUpdated := DataService.lastUpdated st;
        DataService.totalProblems := JsMap.size (DataService.l_problemMap acc);
        DataService.totalCompanies := size (DataService.l_companiesSet acc) |}).
Proof.
  pose proof (proj2 (buildProblemIndex_returns
                       (CSVParser.parseAllCSVs Other parseInt papaParse repoData) st)
                    (parseAllCSVs_titles Other parseInt papaParse repoData))
    as [st1 Hb].
  pose proof (buildProblemIndex_outcome
                (CSVParser.parseAllCSVs Other parseInt papaParse repoData) st) as Ho.
  destruct (DataService.buildLocals _) as [acc|e] eqn:Hl; rewrite Ho in Hb; [|discriminate].
  exists acc. split; [reflexivity | exact Ho].
Qed.

Lemma filter_ownKey_wellFormed (data : list (string * list (string * string))) :
  GitHubFetcher.wellFormed data -> List.filter CSVParser.ownKey data = data.
Proof.
  intros [_ Hwf].
  assert (forall x, x ∈ data -> CSVParser.ownKey x = true) as Hall.
  { intros [c files] Hin. destruct (Hwf _ _ Hin) as [Hm _].
    unfold CSVParser.ownKey. simpl. rewrite bool_decide_eq_false_2; [reflexivity|].
    intros ->. apply Hm. unfold JsObject.prototypeMembers. rewrite !elem_of_cons. tauto. }
  clear Hwf. induction data as [|x data IH]; [reflexivity|]. simpl.
  rewrite Hall by apply list_elem_of_here. f_equal. apply IH.
  intros y Hy. apply Hall. apply list_elem_of_further. exact Hy.
Qed.

Lemma build_totalCompanies parsedData st st' :
  DataService.buildProblemIndex parsedData st = (Ok tt, st') ->
  DataService.totalCompanies st' = size (list_to_set (map fst parsedData) : gset string).
Proof.
  intros Hb. pose proof (buildProblemIndex_outcome parsedData st) as Ho.
  unfold DataService.buildLocals in Ho.
  destruct (foldM DataService.processCompany DataService.emptyLocals parsedData)
    as [acc|e] eqn:Hf; simpl in Ho; rewrite Ho in Hb; [|discriminate].
  injection Hb as <-. simpl.
  rewrite (companiesSet_of_data _ _ _ Hf). simpl. rewrite union_empty_r_L. reflexivity.
Qed.

Lemma build_window_source parsedData st st' k p c w :
  DataService.buildProblemIndex parsedData st = (Ok tt, st') ->
  (k, p) ∈ DataService.problemMap st' ->
  c ∈ DataService.companies p ->
  w ∈ DataService.timeRanges c ->
  exists t, t ∈ Build.records parsedData /\ Build.windowOf t = w.
Proof.
  intros Hb Hin Hc Hw.
  destruct (build_described _ _ _ Hb) as [pm [_ [[_ Hent] [Hpm _]]]].
  rewrite Hpm in Hin. apply sortCompanies_elem in Hin. destruct Hin as [p0 [Hin ->]].
  simpl in Hc. rewrite (sort_perm DataService.byFrequency) in Hc.
  destruct (proj2 (Hent _ _ Hin) c Hc) as [Htr _].
  rewrite Htr in Hw. unfold Index.seenWindows in Hw.
  apply elem_of_list_to_set in Hw. apply list_elem_of_In in Hw.
  apply List.filter_In in Hw. destruct Hw as [Hw _].
  apply in_map_iff in Hw. destruct Hw as [t [Ht Hw]].
  apply List.filter_In in Hw. destruct Hw as [Hw _].
  exists t. split; [apply list_elem_of_In; exact Hw | exact Ht].
Qed.

Lemma parsed_windows (Other : Type)
    (parseInt : CSVParser.cell Other -> option Z)
    (papaParse : string -> result (list (CSVParser.Row Other))) data t :
  GitHubFetcher.wellFormed data ->
  t ∈ Build.records (CSVParser.parseAllCSVs Other parseInt papaParse data) ->
  Build.windowOf t ∈ GitHubFetcher.labels.
Proof.
  intros [_ Hwf] Hin. apply list_elem_of_In in Hin. unfold Build.records in Hin.
  apply in_flat_map in Hin. destruct Hin as [c [Hc Hin]].
  apply in_flat_map in Hin. destruct Hin as [w [Hw Hin]].
  apply in_map_iff in Hin. destruct Hin as [r [<- _]]. unfold Build.windowOf. simpl.
  unfold CSVParser.parseAllCSVs in Hc.
  apply in_map_iff in Hc. destruct Hc as [[c0 files] [<- Hc]]. simpl in Hw.
  apply in_map_iff in Hw. destruct Hw as [[w0 content] [<- Hw]]. simpl.
  apply List.filter_In in Hc. destruct Hc as [Hc _].
  apply List.filter_In in Hw. destruct Hw as [Hw _].
  apply list_elem_of_In in Hc. apply list_elem_of_In in Hw.
  destruct (Hwf _ _ Hc) as (_ & _ & _ & Hlab). apply Hlab.
  apply (list_elem_of_fmap_2 fst _ _ Hw).
Qed.

Lemma fetchRepository_wellFormed download data :
  GitHubFetcher.fetchRepository download = Ok data ->
  data <> [] /\ GitHubFetcher.wellFormed data.
Proof.
  intros H.
  destruct (fetchRepository_returned _ _ H) as (entries & loaded & _ & Hl & -> & Hne).
  split; [exact Hne | exact (proj1 (load_invariant _ _ Hl))].
Qed.

(** X28: A rebuild from an archive without a directory [__proto__] (with one,
    the fetch writes onto [Object.prototype], which the service is
    modelled with its standard members only), through the parser: when
    the fetch returns, the rebuild succeeds, the state
    carries the time of the rebuild, and [totalCompanies] is the number of
    directories that the fetch returned, which is at least one; when the
    fetch fails, the rebuild fails with the same message and the state is
    the one from before. *)
Theorem fetched_rebuild (Other : Type)
    (parseInt : CSVParser.cell Other -> option Z)
    (papaParse : string -> result (list (CSVParser.Row Other)))
    (download : result (list GitHubFetcher.ZipEntry))
    (now : string) (st st' : DataService.State) (outcome : result unit) :
  (forall entries, download = Ok entries -> GitHubFetcher.pristine entries) ->
  DataService.updateData (GitHubFetcher.fetchRepository download)
    (fun r => Ok (CSVParser.parseAllCSVs Other parseInt papaParse r)) now st =
    (outcome, st') ->
  (forall data,
     GitHubFetcher.fetchRepository download = Ok data ->
     outcome = Ok tt /\
     DataService.lastUpdated st' = Some now /\
     DataService.totalCompanies st' = List.length data /\
     (1 <= DataService.totalCompanies st')%nat) /\
  (forall e,
     GitHubFetcher.fetchRepository download = Err e -> outcome = Err e /\ st' = st).
Proof.
  intros _ Hup. split.
  - intros data Hf. destruct (fetchRepository_wellFormed _ _ Hf) as [Hne Hwf].
    destruct (parsed_build_returns Other parseInt papaParse data st) as [acc [Hl Hb]].
    rewrite (updateData_success _ _ now st data _ acc Hf eq_refl Hl) in Hup.
    injection Hup as <- <-. simpl.
    split; [reflexivity|]. split; [reflexivity|].
    pose proof (build_totalCompanies _ _ _ Hb) as Ht. simpl in Ht.
    assert (size (DataService.l_companiesSet acc) = List.length data) as ->.
    { rewrite Ht. unfold CSVParser.parseAllCSVs.
      rewrite (filter_ownKey_wellFormed _ Hwf), map_map. simpl.
      rewrite size_list_to_set by exact (proj1 Hwf). apply length_map. }
    split; [reflexivity|]. destruct data; [contradiction | simpl; lia].
  - intros e Hf. rewrite Hf in Hup. injection Hup as <- <-. split; reflexivity.
Qed.

(** X29: In an index rebuilt from an archive without a directory [__proto__]
    (the scope of the model of the service, as above) every window of every company is one of the four labels of the file
    table; [60-days] is not among them, and so the windowed answer for
    [60] is the one for [30]. *)
Theorem fetched_windows (Other : Type)
    (parseInt : CSVParser.cell Other -> option Z)
    (papaParse : string -> result (list (CSVParser.Row Other)))
    (download : result (list GitHubFetcher.ZipEntry))
    (now : string) (st st' : DataService.State)
    (k : string) (p : DataService.ProblemData) :
  (forall entries, download = Ok entries -> GitHubFetcher.pristine entries) ->
  DataService.updateData (GitHubFetcher.fetchRepository download)
    (fun r => Ok (CSVParser.parseAllCSVs Other parseInt papaParse r)) now st =
    (Ok tt, st') ->
  (k, p) ∈ DataService.problemMap st' ->
  (forall c w, c ∈ DataService.companies p -> w ∈ DataService.timeRanges c ->
               w ∈ GitHubFetcher.labels) /\
  DataService.filterByTimeRange p (Some "60") =
  DataService.filterByTimeRange p (Some "30").
Proof.
  intros _ Hup Hin.
  destruct (updateData_stages _ _ _ _ _ Hup) as (data & pd & st1 & Hf & [= <-] & Hb & ->).
  simpl in Hin. destruct (fetchRepository_wellFormed _ _ Hf) as [_ Hwf].
  assert (forall c w, c ∈ DataService.companies p -> w ∈ DataService.timeRanges c ->
                      w ∈ GitHubFetcher.labels) as Hlab.
  { intros c w Hc Hw.
    destruct (build_window_source _ _ _ _ _ _ _ Hb Hin Hc Hw) as [t [Ht <-]].
    exact (parsed_windows Other parseInt papaParse data t Hwf Ht). }
  split; [exact Hlab|].
  rewrite (filterByTimeRange_kept _ "60" ["30-days"; "60-days"])
    by (discriminate || reflexivity).
  rewrite (filterByTimeRange_kept _ "30" ["30-days"]) by (discriminate || reflexivity).
  do 3 f_equal. apply List.filter_ext_in. intros c Hc. apply list_elem_of_In in Hc.
  apply bool_decide_ext. unfold Recency.intersects.
  assert (DataService.timeRanges c ∩ list_to_set ["30-days"; "60-days"] =
          DataService.timeRanges c ∩ list_to_set ["30-days"]) as ->; [|reflexivity].
  apply set_eq. intros w.
  rewrite !elem_of_intersection, !elem_of_list_to_set, !elem_of_cons, elem_of_nil.
  split; [|tauto]. intros [Hw [->|[->|[]]]]; [tauto|].
  exfalso. pose proof (Hlab _ _ Hc Hw) as H60. unfold GitHubFetcher.labels in H60.
  rewrite !elem_of_cons, elem_of_nil in H60.
  destruct H60 as [H|[H|[H|[H|[]]]]]; discriminate.
Qed.

(** ** The further properties at sample inputs *)

Lemma normalizeSlug_titleToSlug_witness :
  Forall (fun c => Char.is_special c = false) (Normalizer.chars "two-sum") /\
  Normalizer.normalizeSlug "two-sum" = Normalizer.titleToSlug "two-sum".
Proof.
  assert (Forall (fun c => Char.is_special c = false) (Normalizer.chars "two-sum"))
    as H by (repeat constructor).
  exact (conj H (proj1 (proj2 (normalizeSlug_titleToSlug "two-sum")) H)).
Defined.

Lemma titleToSlug_normalizeTitle_witness :
  Normalizer.normalizeTitle "Two  Sum" = Normalizer.normalizeTitle " two sum" /\
  Normalizer.titleToSlug "Two  Sum" = Normalizer.titleToSlug " two sum".
Proof.
  assert (Normalizer.normalizeTitle "Two  Sum" = Normalizer.normalizeTitle " two sum")
    as H by reflexivity.
  exact (conj H (proj2 (titleToSlug_normalizeTitle "Two  Sum" " two sum") H)).
Defined.

Lemma matchesQuery_preorder_witness :
  Lookup.matchesQuery "Two Sum II" "two sum" = true /\
  Lookup.matchesQuery "two sum" "SUM" = true /\
  Lookup.matchesQuery "Two Sum II" "SUM" = true.
Proof.
  assert (Lookup.matchesQuery "Two Sum II" "two sum" = true) as H1 by reflexivity.
  assert (Lookup.matchesQuery "two sum" "SUM" = true) as H2 by reflexivity.
  exact (conj H1 (conj H2 (proj1 (proj2 matchesQuery_preorder) _ _ _ H1 H2))).
Defined.

Lemma index_keys_witness :
  DataService.buildProblemIndex Sample.ranked DataService.initial =
    (Ok tt, Sample.rankedState) /\
  map fst (DataService.problemMap Sample.rankedState) =
    Index.slugOrder (Build.records Sample.ranked).
Proof.
  assert (DataService.buildProblemIndex Sample.ranked DataService.initial =
          (Ok tt, Sample.rankedState))
    as H1 by (vm_compute; reflexivity).
  exact (conj H1 (proj1 (index_keys _ _ _ H1))).
Defined.

Lemma index_first_title_witness :
  DataService.buildProblemIndex Sample.ranked DataService.initial =
    (Ok tt, Sample.rankedState) /\
  ("two-sum", Sample.rankedTwoSum) ∈ DataService.problemMap Sample.rankedState /\
  Index.firstTitle (Build.records Sample.ranked) "two-sum" = Some "Two Sum".
Proof.
  assert (DataService.buildProblemIndex Sample.ranked DataService.initial =
          (Ok tt, Sample.rankedState))
    as H1 by (vm_compute; reflexivity).
  assert (("two-sum", Sample.rankedTwoSum) ∈ DataService.problemMap Sample.rankedState)
    as H2 by (unfold Sample.rankedState; rewrite ranked_build; apply list_elem_of_here).
  exact (conj H1 (conj H2 (proj1 (index_first_title _ _ _ _ _ H1 H2)))).
Defined.

Lemma index_companies_witness :
  DataService.buildProblemIndex Sample.ranked DataService.initial =
    (Ok tt, Sample.rankedState) /\
  ("two-sum", Sample.rankedTwoSum) ∈ DataService.problemMap Sample.rankedState /\
  NoDup (map DataService.name (DataService.companies Sample.rankedTwoSum)).
Proof.
  assert (DataService.buildProblemIndex Sample.ranked DataService.initial =
          (Ok tt, Sample.rankedState))
    as H1 by (vm_compute; reflexivity).
  assert (("two-sum", Sample.rankedTwoSum) ∈ DataService.problemMap Sample.rankedState)
    as H2 by (unfold Sample.rankedState; rewrite ranked_build; apply list_elem_of_here).
  exact (conj H1 (conj H2 (proj1 (proj2 (index_companies _ _ _ _ _ H1 H2))))).
Defined.

Lemma index_windows_witness :
  DataService.buildProblemIndex Sample.ranked DataService.initial =
    (Ok tt, Sample.rankedState) /\
  ("two-sum", Sample.rankedTwoSum) ∈ DataService.problemMap Sample.rankedState /\
  Sample.company "Acme" 2 {["30-days"; "90-days"; "all-time"]} "30-days"
    ∈ DataService.companies Sample.rankedTwoSum /\
  ({["30-days"; "90-days"; "all-time"]} : gset string) =
    Index.seenWindows (Build.records Sample.ranked) "two-sum" "Acme".
Proof.
  assert (DataService.buildProblemIndex Sample.ranked DataService.initial =
          (Ok tt, Sample.rankedState))
    as H1 by (vm_compute; reflexivity).
  assert (("two-sum", Sample.rankedTwoSum) ∈ DataService.problemMap Sample.rankedState)
    as H2 by (unfold Sample.rankedState; rewrite ranked_build; apply list_elem_of_here).
  assert (Sample.company "Acme" 2 {["30-days"; "90-days"; "all-time"]} "30-days"
            ∈ DataService.companies Sample.rankedTwoSum) as H3
    by (apply list_elem_of_further, list_elem_of_further, list_elem_of_here).
  exact (conj H1 (conj H2 (conj H3 (proj1 (index_windows _ _ _ _ _ _ H1 H2 H3))))).
Defined.

Lemma getShortestRange_tightest_witness :
  Index.tighter "30-days" (DataService.getShortestRange {["90-days"]}) /\
  "30-days" ∉ ({["90-days"]} : gset string).
Proof.
  assert (Index.tighter "30-days" (DataService.getShortestRange {["90-days"]})) as H.
  { exists ["30-days"; "60-days"], ["all-time"].
    split; [reflexivity | apply list_elem_of_here]. }
  exact (conj H (proj2 (proj2 (getShortestRange_tightest {["90-days"]})) _ H)).
Defined.

Lemma index_totalCompanies_witness :
  DataService.buildProblemIndex Sample.ranked DataService.initial =
    (Ok tt, Sample.rankedState) /\
  DataService.totalCompanies Sample.rankedState =
    size (list_to_set (map fst Sample.ranked) : gset string).
Proof.
  assert (DataService.buildProblemIndex Sample.ranked DataService.initial =
          (Ok tt, Sample.rankedState))
    as H1 by (vm_compute; reflexivity).
  exact (conj H1 (proj1 (index_totalCompanies _ _ _ H1))).
Defined.

Lemma queries_return_witness :
  (Normalizer.normalizeSlug "3sum-closest"
     ∉ map fst (DataService.problemMap Sample.rankedState)) /\
  Query.queryBySlug Sample.rankedState (Query.VString "3sum-closest") (Some "30") =
    Ok None /\
  Query.VFalsy <> Query.VTruthy /\
  exists r, Query.queryByTitle Sample.rankedState Query.VFalsy (Some "30") = Ok r.
Proof.
  assert (Normalizer.normalizeSlug "3sum-closest"
            ∉ map fst (DataService.problemMap Sample.rankedState)) as H.
  { unfold Sample.rankedState. rewrite ranked_build. simpl.
    rewrite !not_elem_of_cons. split; [discriminate|]. split; [discriminate|].
    apply not_elem_of_nil. }
  assert (Query.VFalsy <> Query.VTruthy) as Hv by discriminate.
  exact (conj H
           (conj (proj2 (proj2 (proj2 (proj2 (proj2 (proj2
                    (queries_return Sample.rankedState Query.VFalsy Query.VFalsy
                       (Some "30")))))) "3sum-closest") H)
              (conj Hv
                 (proj2 (proj1 (proj2 (queries_return Sample.rankedState Query.VFalsy
                                         Query.VFalsy (Some "30")))) Hv)))).
Defined.

Lemma record_found_witness :
  DataService.buildProblemIndex Sample.ranked DataService.initial =
    (Ok tt, Sample.rankedState) /\
  ("Delta", "30-days", Sample.rec "(Two Sum)" 2) ∈ Build.records Sample.ranked /\
  exists p,
    DataService.queryBySlug Sample.rankedState (Normalizer.titleToSlug "(Two Sum)") None =
      Ok (Some (DataService.FullClone p)) /\
    DataService.slug p = Normalizer.titleToSlug "(Two Sum)" /\
    "Delta" ∈ map DataService.name (DataService.companies p).
Proof.
  assert (DataService.buildProblemIndex Sample.ranked DataService.initial =
          (Ok tt, Sample.rankedState))
    as H1 by (vm_compute; reflexivity).
  assert (("Delta", "30-days", Sample.rec "(Two Sum)" 2) ∈ Build.records Sample.ranked)
    as H2 by (unfold Build.records; simpl; rewrite !elem_of_cons; tauto).
  exact (conj H1 (conj H2 (record_found _ _ _ _ _ H1 H2 eq_refl))).
Defined.

Lemma queryByTitle_found_witness :
  DataService.buildProblemIndex Sample.ranked DataService.initial =
    (Ok tt, Sample.rankedState) /\
  (DataService.queryByTitle Sample.rankedState " two  SUM " None =
     Ok (Some (DataService.FullClone Sample.rankedTwoSum)) <->
   exists k p,
     (k, p) ∈ DataService.problemMap Sample.rankedState /\
     k <> EmptyString /\
     Normalizer.normalizeTitle " two  SUM " =
       Normalizer.normalizeTitle (DataService.problem p) /\
     DataService.filterByTimeRange p None = Ok (DataService.FullClone Sample.rankedTwoSum)).
Proof.
  assert (DataService.buildProblemIndex Sample.ranked DataService.initial =
          (Ok tt, Sample.rankedState))
    as H1 by (vm_compute; reflexivity).
  exact (conj H1 (queryByTitle_found _ _ _ " two  SUM " None
                    (DataService.FullClone Sample.rankedTwoSum) H1)).
Defined.

Lemma findBestMatch_key_witness :
  DataService.buildProblemIndex Sample.ranked DataService.initial =
    (Ok tt, Sample.rankedState) /\
  Lookup.findBestMatch "Two Sum!" (DataService.titleMap Sample.rankedState)
    (DataService.problemMap Sample.rankedState) =
  if bool_decide (Normalizer.titleToSlug "Two Sum!"
                    ∈ map fst (DataService.problemMap Sample.rankedState))
  then Some (Normalizer.titleToSlug "Two Sum!")
  else None.
Proof.
  assert (DataService.buildProblemIndex Sample.ranked DataService.initial =
          (Ok tt, Sample.rankedState))
    as H1 by (vm_compute; reflexivity).
  exact (conj H1 (findBestMatch_key _ _ _ "Two Sum!" H1)).
Defined.

Lemma seen_in_30_days_always_kept_witness :
  "60" <> EmptyString /\
  Sample.company "Delta" 2 {["30-days"]} "30-days"
    ∈ DataService.companies Sample.rankedTwoSum /\
  "30-days" ∈ DataService.timeRanges (Sample.company "Delta" 2 {["30-days"]} "30-days") /\
  exists kept,
    DataService.filterByTimeRange Sample.rankedTwoSum (Some "60") =
      Ok (DataService.Filtered (DataService.problem Sample.rankedTwoSum)
                               (DataService.slug Sample.rankedTwoSum) kept) /\
    DataService.view (Sample.company "Delta" 2 {["30-days"]} "30-days") ∈ kept.
Proof.
  assert ("60" <> EmptyString) as H1 by discriminate.
  assert (Sample.company "Delta" 2 {["30-days"]} "30-days"
            ∈ DataService.companies Sample.rankedTwoSum) as H2
    by (simpl; rewrite !elem_of_cons; tauto).
  assert ("30-days" ∈ DataService.timeRanges
                        (Sample.company "Delta" 2 {["30-days"]} "30-days")) as H3
    by (simpl; apply elem_of_singleton; reflexivity).
  exact (conj H1 (conj H2 (conj H3
           (seen_in_30_days_always_kept Sample.rankedTwoSum "60" _ H1 H2 H3)))).
Defined.

Lemma unrecognized_token_like_all_witness :
  "180" <> EmptyString /\
  ("180" ∉ Recency.recognized) /\
  DataService.filterByTimeRange Sample.sixMonthsEntry (Some "180") =
  DataService.filterByTimeRange Sample.sixMonthsEntry (Some "all").
Proof.
  assert ("180" <> EmptyString) as H1 by discriminate.
  assert ("180" ∉ Recency.recognized) as H2.
  { unfold Recency.recognized. intros H. rewrite !elem_of_cons, elem_of_nil in H.
    intuition discriminate. }
  exact (conj H1 (conj H2 (unrecognized_token_like_all Sample.sixMonthsEntry "180" H1 H2))).
Defined.

Lemma windowed_answers_nested_witness :
  "30" <> EmptyString /\
  DataService.filterByTimeRange Sample.twoSum (Some "30") =
    Ok (DataService.Filtered (DataService.problem Sample.twoSum)
                             (DataService.slug Sample.twoSum)
                             [DataService.view Sample.acme]) /\
  exists l30 l60 l90 lall,
    DataService.filterByTimeRange Sample.twoSum (Some "30") =
      Ok (DataService.Filtered (DataService.problem Sample.twoSum)
                               (DataService.slug Sample.twoSum) l30) /\
    DataService.filterByTimeRange Sample.twoSum (Some "60") =
      Ok (DataService.Filtered (DataService.problem Sample.twoSum)
                               (DataService.slug Sample.twoSum) l60) /\
    DataService.filterByTimeRange Sample.twoSum (Some "90") =
      Ok (DataService.Filtered (DataService.problem Sample.twoSum)
                               (DataService.slug Sample.twoSum) l90) /\
    DataService.filterByTimeRange Sample.twoSum (Some "all") =
      Ok (DataService.Filtered (DataService.problem Sample.twoSum)
                               (DataService.slug Sample.twoSum) lall) /\
    l30 `sublist_of` l60 /\ l60 `sublist_of` l90 /\ l90 `sublist_of` lall /\
    lall `sublist_of` map DataService.view (DataService.companies Sample.twoSum) /\
    [DataService.view Sample.acme] `sublist_of` lall.
Proof.
  assert ("30" <> EmptyString) as H1 by discriminate.
  assert (DataService.filterByTimeRange Sample.twoSum (Some "30") =
          Ok (DataService.Filtered (DataService.problem Sample.twoSum)
                                   (DataService.slug Sample.twoSum)
                                   [DataService.view Sample.acme])) as H2
    by (vm_compute; reflexivity).
  exact (conj H1 (conj H2 (windowed_answers_nested Sample.twoSum "30" _ H1 H2))).
Defined.

Lemma extractProblems_records_witness :
  {| Parsed.title := Parsed.TitleString "Two Sum"; Parsed.frequency := Some 1%Z |}
    ∈ CSVParser.extractProblems unit Archive.parseInt
        [[("title", CSVParser.CellString " Two Sum ")]] /\
  exists s f,
    Parsed.TitleString "Two Sum" = Parsed.TitleString s /\
    Normalizer.trim s = s /\
    Some 1%Z = Some f.
Proof.
  assert ({| Parsed.title := Parsed.TitleString "Two Sum"; Parsed.frequency := Some 1%Z |}
            ∈ CSVParser.extractProblems unit Archive.parseInt
                [[("title", CSVParser.CellString " Two Sum ")]]) as H
    by (vm_compute; apply list_elem_of_here).
  exact (conj H (extractProblems_records unit Archive.parseInt _ _ H)).
Defined.

Lemma reachable_state_sound_witness :
  Service.reachable (snd Archive.rebuild) /\
  DataService.totalProblems (snd Archive.rebuild) =
    JsMap.size (DataService.problemMap (snd Archive.rebuild)).
Proof.
  assert (Service.reachable (snd Archive.rebuild)) as H.
  { apply (Service.reach_update _
             (GitHubFetcher.fetchRepository (Ok Archive.sample))
             (fun r => Ok (CSVParser.parseAllCSVs unit Archive.parseInt
                             Archive.papaParse r))
             "2026-01-01T02:00:00.000Z" DataService.initial _
             (fst Archive.rebuild) Service.reach_initial).
    unfold Archive.rebuild. apply surjective_pairing. }
  exact (conj H (proj1 (reachable_state_sound _ H))).
Defined.

Lemma logger_levels_witness :
  (Logger.methodLevel Logger.ERROR <= Logger.methodLevel Logger.WARN)%Z /\
  Logger.log (Some "WARN") "2026-01-01T00:00:00.000Z" Logger.WARN ["disk"; "full"]
    <> None /\
  Logger.log (Some "WARN") "2026-01-01T00:00:00.000Z" Logger.ERROR ["down"] <> None.
Proof.
  assert (Logger.methodLevel Logger.ERROR <= Logger.methodLevel Logger.WARN)%Z
    as H1 by (simpl; lia).
  assert (Logger.log (Some "WARN") "2026-01-01T00:00:00.000Z" Logger.WARN
            ["disk"; "full"] <> None) as H2 by discriminate.
  exact (conj H1 (conj H2
           (proj1 (proj2 (proj2 logger_levels)) _ _ _ _ _ ["down"] H1 H2))).
Defined.

Lemma fetchRepository_data_witness :
  GitHubFetcher.fetchRepository (Ok Archive.sample) =
    Ok [("Acme", [("all-time", "all")])] /\
  NoDup (map fst [("Acme", [("all-time", "all")])]).
Proof.
  assert (GitHubFetcher.fetchRepository (Ok Archive.sample) =
          Ok [("Acme", [("all-time", "all")])]) as H by (vm_compute; reflexivity).
  exact (conj H (proj1 (proj2 (fetchRepository_data _ _ H)))).
Defined.

Lemma fetchRepository_contents_witness :
  GitHubFetcher.fetchRepository (Ok Archive.sample) =
    Ok [("Acme", [("all-time", "all")])] /\
  ("Acme" ∉ JsObject.prototypeMembers) /\
  Ok <$> (JsMap.get "Acme" [("Acme", [("all-time", "all")])] ≫= JsMap.get "all-time") =
  GitHubFetcher.written Archive.sample "Acme" "all-time".
Proof.
  assert (GitHubFetcher.fetchRepository (Ok Archive.sample) =
          Ok [("Acme", [("all-time", "all")])]) as H1 by (vm_compute; reflexivity).
  assert ("Acme" ∉ JsObject.prototypeMembers) as H2.
  { unfold JsObject.prototypeMembers. intros H. rewrite !elem_of_cons, elem_of_nil in H.
    intuition discriminate. }
  exact (conj H1 (conj H2 (fetchRepository_contents _ _ "Acme" "all-time" H1 H2))).
Defined.

Lemma sample_readable : GitHubFetcher.readable Archive.sample.
Proof.
  intros entry Hin _. unfold Archive.sample in Hin.
  rewrite !elem_of_cons, elem_of_nil in Hin.
  destruct Hin as [->|[->|[->|[->|[]]]]]; eexists; reflexivity.
Defined.

Lemma sample_pristine : GitHubFetcher.pristine Archive.sample.
Proof.
  intros entry w Hin. unfold Archive.sample in Hin.
  rewrite !elem_of_cons, elem_of_nil in Hin.
  destruct Hin as [->|[->|[->|[->|[]]]]]; vm_compute; discriminate.
Defined.

Lemma fetchRepository_fails_witness :
  GitHubFetcher.readable Archive.sample /\
  GitHubFetcher.pristine Archive.sample /\
  (exists entry companyName timeRange,
     entry ∈ Archive.sample /\
     GitHubFetcher.target entry = Some (companyName, timeRange) /\
     companyName ∉ JsObject.prototypeMembers) /\
  exists data, GitHubFetcher.fetchRepository (Ok Archive.sample) = Ok data.
Proof.
  assert (exists entry companyName timeRange,
            entry ∈ Archive.sample /\
            GitHubFetcher.target entry = Some (companyName, timeRange) /\
            companyName ∉ JsObject.prototypeMembers) as H3.
  { exists {| GitHubFetcher.isDirectory := false;
              GitHubFetcher.entryName := "repo-main/Acme/5. All.csv";
              GitHubFetcher.getData := Ok "all" |}, "Acme", "all-time".
    split; [unfold Archive.sample; rewrite !elem_of_cons; tauto|].
    split; [vm_compute; reflexivity|].
    unfold JsObject.prototypeMembers. intros H. rewrite !elem_of_cons, elem_of_nil in H.
    intuition discriminate. }
  exact (conj sample_readable (conj sample_pristine (conj H3
           (proj1 (proj2 (proj2 fetchRepository_fails)) _
              sample_readable sample_pristine H3)))).
Defined.

Lemma fetched_rebuild_witness :
  (forall entries, Ok Archive.sample = Ok entries -> GitHubFetcher.pristine entries) /\
  GitHubFetcher.fetchRepository (Ok Archive.sample) =
    Ok [("Acme", [("all-time", "all")])] /\
  fst Archive.rebuild = Ok tt /\
  DataService.lastUpdated (snd Archive.rebuild) = Some "2026-01-01T02:00:00.000Z" /\
  DataService.totalCompanies (snd Archive.rebuild) = 1%nat /\
  (1 <= DataService.totalCompanies (snd Archive.rebuild))%nat.
Proof.
  assert (forall entries, Ok Archive.sample = Ok entries -> GitHubFetcher.pristine entries)
    as H1 by (intros entries [= <-]; exact sample_pristine).
  assert (GitHubFetcher.fetchRepository (Ok Archive.sample) =
          Ok [("Acme", [("all-time", "all")])]) as H2 by (vm_compute; reflexivity).
  exact (conj H1 (conj H2
           (proj1 (fetched_rebuild unit Archive.parseInt Archive.papaParse
                     (Ok Archive.sample) "2026-01-01T02:00:00.000Z" DataService.initial
                     (snd Archive.rebuild) (fst Archive.rebuild) H1
                     (surjective_pairing Archive.rebuild)) _ H2))).
Defined.

Lemma fetched_windows_witness :
  (forall entries, Ok Archive.sample = Ok entries -> GitHubFetcher.pristine entries) /\
  Archive.rebuild = (Ok tt, snd Archive.rebuild) /\
  ("two-sum", Archive.twoSum) ∈ DataService.problemMap (snd Archive.rebuild) /\
  DataService.filterByTimeRange Archive.twoSum (Some "60") =
  DataService.filterByTimeRange Archive.twoSum (Some "30").
Proof.
  assert (forall entries, Ok Archive.sample = Ok entries -> GitHubFetcher.pristine entries)
    as H1 by (intros entries [= <-]; exact sample_pristine).
  assert (Archive.rebuild = (Ok tt, snd Archive.rebuild)) as H2
    by (vm_compute; reflexivity).
  assert (("two-sum", Archive.twoSum) ∈ DataService.problemMap (snd Archive.rebuild))
    as H3.
  { assert (DataService.problemMap (snd Archive.rebuild) = [("two-sum", Archive.twoSum)])
      as -> by (vm_compute; reflexivity).
    apply list_elem_of_here. }
  exact (conj H1 (conj H2 (conj H3
           (proj2 (fetched_windows unit Archive.parseInt Archive.papaParse
                     (Ok Archive.sample) "2026-01-01T02:00:00.000Z" DataService.initial
                     (snd Archive.rebuild) "two-sum" Archive.twoSum H1 H2 H3))))).
Defined.
